(** * Expression evaluator of the trigonometric visualizer

    A shallow embedding of [src/lib/expression-evaluator.ts]: the validator
    (syntax, security, complexity and dependency analysis), the compiler's
    textual rewrite, the execution wrapper, the two bounded caches and the
    statistics collector, followed by the properties the specification
    states about them.

    Modelling conventions.
    - A JavaScript string is the list of its UTF-16 code units.
    - Regular expressions are data ([regex]) run by a backtracking matcher
      that follows the ECMAScript priority rules (leftmost match, greedy
      quantifiers, ordered alternation).
    - JavaScript numbers that are finite are represented by exact rationals;
      the counters of the statistics record are integers.
    - The class's static fields form an explicit [State]; methods are
      computations in a state-and-exception monad.
    - The JavaScript engine and the clocks, which the source calls into
      ([new Function], [performance.now], [Date.now]), are a [Host]
      parameter; only the resolution of a bare identifier inside the
      generated function is spelled out.
    - Generated code runs in the realm of the evaluator. Under a [Host] it
      is taken to return or throw and to leave the built-ins alone;
      [SharedRealm] embeds [evaluate] a second time, with clock functions
      that generated code may have replaced and calls that need not
      return. *)

From Stdlib Require Import String Ascii.
From Stdlib Require Import List NArith ZArith QArith Qround Bool Lia.
Import ListNotations.

Close Scope Q_scope.
Open Scope nat_scope.
Set Implicit Arguments.

(** ** JavaScript strings *)

Module JsString.

Definition char := N.
Definition jsstring := list char.

Definition lit (s : string) : jsstring :=
  map N_of_ascii (list_ascii_of_string s).
Arguments lit s%_string.

Fixpoint eqb (a b : jsstring) : bool :=
  match a, b with
  | [], [] => true
  | x :: a', y :: b' => N.eqb x y && eqb a' b'
  | _, _ => false
  end.

Definition inb (x : jsstring) (l : list jsstring) : bool :=
  existsb (eqb x) l.

Definition inRange (lo hi c : N) : bool := (lo <=? c)%N && (c <=? hi)%N.

Definition isChar (a : ascii) (c : char) : bool := N.eqb c (N_of_ascii a).
Arguments isChar a%_char c.

Definition oneOf (s : string) (c : char) : bool :=
  existsb (N.eqb c) (lit s).
Arguments oneOf s%_string c.

(** The class [\s] of a regular expression and the characters [trim]
    strips: WhiteSpace and LineTerminator of ECMAScript. *)
Definition isWhiteSpace (c : char) : bool :=
  inRange 9 13 c || N.eqb c 32 || N.eqb c 160 || N.eqb c 5760
  || inRange 8192 8202 c || N.eqb c 8232 || N.eqb c 8233
  || N.eqb c 8239 || N.eqb c 8287 || N.eqb c 12288 || N.eqb c 65279.

Definition isDigit (c : char) : bool := inRange 48 57 c.
Definition isUpper (c : char) : bool := inRange 65 90 c.
Definition isLower (c : char) : bool := inRange 97 122 c.
Definition isLetter (c : char) : bool := isLower c || isUpper c.

(** [\w], the class behind [\b]. *)
Definition isWordChar (c : char) : bool :=
  isLetter c || isDigit c || N.eqb c 95.

(** [[a-zA-Z_$]] and [[a-zA-Z0-9_$]]. *)
Definition isIdentStart (c : char) : bool :=
  isLetter c || N.eqb c 95 || N.eqb c 36.
Definition isIdentPart (c : char) : bool :=
  isLetter c || isDigit c || N.eqb c 95 || N.eqb c 36.

Fixpoint trimStart (s : jsstring) : jsstring :=
  match s with
  | c :: s' => if isWhiteSpace c then trimStart s' else s
  | [] => []
  end.

Definition trimEnd (s : jsstring) : jsstring := rev (trimStart (rev s)).

(** [String.prototype.trim] *)
Definition trim (s : jsstring) : jsstring := trimEnd (trimStart s).

(** [Array.prototype.join] *)
Fixpoint join (sep : jsstring) (l : list jsstring) : jsstring :=
  match l with
  | [] => []
  | [x] => x
  | x :: l' => x ++ sep ++ join sep l'
  end.

(** [[...new Set(l)]]: first occurrences, in order. *)
Fixpoint dedupe_acc (seen l : list jsstring) : list jsstring :=
  match l with
  | [] => []
  | x :: l' => if inb x seen then dedupe_acc seen l'
               else x :: dedupe_acc (x :: seen) l'
  end.
Definition dedupe (l : list jsstring) : list jsstring := dedupe_acc [] l.

(** Decimal rendering of a natural number inside a template string. *)
Definition digitsOf (n : nat) : jsstring :=
  let fix go (fuel : nat) (n : N) (acc : jsstring) : jsstring :=
    match fuel with
    | 0 => acc
    | S fuel' =>
        let acc' := (48 + n mod 10)%N :: acc in
        if (n / 10 =? 0)%N then acc' else go fuel' (n / 10)%N acc'
    end in
  go (S n) (N.of_nat n) [].

End JsString.
Export JsString.

(** ** Regular expressions *)

Module RegExp.

(** The fragment of ECMAScript patterns the evaluator uses. Quantifiers only
    occur on character classes in the source, so [Rep min p] stands for
    [p{min,}] (greedy): [p*] is [Rep 0 p] and [p+] is [Rep 1 p]. *)
Inductive regex : Type :=
| Eps
| Cls (p : char -> bool)
| Seq (r1 r2 : regex)
| Alt (r1 r2 : regex)
| Rep (min : nat) (p : char -> bool)
| WordB
| Bol
| Eol
| Group (r : regex).

(** A literal string, and the same under the [i] flag. Without the [u] flag
    a pattern letter is matched by its two ASCII cases only. *)
Definition sameLetter (a : char) (c : char) : bool :=
  N.eqb c a
  || (isLower a && N.eqb c (a - 32))
  || (isUpper a && N.eqb c (a + 32)).

Fixpoint seqOf (f : char -> char -> bool) (s : jsstring) : regex :=
  match s with
  | [] => Eps
  | [a] => Cls (f a)
  | a :: s' => Seq (Cls (f a)) (seqOf f s')
  end.

Definition str (s : string) : regex := seqOf (fun a c => N.eqb c a) (lit s).
Definition stri (s : string) : regex := seqOf sameLetter (lit s).
Arguments str s%_string.
Arguments stri s%_string.

Fixpoint alts (l : list regex) : regex :=
  match l with
  | [] => Eps
  | [r] => r
  | r :: l' => Alt r (alts l')
  end.

Definition isWordOpt (o : option char) : bool :=
  match o with Some c => isWordChar c | None => false end.

Section Matcher.
Variable R : Type.

(** A continuation receives the character before the current position,
    the remaining input and the captures so far. *)
Definition kont := option char -> jsstring -> list jsstring -> option R.

Fixpoint rep (p : char -> bool) (min : nat) (prev : option char)
    (s : jsstring) (caps : list jsstring) (k : kont) : option R :=
  match s with
  | c :: s' =>
      if p c then
        match rep p (pred min) (Some c) s' caps k with
        | Some r => Some r
        | None => match min with 0 => k prev s caps | S _ => None end
        end
      else match min with 0 => k prev s caps | S _ => None end
  | [] => match min with 0 => k prev s caps | S _ => None end
  end.

Fixpoint run (r : regex) (prev : option char) (s : jsstring)
    (caps : list jsstring) (k : kont) : option R :=
  match r with
  | Eps => k prev s caps
  | Cls p =>
      match s with
      | c :: s' => if p c then k (Some c) s' caps else None
      | [] => None
      end
  | Seq r1 r2 =>
      run r1 prev s caps (fun prev' s' caps' => run r2 prev' s' caps' k)
  | Alt r1 r2 =>
      match run r1 prev s caps k with
      | Some x => Some x
      | None => run r2 prev s caps k
      end
  | Rep min p => rep p min prev s caps k
  | WordB =>
      if xorb (isWordOpt prev) (isWordOpt (hd_error s))
      then k prev s caps else None
  | Bol => match prev with None => k prev s caps | Some _ => None end
  | Eol => match s with [] => k prev s caps | _ :: _ => None end
  | Group r1 =>
      run r1 prev s caps
        (fun prev' s' caps' =>
           k prev' s' (caps' ++ [firstn (length s - length s') s]))
  end.
End Matcher.

(** One successful match: the matched text and its capture groups. *)
Record rmatch := { matched : jsstring; groups : list jsstring }.

(** A match attempt that starts exactly at the current position. *)
Definition matchHere (r : regex) (prev : option char) (s : jsstring)
  : option rmatch :=
  run r prev s []
    (fun _ rest caps =>
       Some {| matched := firstn (length s - length rest) s; groups := caps |}).

(** [RegExp.prototype.test] with [lastIndex] 0. *)
Fixpoint testFrom (r : regex) (prev : option char) (s : jsstring) : bool :=
  match matchHere r prev s with
  | Some _ => true
  | None =>
      match s with
      | c :: s' => testFrom r (Some c) s'
      | [] => false
      end
  end.
Definition test (r : regex) (s : jsstring) : bool := testFrom r None s.

(** [String.prototype.match] with a [g] pattern: every match, left to
    right, each search resuming where the previous match ended (one
    character further after an empty match). [skip] counts the characters
    of the last match that are still to be passed over. *)
Fixpoint matchAllFrom (r : regex) (prev : option char) (s : jsstring)
    (skip : nat) : list rmatch :=
  match skip with
  | S k =>
      match s with
      | c :: s' => matchAllFrom r (Some c) s' k
      | [] => []
      end
  | 0 =>
      match matchHere r prev s with
      | Some m =>
          m :: match s with
               | c :: s' => matchAllFrom r (Some c) s' (pred (length (matched m)))
               | [] => []
               end
      | None =>
          match s with
          | c :: s' => matchAllFrom r (Some c) s' 0
          | [] => []
          end
      end
  end.
Definition matchAll (r : regex) (s : jsstring) : list jsstring :=
  map matched (matchAllFrom r None s 0).

(** [String.prototype.replace] with a [g] pattern; [by] builds the
    replacement text from the match. *)
Fixpoint replaceAllFrom (r : regex) (by_ : rmatch -> jsstring)
    (prev : option char) (s : jsstring) (skip : nat) : jsstring :=
  match skip with
  | S k =>
      match s with
      | c :: s' => replaceAllFrom r by_ (Some c) s' k
      | [] => []
      end
  | 0 =>
      match matchHere r prev s with
      | Some m =>
          by_ m ++
          match s with
          | c :: s' =>
              match length (matched m) with
              | 0 => c :: replaceAllFrom r by_ (Some c) s' 0
              | S n => replaceAllFrom r by_ (Some c) s' n
              end
          | [] => []
          end
      | None =>
          match s with
          | c :: s' => c :: replaceAllFrom r by_ (Some c) s' 0
          | [] => []
          end
      end
  end.
Definition replaceAll (r : regex) (by_ : rmatch -> jsstring) (s : jsstring)
  : jsstring := replaceAllFrom r by_ None s 0.

(** [String.prototype.replace] with a pattern that has no [g] flag: only
    the leftmost match is replaced. *)
Fixpoint replaceFirstFrom (r : regex) (by_ : rmatch -> jsstring)
    (prev : option char) (s : jsstring) : jsstring :=
  match matchHere r prev s with
  | Some m => by_ m ++ skipn (length (matched m)) s
  | None =>
      match s with
      | c :: s' => c :: replaceFirstFrom r by_ (Some c) s'
      | [] => []
      end
  end.
Definition replaceFirst (r : regex) (by_ : rmatch -> jsstring) (s : jsstring)
  : jsstring := replaceFirstFrom r by_ None s.

End RegExp.
Export RegExp.

(** ** The allow-list registry *)

(** Own keys of [SAFE_MATH_FUNCTIONS], in source order. *)
Definition SAFE_MATH_FUNCTIONS : list jsstring :=
  map lit
    [ "sin"; "cos"; "tan"; "asin"; "acos"; "atan"; "atan2";
      "sinh"; "cosh"; "tanh"; "asinh"; "acosh"; "atanh";
      "exp"; "exp2"; "expm1"; "log"; "log10"; "log2"; "log1p";
      "pow"; "sqrt"; "cbrt"; "hypot";
      "abs"; "sign"; "floor"; "ceil"; "round"; "trunc"; "fround";
      "min"; "max"; "clamp";
      "fmod"; "remainder"; "gamma";
      "PI"; "E"; "LN2"; "LN10"; "LOG2E"; "LOG10E"; "SQRT1_2"; "SQRT2";
      "TAU"; "PHI"; "DEG2RAD"; "RAD2DEG" ]%string.

(** [SAFE_MATH_FUNCTIONS] is an object literal, so the [in] operator also
    finds what it inherits from [Object.prototype]. *)
Definition objectPrototypeKeys : list jsstring :=
  map lit
    [ "constructor"; "__defineGetter__"; "__defineSetter__";
      "hasOwnProperty"; "__lookupGetter__"; "__lookupSetter__";
      "isPrototypeOf"; "propertyIsEnumerable"; "toString"; "valueOf";
      "__proto__"; "toLocaleString" ]%string.

(** [name in SAFE_MATH_FUNCTIONS] *)
Definition inSafeMathFunctions (name : jsstring) : bool :=
  inb name SAFE_MATH_FUNCTIONS || inb name objectPrototypeKeys.

(** ** Validation *)

Record ValidationResult := {
  isValid : bool;
  errors : list jsstring;
  warnings : list jsstring;
  complexity : Z;
  functionsUsed : list jsstring;
  variablesUsed : list jsstring
}.

Definition pushError (msg : jsstring) (r : ValidationResult) : ValidationResult :=
  {| isValid := isValid r; errors := errors r ++ [msg];
     warnings := warnings r; complexity := complexity r;
     functionsUsed := functionsUsed r; variablesUsed := variablesUsed r |}.

Definition pushWarning (msg : jsstring) (r : ValidationResult) : ValidationResult :=
  {| isValid := isValid r; errors := errors r;
     warnings := warnings r ++ [msg]; complexity := complexity r;
     functionsUsed := functionsUsed r; variablesUsed := variablesUsed r |}.

Definition setIsValid (b : bool) (r : ValidationResult) : ValidationResult :=
  {| isValid := b; errors := errors r;
     warnings := warnings r; complexity := complexity r;
     functionsUsed := functionsUsed r; variablesUsed := variablesUsed r |}.

Definition setComplexity (c : Z) (r : ValidationResult) : ValidationResult :=
  {| isValid := isValid r; errors := errors r;
     warnings := warnings r; complexity := c;
     functionsUsed := functionsUsed r; variablesUsed := variablesUsed r |}.

Definition setFunctionsUsed (l : list jsstring) (r : ValidationResult) : ValidationResult :=
  {| isValid := isValid r; errors := errors r;
     warnings := warnings r; complexity := complexity r;
     functionsUsed := l; variablesUsed := variablesUsed r |}.

Definition setVariablesUsed (l : list jsstring) (r : ValidationResult) : ValidationResult :=
  {| isValid := isValid r; errors := errors r;
     warnings := warnings r; complexity := complexity r;
     functionsUsed := functionsUsed r; variablesUsed := l |}.

(** [result.errors.push(msg); result.isValid = false] *)
Definition reject (msg : jsstring) (r : ValidationResult) : ValidationResult :=
  setIsValid false (pushError msg r).

Definition MAX_CACHE_SIZE : nat := 1000.
Definition EVALUATION_TIMEOUT : Q := 100 # 1.
Definition MAX_EXPRESSION_LENGTH : nat := 2000.
Definition MAX_NESTING_DEPTH : Z := 20.

(** *** Syntax *)

Fixpoint balancedFrom (count : Z) (s : jsstring) : bool :=
  match s with
  | [] => (count =? 0)%Z
  | c :: s' =>
      let count := if isChar "(" c then (count + 1)%Z else count in
      let count := if isChar ")" c then (count - 1)%Z else count in
      if (count <? 0)%Z then false else balancedFrom count s'
  end.

Definition hasBalancedParentheses (expression : jsstring) : bool :=
  balancedFrom 0 expression.

Fixpoint nestingFrom (maxDepth currentDepth : Z) (s : jsstring) : Z :=
  match s with
  | [] => maxDepth
  | c :: s' =>
      if isChar "(" c then
        let currentDepth := (currentDepth + 1)%Z in
        nestingFrom (Z.max maxDepth currentDepth) currentDepth s'
      else if isChar ")" c then
        nestingFrom maxDepth (currentDepth - 1)%Z s'
      else nestingFrom maxDepth currentDepth s'
  end.

Definition calculateNestingDepth (expression : jsstring) : Z :=
  nestingFrom 0 0 expression.

Definition spaces : regex := Rep 0 isWhiteSpace.

(** [[+\-*/^]] *)
Definition isArithOp : char -> bool := oneOf "+-*/^".

Definition invalidPatterns : list regex :=
  [ (* /\)\s*\(/g *)        Seq (str ")") (Seq spaces (str "("));
    (* /\d+\s*[a-zA-Z]/g *) Seq (Rep 1 isDigit) (Seq spaces (Cls isLetter));
    (* /[+\-*/^]{2,}/g *)   Rep 2 isArithOp;
    (* /[+\-*/^]\s*$/g *)   Seq (Cls isArithOp) (Seq spaces Eol);
    (* /^\s*[*/^]/g *)      Seq Bol (Seq spaces (Cls (oneOf "*/^"))) ].

Definition validateSyntax (expression : jsstring) (result : ValidationResult)
  : ValidationResult :=
  let result :=
    if negb (hasBalancedParentheses expression)
    then reject (lit "Unbalanced parentheses") result
    else result in
  let nestingDepth := calculateNestingDepth expression in
  let result :=
    if (nestingDepth >? MAX_NESTING_DEPTH)%Z
    then reject (lit "Nesting too deep (max "
                 ++ digitsOf (Z.to_nat MAX_NESTING_DEPTH)
                 ++ lit " levels)") result
    else result in
  if existsb (fun pattern => test pattern expression) invalidPatterns
  then pushWarning (lit "Potentially invalid syntax detected") result
  else result.

(** *** Security *)

Definition forbiddenPatterns : list (regex * jsstring) :=
  [ (Seq (stri "eval") (Seq spaces (str "(")), lit "eval function");
    (Seq (stri "function") (Seq spaces (str "(")), lit "function declaration");
    (str "=>", lit "arrow function");
    (Seq (stri "while") (Seq spaces (str "(")), lit "while loop");
    (Seq (stri "for") (Seq spaces (str "(")), lit "for loop");
    (Seq (stri "do") (Seq spaces (str "{")), lit "do-while loop");
    (Seq (stri "if") (Seq spaces (str "(")), lit "conditional statement");
    (Seq (stri "new") (Rep 1 isWhiteSpace), lit "constructor call");
    (Seq (stri "import") (Rep 1 isWhiteSpace), lit "import statement");
    (Seq (stri "export") (Rep 1 isWhiteSpace), lit "export statement");
    (Seq (stri "require") (Seq spaces (str "(")), lit "require call");
    (stri "process.", lit "process object access");
    (stri "global.", lit "global object access");
    (stri "window.", lit "window object access");
    (stri "document.", lit "document object access");
    (stri "console.", lit "console object access");
    (Alt (stri "setTimeout") (stri "setInterval"), lit "timer function");
    (Alt (stri "XMLHttpRequest") (stri "fetch"), lit "network request") ].

(** [/\b[a-zA-Z_$][a-zA-Z0-9_$]*\s*\(/g] *)
Definition callPattern : regex :=
  Seq WordB (Seq (Cls isIdentStart) (Seq (Rep 0 isIdentPart)
    (Seq spaces (str "(")))).

(** [call.replace(/\s*\($/, "")] *)
Definition stripCall (call : jsstring) : jsstring :=
  replaceFirst (Seq spaces (Seq (str "(") Eol)) (fun _ => []) call.

Definition forbiddenMessage (name : jsstring) : jsstring :=
  lit "Forbidden pattern detected: " ++ name.

Definition unknownFunctionMessage (functionName : jsstring) : jsstring :=
  lit "Unknown or forbidden function: " ++ functionName.

Definition validateSecurity (expression : jsstring) (result : ValidationResult)
  : ValidationResult :=
  let result :=
    fold_left
      (fun result (pn : regex * jsstring) =>
         if test (fst pn) expression
         then reject (forbiddenMessage (snd pn)) result
         else result)
      forbiddenPatterns result in
  let functionCalls := matchAll callPattern expression in
  fold_left
    (fun result call =>
       let functionName := stripCall call in
       if negb (inSafeMathFunctions functionName)
       then reject (unknownFunctionMessage functionName) result
       else result)
    functionCalls result.

(** *** Complexity *)

(** [Math.round] on a rational: ties go towards plus infinity.  The score
    is a whole number plus a tenth of the length, computed here exactly.
    The source computes it in doubles.  The double nearest to one tenth
    lies above it and every half-integer in range is a double, so a score
    that is exactly a half-integer is never computed below it; any other
    score is at least a tenth away from the nearest half-integer, far more
    than the rounding error.  Both computations round to the same
    integer. *)
Definition Math_round (x : Q) : Z := Qfloor (x + (1 # 2))%Q.

Definition matchCount (r : regex) (s : jsstring) : Q :=
  inject_Z (Z.of_nat (length (matchAll r s))).

Definition words (l : list string) : regex := alts (map str l).

Definition operatorPattern : regex := Cls (oneOf "+-*/^%").
Definition parenPattern : regex := str "(".
Definition commonFunctionPattern : regex :=
  Seq WordB (Seq (Group (words ["sin"; "cos"; "tan"; "exp"; "log"; "pow"]%string)) WordB).
Definition expensiveFunctionPattern : regex :=
  Seq WordB (Seq (Group (words ["gamma"; "hypot"]%string)) WordB).

Definition complexityScore (expression : jsstring) : Q :=
  let complexity := 0%Q in
  let complexity :=
    (complexity + inject_Z (Z.of_nat (length expression)) * (1 # 10))%Q in
  let complexity :=
    (complexity + matchCount operatorPattern expression * 1)%Q in
  let complexity :=
    (complexity + matchCount parenPattern expression * 2)%Q in
  let complexity :=
    (complexity + matchCount commonFunctionPattern expression * 3)%Q in
  let complexity :=
    (complexity + matchCount expensiveFunctionPattern expression * 5)%Q in
  complexity.

Definition highComplexityWarning : jsstring :=
  lit "High complexity expression may impact performance".
Definition extremeComplexityWarning : jsstring :=
  lit "Extremely complex expression may cause significant performance issues".

Definition analyzeComplexity (expression : jsstring) (result : ValidationResult)
  : ValidationResult :=
  let result := setComplexity (Math_round (complexityScore expression)) result in
  let result :=
    if (complexity result >? 100)%Z
    then pushWarning highComplexityWarning result else result in
  if (complexity result >? 500)%Z
  then pushWarning extremeComplexityWarning result else result.

(** *** Dependencies *)

(** [/\b[a-zA-Z_$][a-zA-Z0-9_$]*\b/g] *)
Definition identifierPattern : regex :=
  Seq WordB (Seq (Cls isIdentStart) (Seq (Rep 0 isIdentPart) WordB)).

Definition extractDependencies (expression : jsstring) (result : ValidationResult)
  : ValidationResult :=
  let functionMatches := matchAll callPattern expression in
  let result :=
    match functionMatches with
    | [] => result
    | _ => setFunctionsUsed (dedupe (map stripCall functionMatches)) result
    end in
  let variableMatches := matchAll identifierPattern expression in
  match variableMatches with
  | [] => result
  | _ =>
      let variables :=
        filter (fun m => negb (inSafeMathFunctions m)
                         && negb (inb m (functionsUsed result)))
               variableMatches in
      setVariablesUsed (dedupe variables) result
  end.

(** *** The uncached validator *)

Definition freshResult : ValidationResult :=
  {| isValid := true; errors := []; warnings := []; complexity := 0%Z;
     functionsUsed := []; variablesUsed := [] |}.

(** [!expression || !expression.trim()] *)
Definition isBlank (expression : jsstring) : bool :=
  match expression with
  | [] => true
  | _ => match trim expression with [] => true | _ => false end
  end.

Definition emptyMessage : jsstring := lit "Expression cannot be empty".
Definition tooLongMessage : jsstring :=
  lit "Expression too long (max " ++ digitsOf MAX_EXPRESSION_LENGTH
  ++ lit " characters)".

Definition checkLength (expression : jsstring) (result : ValidationResult)
  : ValidationResult :=
  if MAX_EXPRESSION_LENGTH <? length expression
  then reject tooLongMessage result else result.

(** The checks that follow the emptiness test, in source order. *)
Definition runChecks (expression : jsstring) (result : ValidationResult)
  : ValidationResult :=
  extractDependencies expression
    (analyzeComplexity expression
       (validateSecurity expression
          (validateSyntax expression result))).

(** What [validateExpression] computes when the cache has no entry. *)
Definition computeValidation (expression : jsstring) : ValidationResult :=
  let result := freshResult in
  if isBlank expression then reject emptyMessage result
  else runChecks expression (checkLength expression result).

(** ** JavaScript values, completions and the host *)

Inductive number : Type :=
| Finite (q : Q)
| PosInfinity
| NegInfinity
| NaN.

Definition zero : number := Finite 0.

(** The quotient of two finite numbers: dividing by zero gives an infinity,
    or [NaN] for 0/0. *)
Definition divide (a b : Q) : number :=
  if Qeq_bool b 0 then
    if Qeq_bool a 0 then NaN
    else if Qle_bool 0 a then PosInfinity else NegInfinity
  else Finite (a / b).

(** [isFinite] on a number *)
Definition isFiniteNumber (x : number) : bool :=
  match x with Finite _ => true | _ => false end.

(** What a [throw] carries: an [Error] object with its [name] and
    [message], or any other value, kept as the text [String(v)] gives. *)
Inductive thrown : Type :=
| ErrorObject (name message : jsstring)
| ThrownValue (asString : jsstring).

(** [`${error}`], that is [Error.prototype.toString] for an error object *)
Definition thrownToString (e : thrown) : jsstring :=
  match e with
  | ErrorObject [] message => message
  | ErrorObject name [] => name
  | ErrorObject name message => name ++ lit ": " ++ message
  | ThrownValue s => s
  end.

(** [error instanceof Error ? error.message : String(error)] *)
Definition thrownMessage (e : thrown) : jsstring :=
  match e with
  | ErrorObject _ message => message
  | ThrownValue s => s
  end.

(** [new Error(message)] *)
Definition newError (message : jsstring) : thrown :=
  ErrorObject (lit "Error") message.

Inductive completion (A : Type) : Type :=
| Normal (a : A)
| Throw (e : thrown).
Arguments Normal {A} a.
Arguments Throw {A} e.

(** A value is a number, or something else, of which the generated code
    only ever observes what [ToNumber] makes of it. *)
Inductive jsvalue : Type :=
| VNumber (x : number)
| VOther (toNumber : completion number).

Definition ToNumber (v : jsvalue) : completion number :=
  match v with
  | VNumber x => Normal x
  | VOther c => c
  end.

(** [EvaluationContext]: the own properties of the context object. *)
Definition EvaluationContext := list (jsstring * number).

Fixpoint getProperty (key : jsstring) (o : EvaluationContext) : option number :=
  match o with
  | [] => None
  | (k, v) :: o' => if eqb key k then Some v else getProperty key o'
  end.

(** A plain object with number-valued properties, as a value. [ToNumber]
    goes through [valueOf], which returns the object, then [toString]: the
    inherited one yields a text that is not numeric; an own property of
    that name is not callable and the conversion throws. *)
Definition objectValue (o : EvaluationContext) : jsvalue :=
  match getProperty (lit "toString") o with
  | Some _ =>
      VOther (Throw (ErrorObject (lit "TypeError")
                       (lit "Cannot convert object to primitive value")))
  | None => VOther (Normal NaN)
  end.

(** The parts of the run-time system the evaluator calls into. Readings of
    the clocks and runs of generated code are indexed by the number of
    clock readings made so far, so that none of them is assumed to be
    repeatable. Generated code is taken not to reach the evaluator's
    private static fields. A host describes generated code that returns
    or throws and leaves the built-ins alone; generated code that
    replaces a clock function or never returns is the subject of
    [SharedRealm] below. *)
Record Host := {
  (** [performance.now()] *)
  performanceNow : nat -> Q;
  (** [Date.now()] *)
  dateNow : nat -> Z;
  (** [new Function("context", body)] for the body built around the given
      expression text: [Some e] when the constructor throws [e] *)
  parseBody : jsstring -> option thrown;
  (** calling the function built around the given expression text *)
  runBody : nat -> jsstring -> EvaluationContext -> completion jsvalue;
  (** reading a binding of the global environment; [None] when there is
      no such binding *)
  globalBinding : jsstring -> option (completion jsvalue)
}.

(** ** Insertion-ordered maps *)

Module JsMap.
Section WithValue.
Variable V : Type.

(** Entries in insertion order, as [Map.prototype.entries] lists them. *)
Definition t := list (jsstring * V).

Definition empty : t := [].

Fixpoint get (k : jsstring) (m : t) : option V :=
  match m with
  | [] => None
  | (k', v) :: m' => if eqb k k' then Some v else get k m'
  end.

Definition has (k : jsstring) (m : t) : bool :=
  match get k m with Some _ => true | None => false end.

(** An existing key keeps its position; a new key goes last. *)
Fixpoint set (k : jsstring) (v : V) (m : t) : t :=
  match m with
  | [] => [(k, v)]
  | (k', v') :: m' =>
      if eqb k k' then (k', v) :: m' else (k', v') :: set k v m'
  end.

Fixpoint delete (k : jsstring) (m : t) : t :=
  match m with
  | [] => []
  | (k', v') :: m' =>
      if eqb k k' then m' else (k', v') :: delete k m'
  end.

Definition size (m : t) : nat := length m.
Definition keys (m : t) : list jsstring := map fst m.
End WithValue.
Arguments empty {V}.
End JsMap.

(** ** The evaluator's state *)

(** A function made by [compileExpression]: its body is fixed by the
    rewritten expression text spliced into it. *)
Record CompiledFunction := { safeExpression : jsstring }.

(** A validation result object: its identity and its contents. *)
Record ResultObject := { objectId : nat; contents : ValidationResult }.

Record EvaluationStats := {
  totalEvaluations : Z;
  successfulEvaluations : Z;
  failedEvaluations : Z;
  averageEvaluationTime : Q;
  cacheHitRate : Q;
  lastEvaluationTime : Z
}.

Definition initialStats : EvaluationStats :=
  {| totalEvaluations := 0; successfulEvaluations := 0;
     failedEvaluations := 0; averageEvaluationTime := 0;
     cacheHitRate := 0; lastEvaluationTime := 0 |}.

Inductive ErrorType : Type :=
| EXPRESSION_EVALUATION_ERROR
| CANVAS_INITIALIZATION_ERROR
| WEBGL_NOT_SUPPORTED
| PERFORMANCE_DEGRADATION
| MEMORY_LIMIT_EXCEEDED.

Record AppError := {
  type : ErrorType;
  message : jsstring;
  timestamp : Z;
  recoverable : bool
}.

(** What the evaluator writes to the console. *)
Inductive LogEntry : Type :=
| EvaluatorWarning (type : ErrorType) (message : jsstring)
| ErrorRecord (error : AppError)
| SlowEvaluationWarning (executionTime : Q).

Record State := {
  expressionCache : JsMap.t CompiledFunction;
  validationCache : JsMap.t ResultObject;
  stats : EvaluationStats;
  console : list LogEntry;
  (** clock readings made so far *)
  ticks : nat;
  (** validation result objects created so far *)
  allocated : nat
}.

Definition initialState : State :=
  {| expressionCache := JsMap.empty; validationCache := JsMap.empty;
     stats := initialStats; console := []; ticks := 0; allocated := 0 |}.

Definition withExpressionCache (c : JsMap.t CompiledFunction) (s : State) : State :=
  {| expressionCache := c; validationCache := validationCache s;
     stats := stats s; console := console s; ticks := ticks s;
     allocated := allocated s |}.

Definition withValidationCache (c : JsMap.t ResultObject) (s : State) : State :=
  {| expressionCache := expressionCache s; validationCache := c;
     stats := stats s; console := console s; ticks := ticks s;
     allocated := allocated s |}.

Definition withStats (st : EvaluationStats) (s : State) : State :=
  {| expressionCache := expressionCache s;
     validationCache := validationCache s;
     stats := st; console := console s; ticks := ticks s;
     allocated := allocated s |}.

Definition withConsole (l : list LogEntry) (s : State) : State :=
  {| expressionCache := expressionCache s;
     validationCache := validationCache s;
     stats := stats s; console := l; ticks := ticks s;
     allocated := allocated s |}.

Definition withTicks (n : nat) (s : State) : State :=
  {| expressionCache := expressionCache s;
     validationCache := validationCache s;
     stats := stats s; console := console s; ticks := n;
     allocated := allocated s |}.

Definition withAllocated (n : nat) (s : State) : State :=
  {| expressionCache := expressionCache s;
     validationCache := validationCache s;
     stats := stats s; console := console s; ticks := ticks s;
     allocated := n |}.

(** ** State and exceptions *)

Definition M (A : Type) : Type := State -> completion A * State.

Definition ret {A} (a : A) : M A := fun s => (Normal a, s).

Definition bind {A B} (c : M A) (k : A -> M B) : M B :=
  fun s =>
    match c s with
    | (Normal a, s') => k a s'
    | (Throw e, s') => (Throw e, s')
    end.

Definition throw {A} (e : thrown) : M A := fun s => (Throw e, s).

(** [try { body } catch (error) { handler }] *)
Definition tryCatch {A} (body : M A) (handler : thrown -> M A) : M A :=
  fun s =>
    match body s with
    | (Normal a, s') => (Normal a, s')
    | (Throw e, s') => handler e s'
    end.

Definition gets {A} (f : State -> A) : M A := fun s => (Normal (f s), s).
Definition modify (f : State -> State) : M unit := fun s => (Normal tt, f s).

(** An effect-free completion inside a computation. *)
Definition lift {A} (c : completion A) : M A := fun s => (c, s).

Declare Scope monad_scope.
Delimit Scope monad_scope with monad.
Notation "x <- c ;; k" := (bind c (fun x => k))
  (at level 61, c at next level, right associativity) : monad_scope.
Notation "c ;; k" := (bind c (fun _ => k))
  (at level 61, right associativity) : monad_scope.
Open Scope monad_scope.

(** ** Compilation: the textual rewrite *)

(** [/\b(n1|n2|...)\s*\(/g] and its replacement ["Math.$1("] *)
Definition mathCallPattern (names : list string) : regex :=
  Seq WordB (Seq (Group (words names)) (Seq spaces (str "("))).

Definition toMathCall (m : rmatch) : jsstring :=
  lit "Math." ++ nth 0 (groups m) [] ++ lit "(".

(** [/\b(n1|n2|...)\b/g] and a replacement without [$] patterns *)
Definition wordPattern (names : list string) : regex :=
  Seq WordB (Seq (Group (words names)) WordB).

Definition toText (text : string) (_ : rmatch) : jsstring := lit text.

Definition rewriteExpression (expression : jsstring) : jsstring :=
  let e := expression in
  let e := replaceAll
             (mathCallPattern
                ["sin"; "cos"; "tan"; "asin"; "acos"; "atan"; "atan2"; "sinh";
                 "cosh"; "tanh"; "asinh"; "acosh"; "atanh"]%string)
             toMathCall e in
  let e := replaceAll
             (mathCallPattern
                ["exp"; "exp2"; "expm1"; "log"; "log10"; "log2"; "log1p"]%string)
             toMathCall e in
  let e := replaceAll
             (mathCallPattern ["pow"; "sqrt"; "cbrt"; "hypot"]%string)
             toMathCall e in
  let e := replaceAll
             (mathCallPattern
                ["abs"; "sign"; "floor"; "ceil"; "round"; "trunc"; "fround"]%string)
             toMathCall e in
  let e := replaceAll (mathCallPattern ["min"; "max"]%string) toMathCall e in
  let e := replaceAll (wordPattern ["PI"; "pi"]%string) (toText "Math.PI") e in
  let e := replaceAll (wordPattern ["E"; "e"]%string) (toText "Math.E") e in
  let e := replaceAll (wordPattern ["TAU"]%string) (toText "(Math.PI * 2)") e in
  let e := replaceAll (wordPattern ["PHI"]%string)
             (toText "((1 + Math.sqrt(5)) / 2)") e in
  let e := replaceAll (wordPattern ["DEG2RAD"]%string)
             (toText "(Math.PI / 180)") e in
  let e := replaceAll (wordPattern ["RAD2DEG"]%string)
             (toText "(180 / Math.PI)") e in
  e.

(** ** The generated function

    Its body is
<<
      "use strict";
      const { t = 0, time = 0, ...vars } = context || {};
      try {
        const result = ${safeExpression};
        return isFinite(result) ? result : 0;
      } catch (error) {
        return 0;
      }
>>
    What it does is the host's business ([runBody]), except when the
    spliced text is a single identifier reference: then the initializer of
    [result] is an identifier lookup in the scopes the body sets up. *)

(** Words that strict function code does not read as an identifier
    reference. *)
Definition reservedWords : list jsstring :=
  map lit
    [ "await"; "break"; "case"; "catch"; "class"; "const"; "continue";
      "debugger"; "default"; "delete"; "do"; "else"; "enum"; "export";
      "extends"; "false"; "finally"; "for"; "function"; "if"; "import";
      "in"; "instanceof"; "new"; "null"; "return"; "super"; "switch";
      "this"; "throw"; "true"; "try"; "typeof"; "var"; "void"; "while";
      "with"; "yield"; "let"; "static"; "implements"; "interface";
      "package"; "private"; "protected"; "public" ]%string.

Definition isIdentifierName (s : jsstring) : bool :=
  match s with
  | c :: s' => isIdentStart c && forallb isIdentPart s'
  | [] => false
  end.

(** The identifier an expression text consists of, white space aside. *)
Definition identifierReference (source : jsstring) : option jsstring :=
  let x := trim source in
  if isIdentifierName x && negb (inb x reservedWords) then Some x else None.

(** The properties the rest element [...vars] collects. *)
Definition restProperties (context : EvaluationContext) : EvaluationContext :=
  filter (fun kv => negb (eqb (fst kv) (lit "t"))
                    && negb (eqb (fst kv) (lit "time"))) context.

(** [= 0] in the destructuring pattern *)
Definition orZero (o : option number) : number :=
  match o with Some x => x | None => zero end.

Section Evaluator.
Variable host : Host.

Definition referenceError (x : jsstring) : thrown :=
  ErrorObject (lit "ReferenceError") (x ++ lit " is not defined").

(** Identifier lookup at the initializer of [result]: the block scope
    ([result] itself, not yet initialized), the function's bindings
    ([t], [time], [vars], [context], [arguments]), then the global
    environment. The entries of [vars] are properties, not bindings. *)
Definition resolveIdentifier (context : EvaluationContext) (x : jsstring)
  : completion jsvalue :=
  if eqb x (lit "result") then
    Throw (ErrorObject (lit "ReferenceError")
             (lit "Cannot access 'result' before initialization"))
  else if eqb x (lit "t") then
    Normal (VNumber (orZero (getProperty (lit "t") context)))
  else if eqb x (lit "time") then
    Normal (VNumber (orZero (getProperty (lit "time") context)))
  else if eqb x (lit "vars") then
    Normal (objectValue (restProperties context))
  else if eqb x (lit "context") then
    Normal (objectValue context)
  else if eqb x (lit "arguments") then
    Normal (VOther (Normal NaN))
  else
    match globalBinding host x with
    | Some c => c
    | None => Throw (referenceError x)
    end.

(** [func(context)] for a compiled function *)
Definition callCompiled (tick : nat) (func : CompiledFunction)
    (context : EvaluationContext) : completion jsvalue :=
  match identifierReference (safeExpression func) with
  | Some x =>
      match resolveIdentifier context x with
      | Normal result =>
          match ToNumber result with
          | Normal n =>
              Normal (if isFiniteNumber n then result else VNumber zero)
          | Throw _ => Normal (VNumber zero)
          end
      | Throw _ => Normal (VNumber zero)
      end
  | None => runBody host tick (safeExpression func) context
  end.

(** [new Function("context", body)] *)
Definition newFunction (source : jsstring) : completion CompiledFunction :=
  match identifierReference source with
  | Some _ => Normal {| safeExpression := source |}
  | None =>
      match parseBody host source with
      | Some e => Throw e
      | None => Normal {| safeExpression := source |}
      end
  end.

(** *** Clocks and console *)

Definition performance_now : M Q :=
  fun s => (Normal (performanceNow host (ticks s)), withTicks (S (ticks s)) s).

Definition Date_now : M Z :=
  fun s => (Normal (dateNow host (ticks s)), withTicks (S (ticks s)) s).

Definition log (entry : LogEntry) : M unit :=
  modify (fun s => withConsole (console s ++ [entry]) s).

Definition modifyStats (f : EvaluationStats -> EvaluationStats) : M unit :=
  modify (fun s => withStats (f (stats s)) s).

(** *** validateExpression *)

Definition validateExpression (expression : jsstring) : M ResultObject :=
  cache <- gets validationCache ;;
  match JsMap.get expression cache with
  | Some cached => ret cached
  | None =>
      id <- gets allocated ;;
      modify (fun s => withAllocated (S id) s) ;;
      let result := freshResult in
      if isBlank expression then
        ret {| objectId := id; contents := reject emptyMessage result |}
      else
        let result := checkLength expression result in
        let result := runChecks expression result in
        cache <- gets validationCache ;;
        (if MAX_CACHE_SIZE <=? JsMap.size cache
         then modify (withValidationCache JsMap.empty)
         else ret tt) ;;
        let object := {| objectId := id; contents := result |} in
        modify (fun s =>
                  withValidationCache
                    (JsMap.set expression object (validationCache s)) s) ;;
        ret object
  end.

(** *** compileExpression *)

Definition compileExpression (expression : jsstring) : M CompiledFunction :=
  let safeExpression := rewriteExpression expression in
  tryCatch
    (lift (newFunction safeExpression))
    (fun error =>
       throw (newError (lit "Failed to compile expression: "
                        ++ thrownMessage error))).

(** *** executeFunction *)

(** [typeof result === "number" && isFinite(result) ? result : 0] *)
Definition finiteOrZero (result : jsvalue) : number :=
  match result with
  | VNumber x => if isFiniteNumber x then x else zero
  | VOther _ => zero
  end.

Definition executeFunction (func : CompiledFunction)
    (context : EvaluationContext) : M number :=
  startTime <- performance_now ;;
  tryCatch
    (result <- (fun s => (callCompiled (ticks s) func context, s)) ;;
     now <- performance_now ;;
     let executionTime := (now - startTime)%Q in
     (if Qlt_le_dec EVALUATION_TIMEOUT executionTime
      then log (SlowEvaluationWarning executionTime)
      else ret tt) ;;
     ret (finiteOrZero result))
    (fun error =>
       throw (newError (lit "Function execution failed: "
                        ++ thrownToString error))).

(** *** Cache management *)

Definition createCacheKey (expression : jsstring) : jsstring :=
  trim expression.

(** [Math.floor(this.MAX_CACHE_SIZE * 0.3)] *)
Definition entriesToDelete : nat :=
  Z.to_nat (Qfloor (inject_Z (Z.of_nat MAX_CACHE_SIZE) * (3 # 10))%Q).

Definition typeError (message : string) : thrown :=
  ErrorObject (lit "TypeError") (lit message).

(** The loop of [clearOldestCacheEntries] from index [i], with [n]
    iterations to go; reading [entries[i][0]] past the end throws. *)
Fixpoint deleteEntries (entries : list (jsstring * CompiledFunction))
    (i n : nat) : M unit :=
  match n with
  | 0 => ret tt
  | S n' =>
      match nth_error entries i with
      | Some (key, _) =>
          modify (fun s =>
                    withExpressionCache
                      (JsMap.delete key (expressionCache s)) s) ;;
          deleteEntries entries (S i) n'
      | None =>
          throw (typeError "Cannot read properties of undefined (reading '0')")
      end
  end.

Definition clearOldestCacheEntries : M unit :=
  entries <- gets expressionCache ;;
  deleteEntries entries 0 entriesToDelete.

(** *** Statistics *)

Definition updateStats (startTime : Q) (fromCache : bool) : M unit :=
  now <- performance_now ;;
  let evaluationTime := (now - startTime)%Q in
  let alpha := (1 # 10)%Q in
  modifyStats (fun st =>
    let average :=
      (averageEvaluationTime st * (1 - alpha) + evaluationTime * alpha)%Q in
    let total := inject_Z (totalEvaluations st) in
    let cacheHits := (total * (cacheHitRate st / 100))%Q in
    let rate :=
      if fromCache then ((cacheHits + 1) / total * 100)%Q
      else (cacheHits / total * 100)%Q in
    {| totalEvaluations := totalEvaluations st;
       successfulEvaluations := successfulEvaluations st;
       failedEvaluations := failedEvaluations st;
       averageEvaluationTime := average;
       cacheHitRate := rate;
       lastEvaluationTime := lastEvaluationTime st |}) ;;
  today <- Date_now ;;
  modifyStats (fun st =>
    {| totalEvaluations := totalEvaluations st;
       successfulEvaluations := successfulEvaluations st;
       failedEvaluations := failedEvaluations st;
       averageEvaluationTime := averageEvaluationTime st;
       cacheHitRate := cacheHitRate st;
       lastEvaluationTime := today |}).

Definition incrTotal (st : EvaluationStats) : EvaluationStats :=
  {| totalEvaluations := totalEvaluations st + 1;
     successfulEvaluations := successfulEvaluations st;
     failedEvaluations := failedEvaluations st;
     averageEvaluationTime := averageEvaluationTime st;
     cacheHitRate := cacheHitRate st;
     lastEvaluationTime := lastEvaluationTime st |}.

Definition incrSuccessful (st : EvaluationStats) : EvaluationStats :=
  {| totalEvaluations := totalEvaluations st;
     successfulEvaluations := successfulEvaluations st + 1;
     failedEvaluations := failedEvaluations st;
     averageEvaluationTime := averageEvaluationTime st;
     cacheHitRate := cacheHitRate st;
     lastEvaluationTime := lastEvaluationTime st |}.

Definition incrFailed (st : EvaluationStats) : EvaluationStats :=
  {| totalEvaluations := totalEvaluations st;
     successfulEvaluations := successfulEvaluations st;
     failedEvaluations := failedEvaluations st + 1;
     averageEvaluationTime := averageEvaluationTime st;
     cacheHitRate := cacheHitRate st;
     lastEvaluationTime := lastEvaluationTime st |}.

(** *** handleEvaluationError *)

Definition handleEvaluationError (type : ErrorType) (message : jsstring)
  : M unit :=
  timestamp <- Date_now ;;
  let error := {| type := type; message := message;
                  timestamp := timestamp; recoverable := true |} in
  log (EvaluatorWarning type message) ;;
  log (ErrorRecord error).

(** *** evaluate *)

(** The [try] block of [evaluate]. *)
Definition evaluateTry (startTime : Q) (expression : jsstring)
    (context : EvaluationContext) : M number :=
  validation <- validateExpression expression ;;
  if negb (isValid (contents validation)) then
    handleEvaluationError EXPRESSION_EVALUATION_ERROR
      (lit "Invalid expression: "
       ++ join (lit ", ") (errors (contents validation))) ;;
    ret zero
  else
    let cacheKey := createCacheKey expression in
    cache <- gets expressionCache ;;
    match JsMap.get cacheKey cache with
    | Some cached =>
        updateStats startTime true ;;
        executeFunction cached context
    | None =>
        compiledFunction <- compileExpression expression ;;
        cache <- gets expressionCache ;;
        (if MAX_CACHE_SIZE <=? JsMap.size cache
         then clearOldestCacheEntries else ret tt) ;;
        modify (fun s =>
                  withExpressionCache
                    (JsMap.set cacheKey compiledFunction
                       (expressionCache s)) s) ;;
        result <- executeFunction compiledFunction context ;;
        updateStats startTime false ;;
        modifyStats incrSuccessful ;;
        ret result
    end.

(** The [catch] block of [evaluate]. *)
Definition evaluateCatch (error : thrown) : M number :=
  handleEvaluationError EXPRESSION_EVALUATION_ERROR
    (lit "Evaluation failed: " ++ thrownToString error) ;;
  modifyStats incrFailed ;;
  ret zero.

Definition evaluate (expression : jsstring) (context : EvaluationContext)
  : M number :=
  startTime <- performance_now ;;
  modifyStats incrTotal ;;
  tryCatch (evaluateTry startTime expression context) evaluateCatch.

(** *** clearCache, resetStats, getCacheStats, getEvaluationStats *)

Definition clearCache : M unit :=
  modify (withExpressionCache JsMap.empty) ;;
  modify (withValidationCache JsMap.empty).

Definition resetStats : M unit :=
  modify (withStats initialStats).

Record CacheStats := {
  expressionCacheSize : nat;
  validationCacheSize : nat;
  maxCacheSize : nat;
  totalCacheMemoryEstimate : jsstring
}.

(** The estimate is [totalEntries * 1024 / 1024], a whole number, printed
    with two decimals. *)
Definition getCacheStats : M CacheStats :=
  s <- gets (fun s => s) ;;
  let estimatedMemoryPerEntry := 1024 in
  let totalEntries :=
    JsMap.size (expressionCache s) + JsMap.size (validationCache s) in
  let totalMemory := totalEntries * estimatedMemoryPerEntry in
  ret {| expressionCacheSize := JsMap.size (expressionCache s);
         validationCacheSize := JsMap.size (validationCache s);
         maxCacheSize := MAX_CACHE_SIZE;
         totalCacheMemoryEstimate :=
           digitsOf (totalMemory / 1024) ++ lit ".00 KB" |}.

Record StatsReport := {
  reported : EvaluationStats;
  successRate : Q;
  failureRate : Q;
  evaluationsPerSecond : number
}.

Definition getEvaluationStats : M StatsReport :=
  st <- gets stats ;;
  let successRate :=
    if (totalEvaluations st >? 0)%Z
    then (inject_Z (successfulEvaluations st)
          / inject_Z (totalEvaluations st) * 100)%Q
    else 0%Q in
  let failureRate := (100 - successRate)%Q in
  now <- Date_now ;;
  let timeSinceLastEvaluation := (now - lastEvaluationTime st)%Z in
  evaluationsPerSecond <-
    (if (timeSinceLastEvaluation <? 10000)%Z
     then
       now <- Date_now ;;
       ret (divide (inject_Z (totalEvaluations st))
              (inject_Z (now - lastEvaluationTime st) / 1000)%Q)
     else ret zero) ;;
  ret {| reported := st; successRate := successRate;
         failureRate := failureRate;
         evaluationsPerSecond := evaluationsPerSecond |}.

End Evaluator.

(** ** Reachable states *)

(** What the rest of the program can do to the evaluator: call its public
    methods, and read the clocks it shares with it. *)
Inductive Call : Type :=
| CallValidateExpression (expression : jsstring)
| CallEvaluate (expression : jsstring) (context : EvaluationContext)
| CallClearCache
| CallResetStats
| CallGetCacheStats
| CallGetEvaluationStats
| ClockReading.

Definition perform (host : Host) (c : Call) (s : State) : State :=
  match c with
  | CallValidateExpression e => snd (validateExpression e s)
  | CallEvaluate e ctx => snd (evaluate host e ctx s)
  | CallClearCache => snd (clearCache s)
  | CallResetStats => snd (resetStats s)
  | CallGetCacheStats => snd (getCacheStats s)
  | CallGetEvaluationStats => snd (getEvaluationStats host s)
  | ClockReading => snd (performance_now host s)
  end.

Inductive reachable (host : Host) : State -> Prop :=
| reachable_initial : reachable host initialState
| reachable_step s c : reachable host s -> reachable host (perform host c s).

(** A run of calls from a state. *)
Definition performAll (host : Host) (calls : list Call) (s : State) : State :=
  fold_left (fun s c => perform host c s) calls s.

(** * Notions used in the statements *)

(** ** What a pattern matches *)

(** The character before the position reached after reading [w]. *)
Definition lastOr (prev : option char) (w : jsstring) : option char :=
  match w with
  | [] => prev
  | _ :: _ => Some (last w 0%N)
  end.

(** [Lang r prev w next]: the pattern [r] matches the text [w] when [w]
    comes after the character [prev] (none at the start of the input) and
    is followed by [next], the rest of the input. *)
Inductive Lang : regex -> option char -> jsstring -> jsstring -> Prop :=
| LangEps prev next : Lang Eps prev [] next
| LangCls p prev c next : p c = true -> Lang (Cls p) prev [c] next
| LangSeq r1 r2 prev w1 w2 next :
    Lang r1 prev w1 (w2 ++ next) ->
    Lang r2 (lastOr prev w1) w2 next ->
    Lang (Seq r1 r2) prev (w1 ++ w2) next
| LangAltLeft r1 r2 prev w next :
    Lang r1 prev w next -> Lang (Alt r1 r2) prev w next
| LangAltRight r1 r2 prev w next :
    Lang r2 prev w next -> Lang (Alt r1 r2) prev w next
| LangRep min p prev w next :
    min <= length w -> forallb p w = true -> Lang (Rep min p) prev w next
| LangWordB prev next :
    xorb (isWordOpt prev) (isWordOpt (hd_error next)) = true ->
    Lang WordB prev [] next
| LangBol next : Lang Bol None [] next
| LangEol prev : Lang Eol prev [] []
| LangGroup r prev w next : Lang r prev w next -> Lang (Group r) prev w next.

(** Some part of the text is matched by the pattern. *)
Definition occursIn (r : regex) (e : jsstring) : Prop :=
  exists before part after,
    e = before ++ part ++ after /\ Lang r (lastOr None before) part after.


(** Every match of the pattern begins with a character in [P]. *)
Inductive beginsWith (P : char -> Prop) : regex -> Prop :=
| beginsCls p : (forall c, p c = true -> P c) -> beginsWith P (Cls p)
| beginsSeq r1 r2 : beginsWith P r1 -> beginsWith P (Seq r1 r2)
| beginsAlt r1 r2 :
    beginsWith P r1 -> beginsWith P r2 -> beginsWith P (Alt r1 r2)
| beginsGroup r : beginsWith P r -> beginsWith P (Group r).


(** ** Counting in a text *)

(** The number of characters of a text that are in a class. *)
Definition countChars (p : char -> bool) (s : jsstring) : nat :=
  length (filter p s).

Definition isOperatorSymbol (c : char) : bool := oneOf "+-*/^%" c.
Definition isOpenParen (c : char) : bool := isChar "(" c.

Fixpoint startsWith (w s : jsstring) : bool :=
  match w, s with
  | [], _ => true
  | a :: w', c :: s' => N.eqb c a && startsWith w' s'
  | _ :: _, [] => false
  end.

(** [w] stands at the head of [s] as a whole word: no word character
    right before it nor right after it. *)
Definition wholeWordHere (prev : option char) (s : jsstring) (w : jsstring)
  : bool :=
  negb (isWordOpt prev) && startsWith w s
  && negb (isWordOpt (hd_error (skipn (length w) s))).

(** The positions of [s] at which one of the words [ws] stands as a whole
    word, counted; [prev] is the character before [s]. *)
Fixpoint wholeWordsFrom (ws : list jsstring) (prev : option char)
    (s : jsstring) : nat :=
  (if existsb (wholeWordHere prev s) ws then 1 else 0)
  + match s with
    | [] => 0
    | c :: s' => wholeWordsFrom ws (Some c) s'
    end.

(** The number of whole-word occurrences of the given names in a text. *)
Definition wholeWordOccurrences (names : list string) (s : jsstring) : nat :=
  wholeWordsFrom (map lit names) None s.

(** [/\b(w1|w2|...)\b/] over the given words. *)
Definition wordsPattern (ws : list jsstring) : regex :=
  Seq WordB
    (Seq (Group (alts (map (seqOf (fun a c => N.eqb c a)) ws))) WordB).

(** A word: not empty, made of word characters. *)
Definition isWord (w : jsstring) : Prop :=
  w <> [] /\ forallb isWordChar w = true.

(** The first [k] characters of [s] exist and are word characters. *)
Definition wordPrefix (k : nat) (s : jsstring) : Prop :=
  k <= length s /\ forallb isWordChar (firstn k s) = true.

(** The first alternative that succeeds. *)
Fixpoint firstSome {A B} (f : A -> option B) (l : list A) : option B :=
  match l with
  | [] => None
  | a :: l' => match f a with Some b => Some b | None => firstSome f l' end
  end.

(** ** The complexity score in the words of the specification *)

Definition commonFunctions : list string :=
  ["sin"; "cos"; "tan"; "exp"; "log"; "pow"]%string.
Definition expensiveFunctions : list string := ["gamma"; "hypot"]%string.

Definition ofNat (n : nat) : Q := inject_Z (Z.of_nat n).

Definition specifiedComplexity (e : jsstring) : Z :=
  Math_round
    ((1 # 10) * ofNat (length e)
     + 1 * ofNat (countChars isOperatorSymbol e)
     + 2 * ofNat (countChars isOpenParen e)
     + 3 * ofNat (wholeWordOccurrences commonFunctions e)
     + 5 * ofNat (wholeWordOccurrences expensiveFunctions e))%Q.

(** The warnings a score brings. *)
Definition complexityWarnings (score : Z) : list jsstring :=
  (if (score >? 100)%Z then [highComplexityWarning] else [])
  ++ (if (score >? 500)%Z then [extremeComplexityWarning] else []).

(** ** Validation results *)

(** A text is empty or consists of white space only. *)
Definition whiteSpaceOnly (e : jsstring) : bool := forallb isWhiteSpace e.

(** The result for an empty or white-space-only text. *)
Definition emptyExpressionResult : ValidationResult :=
  {| isValid := false; errors := [lit "Expression cannot be empty"];
     warnings := []; complexity := 0; functionsUsed := [];
     variablesUsed := [] |}.

(** A check only ever adds to the errors and warnings, and never turns an
    invalid result valid. *)
Definition grows (r r' : ValidationResult) : Prop :=
  (exists more, errors r' = errors r ++ more) /\
  (exists more, warnings r' = warnings r ++ more) /\
  (isValid r = false -> isValid r' = false).

(** The result [validateExpression] hands out in a given state: the cached
    object's contents when there is one, a new computation otherwise. *)
Definition validatedAs (expression : jsstring) (s : State) : ValidationResult :=
  match JsMap.get expression (validationCache s) with
  | Some cached => contents cached
  | None => computeValidation expression
  end.

(** The object [validateExpression] creates for a text that has no entry,
    and the cache it leaves. *)
Definition newResultObject (expression : jsstring) (s : State) : ResultObject :=
  {| objectId := allocated s;
     contents := runChecks expression (checkLength expression freshResult) |}.

Definition validationCacheAfterInsert (expression : jsstring) (s : State)
  : JsMap.t ResultObject :=
  JsMap.set expression (newResultObject expression s)
    (if MAX_CACHE_SIZE <=? JsMap.size (validationCache s)
     then JsMap.empty else validationCache s).

(** ** The paths of evaluate *)

(** The state in which the [try] block of [evaluate] starts. *)
Definition afterPrologue (s : State) : State :=
  withStats (incrTotal (stats s)) (withTicks (S (ticks s)) s).

(** Two of the ways in which [evaluate] fails: the validator rejects the
    text, or the text does not compile. *)
Definition rejectedByValidation (expression : jsstring) (s : State) : Prop :=
  isValid (validatedAs expression s) = false.

Definition failsToCompile (host : Host) (expression : jsstring) (s : State)
  : Prop :=
  isValid (validatedAs expression s) = true /\
  JsMap.get (createCacheKey expression) (expressionCache s) = None /\
  exists error, newFunction host (rewriteExpression expression) = Throw error.

(** The error record [handleEvaluationError] builds and the two lines it
    writes. *)
Definition errorLines (host : Host) (type : ErrorType) (message : jsstring)
    (s : State) : list LogEntry :=
  [ EvaluatorWarning type message;
    ErrorRecord {| type := type; message := message;
                   timestamp := dateNow host (ticks s);
                   recoverable := true |} ].

(** One recoverable error record, with the warning line that precedes it,
    was added to the console. *)
Definition loggedRecoverableError (s s' : State) : Prop :=
  exists message timestamp,
    console s' =
    console s ++
      [ EvaluatorWarning EXPRESSION_EVALUATION_ERROR message;
        ErrorRecord {| type := EXPRESSION_EVALUATION_ERROR;
                       message := message;
                       timestamp := timestamp;
                       recoverable := true |} ].

(** The console after a successful run: unchanged, or one warning about a
    slow evaluation longer. *)
Definition atMostSlowWarning (s s' : State) : Prop :=
  console s' = console s \/
  exists executionTime,
    console s' = console s ++ [SlowEvaluationWarning executionTime].

(** Two states agree on everything but the console and the clock. *)
Definition sameButConsoleAndClock (s s' : State) : Prop :=
  expressionCache s' = expressionCache s /\
  validationCache s' = validationCache s /\
  stats s' = stats s /\
  allocated s' = allocated s.

(** Two statistics records agree on the three counters. *)
Definition sameCounters (st st' : EvaluationStats) : Prop :=
  totalEvaluations st' = totalEvaluations st /\
  successfulEvaluations st' = successfulEvaluations st /\
  failedEvaluations st' = failedEvaluations st.

(** The insertion step of [evaluate]: make room if the cache is full, then
    store. *)
Definition cacheAfterInsert (key : jsstring) (fn : CompiledFunction)
    (cache : JsMap.t CompiledFunction) : JsMap.t CompiledFunction :=
  JsMap.set key fn
    (if MAX_CACHE_SIZE <=? JsMap.size cache
     then skipn entriesToDelete cache else cache).

(** The state [validateExpression] leaves decides the validation cache and
    the allocation counter after [evaluate]. *)
Definition validationPartAsAfter (expression : jsstring) (s s' : State) : Prop :=
  validationCache s' = validationCache (snd (validateExpression expression s))
  /\ allocated s' = allocated (snd (validateExpression expression s)).

(** The six ways through [evaluate], each with what it returns and what it
    leaves behind. *)
Inductive Outcome (host : Host) (e : jsstring) (ctx : EvaluationContext)
    (s : State) : completion number -> State -> Prop :=
| Rejected s' :
    rejectedByValidation e s ->
    loggedRecoverableError s s' ->
    stats s' = incrTotal (stats s) ->
    expressionCache s' = expressionCache s ->
    Outcome host e ctx s (Normal zero) s'
| CompileFailed s' error :
    isValid (validatedAs e s) = true ->
    JsMap.get (createCacheKey e) (expressionCache s) = None ->
    newFunction host (rewriteExpression e) = Throw error ->
    loggedRecoverableError s s' ->
    stats s' = incrFailed (incrTotal (stats s)) ->
    expressionCache s' = expressionCache s ->
    Outcome host e ctx s (Normal zero) s'
| HitFault s' cached error :
    isValid (validatedAs e s) = true ->
    JsMap.get (createCacheKey e) (expressionCache s) = Some cached ->
    callCompiled host (ticks s + 4) cached ctx = Throw error ->
    loggedRecoverableError s s' ->
    sameCounters (incrFailed (incrTotal (stats s))) (stats s') ->
    expressionCache s' = expressionCache s ->
    Outcome host e ctx s (Normal zero) s'
| MissFault s' fn error :
    isValid (validatedAs e s) = true ->
    JsMap.get (createCacheKey e) (expressionCache s) = None ->
    newFunction host (rewriteExpression e) = Normal fn ->
    callCompiled host (ticks s + 2) fn ctx = Throw error ->
    loggedRecoverableError s s' ->
    sameCounters (incrFailed (incrTotal (stats s))) (stats s') ->
    expressionCache s' =
      cacheAfterInsert (createCacheKey e) fn (expressionCache s) ->
    Outcome host e ctx s (Normal zero) s'
| Hit s' cached result :
    isValid (validatedAs e s) = true ->
    JsMap.get (createCacheKey e) (expressionCache s) = Some cached ->
    callCompiled host (ticks s + 4) cached ctx = Normal result ->
    atMostSlowWarning s s' ->
    sameCounters (incrTotal (stats s)) (stats s') ->
    expressionCache s' = expressionCache s ->
    Outcome host e ctx s (Normal (finiteOrZero result)) s'
| Miss s' fn result :
    isValid (validatedAs e s) = true ->
    JsMap.get (createCacheKey e) (expressionCache s) = None ->
    newFunction host (rewriteExpression e) = Normal fn ->
    callCompiled host (ticks s + 2) fn ctx = Normal result ->
    atMostSlowWarning s s' ->
    sameCounters (incrSuccessful (incrTotal (stats s))) (stats s') ->
    expressionCache s' =
      cacheAfterInsert (createCacheKey e) fn (expressionCache s) ->
    Outcome host e ctx s (Normal (finiteOrZero result)) s'.

(** ** The invariant *)

(** What holds of the caches in every reachable state: both are within
    capacity, and the validation cache maps a text that is not blank to an
    object, created earlier, that holds the validation of that text. *)
Definition validationCacheOk (vc : JsMap.t ResultObject) (n : nat) : Prop :=
  (forall k o, In (k, o) vc ->
     contents o = computeValidation k /\ isBlank k = false /\ objectId o < n)
  /\ JsMap.size vc <= MAX_CACHE_SIZE.

Definition invariant (s : State) : Prop :=
  JsMap.size (expressionCache s) <= MAX_CACHE_SIZE /\
  validationCacheOk (validationCache s) (allocated s).

(** ** Sample inputs *)

(** A host with an empty global environment whose engine accepts every
    text and evaluates it to 7; its clocks count the readings. *)
Definition sampleHost : Host :=
  {| performanceNow := fun n => inject_Z (Z.of_nat n);
     dateNow := fun n => Z.of_nat n;
     parseBody := fun _ => None;
     runBody := fun _ _ _ => Normal (VNumber (Finite 7));
     globalBinding := fun _ => None |}.

(** A host whose engine refuses every text it is asked to parse. *)
Definition refusingHost : Host :=
  {| performanceNow := fun n => inject_Z (Z.of_nat n);
     dateNow := fun n => Z.of_nat n;
     parseBody := fun _ =>
       Some (ErrorObject (lit "SyntaxError") (lit "Unexpected token"));
     runBody := fun _ _ _ => Normal (VNumber (Finite 7));
     globalBinding := fun _ => None |}.

(** A host in which every generated function throws when called. *)
Definition faultyHost : Host :=
  {| performanceNow := fun n => inject_Z (Z.of_nat n);
     dateNow := fun n => Z.of_nat n;
     parseBody := fun _ => None;
     runBody := fun _ _ _ => Throw (ThrownValue (lit "fault"));
     globalBinding := fun _ => None |}.


(** [{ t: 0, time: 0 }] *)
Definition plainContext : EvaluationContext :=
  [(lit "t", Finite 0); (lit "time", Finite 0)].

(** [{ t: 0, time: 0, x: 5 }] *)
Definition sampleContext : EvaluationContext :=
  [(lit "t", Finite 0); (lit "time", Finite 0); (lit "x", Finite 5)].

(** An overlong text: 2001 opening parentheses. *)
Definition manyParentheses : jsstring := repeat 40%N 2001.

(** An overlong blank text: 2001 spaces. *)
Definition manySpaces : jsstring := repeat 32%N 2001.

(** * Further notions

    What the remaining statements about the evaluator are phrased with,
    and [runBenchmark], the one method not embedded above. *)

(** ** Parentheses *)

Definition isCloseParen (c : char) : bool := isChar ")" c.

(** Opening minus closing parentheses among the first [n] characters. *)
Definition depthAt (n : nat) (e : jsstring) : Z :=
  Z.of_nat (countChars isOpenParen (firstn n e))
  - Z.of_nat (countChars isCloseParen (firstn n e)).

(** The step of a parenthesis on the depth. *)
Definition parenStep (c : char) : Z :=
  if isOpenParen c then 1%Z else if isCloseParen c then (-1)%Z else 0%Z.

(** ** Messages of the validator *)

Definition unbalancedMessage : jsstring := lit "Unbalanced parentheses".
Definition nestingMessage : jsstring := lit "Nesting too deep (max 20 levels)".
Definition syntaxWarning : jsstring :=
  lit "Potentially invalid syntax detected".

(** The errors of a text that is not blank, check by check. *)
Definition lengthErrors (e : jsstring) : list jsstring :=
  if MAX_EXPRESSION_LENGTH <? length e then [tooLongMessage] else [].

Definition syntaxErrors (e : jsstring) : list jsstring :=
  (if hasBalancedParentheses e then [] else [unbalancedMessage])
  ++ (if (calculateNestingDepth e >? MAX_NESTING_DEPTH)%Z
      then [nestingMessage] else []).

Definition forbiddenErrors (e : jsstring) : list jsstring :=
  map (fun pn : regex * jsstring => forbiddenMessage (snd pn))
    (filter (fun pn : regex * jsstring => test (fst pn) e) forbiddenPatterns).

(** The names called in a text, one per call, in order. *)
Definition calledNames (e : jsstring) : list jsstring :=
  map stripCall (matchAll callPattern e).

Definition unknownFunctionErrors (e : jsstring) : list jsstring :=
  map unknownFunctionMessage
    (filter (fun name => negb (inSafeMathFunctions name)) (calledNames e)).

(** ** How a check changes a result *)

Definition isNil {A} (l : list A) : bool :=
  match l with [] => true | _ :: _ => false end.

(** [r'] has the errors of [r] followed by [more], and is valid only if
    [r] is valid and [more] is empty. *)
Definition extendsErrors (r r' : ValidationResult) (more : list jsstring)
  : Prop :=
  errors r' = errors r ++ more /\ isValid r' = isValid r && isNil more.

(** ** The first call of a text *)

(** A name such as the pattern of a call finds after a character that is
    not part of a name: it begins with a letter or an underscore and goes
    on with letters, digits, underscores and dollar signs. *)
Definition isFunctionName (f : jsstring) : Prop :=
  exists c f',
    f = c :: f' /\ (isLetter c || N.eqb c 95) = true /\
    forallb isIdentPart f' = true.

(** The text [before] does not end in the middle of a name. *)
Definition endsOutsideName (before : jsstring) : Prop :=
  match lastOr None before with
  | Some c => isIdentPart c = false
  | None => True
  end.

(** [e] is [before], the name [f], white space, an opening parenthesis and
    [rest], and that parenthesis is the first of [e]. *)
Definition firstCall (e before f ws rest : jsstring) : Prop :=
  e = before ++ f ++ ws ++ lit "(" ++ rest /\
  countChars isOpenParen before = 0 /\
  endsOutsideName before /\
  isFunctionName f /\
  whiteSpaceOnly ws = true.

(** ** The textual rewrite *)

(** The names of constants that [compileExpression] replaces. *)
Definition rewrittenConstants : list string :=
  ["PI"; "pi"; "E"; "e"; "TAU"; "PHI"; "DEG2RAD"; "RAD2DEG"]%string.

(** The letters [a] to [z] and [A] to [Z]. *)
Definition isLetterChar (c : char) : Prop := isLetter c = true.

(** Texts that have no letter. *)
Definition letterFree (e : jsstring) : Prop :=
  forallb (fun c => negb (isLetter c)) e = true.

(** A text the rewrite has nothing to do on: it has no letter, or it has
    no opening parenthesis and none of the constants as a whole word. *)
Definition plainText (e : jsstring) : Prop :=
  letterFree e \/
  (countChars isOpenParen e = 0 /\
   wholeWordOccurrences rewrittenConstants e = 0).

(** An identifier made of word characters that is neither reserved nor
    one of the constants the rewrite replaces. *)
Definition plainIdentifier (x : jsstring) : Prop :=
  isWord x /\
  isIdentifierName x = true /\
  inb x reservedWords = false /\
  ~ In x (map lit rewrittenConstants).

(** ** References to identifiers *)

(** What the generated function returns when the text it was built around
    is a reference to the identifier [x]. *)
Definition referenceResult (host : Host) (context : EvaluationContext)
    (x : jsstring) : jsvalue :=
  match resolveIdentifier host context x with
  | Normal result =>
      match ToNumber result with
      | Normal n => if isFiniteNumber n then result else VNumber zero
      | Throw _ => VNumber zero
      end
  | Throw _ => VNumber zero
  end.

(** What a reference to [t] or [time] evaluates to: the context's entry
    when it is a finite number, 0 otherwise. *)
Definition variableValue (x : jsstring) (context : EvaluationContext)
  : number :=
  match getProperty x context with
  | Some v => if isFiniteNumber v then v else zero
  | None => zero
  end.

(** Allow-listed constants that [compileExpression] has no rewrite for. *)
Definition constantsWithoutRewrite : list jsstring :=
  map lit ["LN2"; "LN10"; "LOG2E"; "LOG10E"; "SQRT1_2"; "SQRT2"]%string.

(** ** The compiled-function cache *)

(** The function stored under a key was compiled from a text that passes
    validation and whose trimmed form is the key. *)
Definition compiledFrom (host : Host) (key : jsstring) (fn : CompiledFunction)
  : Prop :=
  exists e,
    createCacheKey e = key /\
    isValid (computeValidation e) = true /\
    newFunction host (rewriteExpression e) = Normal fn.

Definition expressionCacheOk (host : Host) (s : State) : Prop :=
  forall key fn, In (key, fn) (expressionCache s) -> compiledFrom host key fn.

(** ** What evaluate writes to the console *)

(** The two lines of an error: the warning and the record. *)
Definition errorEntries (message : jsstring) (timestamp : Z) : list LogEntry :=
  [ EvaluatorWarning EXPRESSION_EVALUATION_ERROR message;
    ErrorRecord {| type := EXPRESSION_EVALUATION_ERROR; message := message;
                   timestamp := timestamp; recoverable := true |} ].


(** The clock reading that precedes the call of the compiled function:
    the fourth when the function comes from the cache, the second when it
    has just been compiled. *)
Definition readingsBeforeCall (expression : jsstring) (s : State) : nat :=
  match JsMap.get (createCacheKey expression) (expressionCache s) with
  | Some _ => ticks s + 3
  | None => ticks s + 1
  end.

(** The function [evaluate] calls, if it gets that far. *)
Definition functionToCall (host : Host) (expression : jsstring) (s : State)
  : completion CompiledFunction :=
  match JsMap.get (createCacheKey expression) (expressionCache s) with
  | Some cached => Normal cached
  | None => newFunction host (rewriteExpression expression)
  end.

(** ** The statistics *)

Definition countersOk (st : EvaluationStats) : Prop :=
  (0 <= successfulEvaluations st)%Z /\
  (0 <= failedEvaluations st)%Z /\
  (successfulEvaluations st + failedEvaluations st <= totalEvaluations st)%Z.

(** The call is served from the compiled-function cache. *)
Definition servedFromCache (expression : jsstring) (s : State) : Prop :=
  isValid (validatedAs expression s) = true /\
  exists cached,
    JsMap.get (createCacheKey expression) (expressionCache s) = Some cached.

(** What [updateStats] makes of the rate when the call was served from
    the cache, [total] being the counter of evaluations, the present call
    included. *)
Definition hitRateAfterHit (total : Z) (rate : Q) : Q :=
  ((inject_Z total * (rate / 100) + 1) / inject_Z total * 100)%Q.

(** What [updateStats] makes of the rate when the function had to be
    compiled. *)
Definition hitRateAfterMiss (total : Z) (rate : Q) : Q :=
  (inject_Z total * (rate / 100) / inject_Z total * 100)%Q.

(** ** runBenchmark *)

(** Arithmetic on numbers that need not be finite, as far as
    [runBenchmark] uses it. The sign of a zero is not represented: the
    zero divisors met here, a difference of two equal clock readings and
    its quotient by a count, are positive zeros. *)

(** [a / b] for a finite dividend *)
Definition divideBy (a : Q) (b : number) : number :=
  match b with
  | Finite q => divide a q
  | PosInfinity | NegInfinity => Finite 0
  | NaN => NaN
  end.

(** [x * k] for a finite positive factor *)
Definition times (x : number) (k : Q) : number :=
  match x with
  | Finite q => Finite (q * k)
  | other => other
  end.

Module Benchmark.

(** An element of [results]: [{ expression, time, result }] *)
Record Entry := {
  expression : jsstring;
  time : Q;
  result : number
}.

Record Report := {
  totalTime : Q;
  averageTime : number;
  operationsPerSecond : number;
  successRate : number;
  testResults : list Entry
}.

Definition testExpressions : list jsstring :=
  map lit
    [ "sin(t) + cos(time)";
      "sqrt(t * t + time * time)";
      "exp(t) * log(time + 1)";
      "pow(sin(t), 2) + pow(cos(time), 2)";
      "abs(tan(t * PI / 4))";
      "min(max(t, 0), 1) * 100";
      "atan2(sin(t), cos(time))";
      "hypot(t, time, 1)" ]%string.

(** [{ t: i * 0.1, time: i * 0.05 }] *)
Definition contextOf (i : nat) : EvaluationContext :=
  [ (lit "t", Finite (ofNat i * (1 # 10)));
    (lit "time", Finite (ofNat i * (1 # 20))) ].

Section WithHost.
Variable host : Host.

(** The [for] loop, with [remaining] iterations to go from index [i]. *)
Fixpoint loop (remaining i : nat) (results : list Entry) (successCount : Z)
  : M (list Entry * Z) :=
  match remaining with
  | 0 => ret (results, successCount)
  | S remaining' =>
      let expression :=
        nth (i mod length testExpressions) testExpressions [] in
      let context := contextOf i in
      evalStartTime <- performance_now host ;;
      result <- evaluate host expression context ;;
      now <- performance_now host ;;
      let evalTime := (now - evalStartTime)%Q in
      let results :=
        results ++ [{| expression := expression; time := evalTime;
                       result := result |}] in
      let successCount :=
        if isFiniteNumber result then (successCount + 1)%Z
        else successCount in
      loop remaining' (S i) results successCount
  end.

(** [runBenchmark(iterations)] for a count of iterations that is a
    non-negative integer. *)
Definition runBenchmark (iterations : nat) : M Report :=
  startTime <- performance_now host ;;
  looped <- loop iterations 0 [] 0%Z ;;
  let results := fst looped in
  let successCount := snd looped in
  now <- performance_now host ;;
  let totalTime := (now - startTime)%Q in
  let averageTime := divide totalTime (ofNat iterations) in
  let operationsPerSecond := divideBy 1000 averageTime in
  let successRate :=
    times (divide (inject_Z successCount) (ofNat iterations)) 100 in
  ret {| totalTime := totalTime;
         averageTime := averageTime;
         operationsPerSecond := operationsPerSecond;
         successRate := successRate;
         testResults := firstn 10 results |}.

End WithHost.

(** The calls and clock readings a benchmark of [iterations] rounds makes
    from index [i] on. *)
Fixpoint roundsFrom (iterations i : nat) : list Call :=
  match iterations with
  | 0 => []
  | S n =>
      [ ClockReading;
        CallEvaluate
          (nth (i mod length testExpressions) testExpressions [])
          (contextOf i);
        ClockReading ]
      ++ roundsFrom n (S i)
  end.

Definition callsOf (iterations : nat) : list Call :=
  [ClockReading] ++ roundsFrom iterations 0 ++ [ClockReading].

End Benchmark.

(** ** More sample hosts *)

(** A host whose clocks stand still. *)
Definition stoppedClockHost : Host :=
  {| performanceNow := fun _ => 0%Q;
     dateNow := fun _ => 5%Z;
     parseBody := fun _ => None;
     runBody := fun _ _ _ => Normal (VNumber (Finite 7));
     globalBinding := fun _ => None |}.


(** * Generated code in the realm of the evaluator

    The function that [new Function] makes runs in the realm the
    evaluator runs in: it can assign to the global object and to the
    built-in objects, and it need not return. A [Host] leaves both out:
    its [runBody] yields a completion and nothing else, and its clocks
    always answer. This part follows [evaluate] through a realm that
    generated code may have altered; where the generated code leaves the
    realm alone and returns, it does what [evaluate] above does. *)

Module SharedRealm.

(** What generated code has left of the built-ins the evaluator calls.
    The two clock functions, which [evaluate] calls outside its [try]
    block and inside its [catch] block, are followed one by one;
    [otherBuiltinsIntact] says that every other built-in ([console],
    [isFinite], [Map.prototype] and so on) is as the engine made it. What
    the evaluator does once one of those has been replaced is not
    modelled. *)
Record Realm := {
  (** [performance.now] is the function the engine put there *)
  performanceNowIsFunction : bool;
  (** so is [Date.now] *)
  dateNowIsFunction : bool;
  otherBuiltinsIntact : bool
}.

(** The realm as the engine made it. *)
Definition pristine : Realm :=
  {| performanceNowIsFunction := true; dateNowIsFunction := true;
     otherBuiltinsIntact := true |}.

(** The realm and the evaluator's static fields. *)
Record World := { realm : Realm; evaluator : State }.

Definition inRealm (r : Realm) (s : State) : World :=
  {| realm := r; evaluator := s |}.

Definition withRealm (r : Realm) (w : World) : World :=
  {| realm := r; evaluator := evaluator w |}.

Definition withEvaluator (s : State) (w : World) : World :=
  {| realm := realm w; evaluator := s |}.

(** A computation in a world: [None] when it never returns, otherwise its
    completion and the world it leaves. *)
Definition InRealm (A : Type) : Type := World -> option (completion A * World).

Definition ret {A} (a : A) : InRealm A := fun w => Some (Normal a, w).

Definition bind {A B} (c : InRealm A) (k : A -> InRealm B) : InRealm B :=
  fun w =>
    match c w with
    | Some (Normal a, w') => k a w'
    | Some (Throw e, w') => Some (Throw e, w')
    | None => None
    end.

Definition throw {A} (e : thrown) : InRealm A := fun w => Some (Throw e, w).

(** [try { body } catch (error) { handler }] *)
Definition tryCatch {A} (body : InRealm A) (handler : thrown -> InRealm A)
  : InRealm A :=
  fun w =>
    match body w with
    | Some (Normal a, w') => Some (Normal a, w')
    | Some (Throw e, w') => handler e w'
    | None => None
    end.

(** A computation on the static fields that calls neither clock and no
    generated code. *)
Definition liftM {A} (c : M A) : InRealm A :=
  fun w => let (r, s) := c (evaluator w) in Some (r, withEvaluator s w).

Declare Scope realm_scope.
Delimit Scope realm_scope with realm.
Notation "x <- c ;; k" := (bind c (fun x => k))
  (at level 61, c at next level, right associativity) : realm_scope.
Notation "c ;; k" := (bind c (fun _ => k))
  (at level 61, right associativity) : realm_scope.
Local Open Scope realm_scope.

Section Evaluator.
(** The native clocks, the parser and the global environment. *)
Variable host : Host.
(** [runBodyIn realm tick text context]: calling, in [realm], the function
    built around the expression text. [None] when the call never returns,
    otherwise its completion and the realm it leaves. It stands where
    [runBody host] stands above. *)
Variable runBodyIn :
  Realm -> nat -> jsstring -> EvaluationContext ->
  option (completion jsvalue * Realm).

(** [func(context)] for a compiled function. A reference to an identifier
    is a lookup, which changes nothing. *)
Definition callCompiled (realm : Realm) (tick : nat) (func : CompiledFunction)
    (context : EvaluationContext) : option (completion jsvalue * Realm) :=
  match identifierReference (safeExpression func) with
  | Some x => Some (Normal (referenceResult host context x), realm)
  | None => runBodyIn realm tick (safeExpression func) context
  end.

(** *** Clocks *)

(** [performance.now()]: a call of what is not a function throws a
    [TypeError]. *)
Definition performance_now : InRealm Q :=
  fun w =>
    let s := evaluator w in
    if performanceNowIsFunction (realm w) then
      Some (Normal (performanceNow host (ticks s)),
            withEvaluator (withTicks (S (ticks s)) s) w)
    else Some (Throw (typeError "performance.now is not a function"), w).

(** [Date.now()] *)
Definition Date_now : InRealm Z :=
  fun w =>
    let s := evaluator w in
    if dateNowIsFunction (realm w) then
      Some (Normal (dateNow host (ticks s)),
            withEvaluator (withTicks (S (ticks s)) s) w)
    else Some (Throw (typeError "Date.now is not a function"), w).

(** *** executeFunction *)

Definition executeFunction (func : CompiledFunction)
    (context : EvaluationContext) : InRealm number :=
  startTime <- performance_now ;;
  tryCatch
    (result <- (fun w =>
                  match callCompiled (realm w) (ticks (evaluator w))
                          func context with
                  | Some (c, realm') => Some (c, withRealm realm' w)
                  | None => None
                  end) ;;
     now <- performance_now ;;
     let executionTime := (now - startTime)%Q in
     (if Qlt_le_dec EVALUATION_TIMEOUT executionTime
      then liftM (log (SlowEvaluationWarning executionTime))
      else ret tt) ;;
     ret (finiteOrZero result))
    (fun error =>
       throw (newError (lit "Function execution failed: "
                        ++ thrownToString error))).

(** *** updateStats *)

Definition updateStats (startTime : Q) (fromCache : bool) : InRealm unit :=
  now <- performance_now ;;
  let evaluationTime := (now - startTime)%Q in
  let alpha := (1 # 10)%Q in
  liftM (modifyStats (fun st =>
    let average :=
      (averageEvaluationTime st * (1 - alpha) + evaluationTime * alpha)%Q in
    let total := inject_Z (totalEvaluations st) in
    let cacheHits := (total * (cacheHitRate st / 100))%Q in
    let rate :=
      if fromCache then ((cacheHits + 1) / total * 100)%Q
      else (cacheHits / total * 100)%Q in
    {| totalEvaluations := totalEvaluations st;
       successfulEvaluations := successfulEvaluations st;
       failedEvaluations := failedEvaluations st;
       averageEvaluationTime := average;
       cacheHitRate := rate;
       lastEvaluationTime := lastEvaluationTime st |})) ;;
  today <- Date_now ;;
  liftM (modifyStats (fun st =>
    {| totalEvaluations := totalEvaluations st;
       successfulEvaluations := successfulEvaluations st;
       failedEvaluations := failedEvaluations st;
       averageEvaluationTime := averageEvaluationTime st;
       cacheHitRate := cacheHitRate st;
       lastEvaluationTime := today |})).

(** *** handleEvaluationError *)

Definition handleEvaluationError (type : ErrorType) (message : jsstring)
  : InRealm unit :=
  timestamp <- Date_now ;;
  let error := {| type := type; message := message;
                  timestamp := timestamp; recoverable := true |} in
  liftM (log (EvaluatorWarning type message)) ;;
  liftM (log (ErrorRecord error)).

(** *** evaluate *)

(** The [try] block of [evaluate]. *)
Definition evaluateTry (startTime : Q) (expression : jsstring)
    (context : EvaluationContext) : InRealm number :=
  validation <- liftM (validateExpression expression) ;;
  if negb (isValid (contents validation)) then
    handleEvaluationError EXPRESSION_EVALUATION_ERROR
      (lit "Invalid expression: "
       ++ join (lit ", ") (errors (contents validation))) ;;
    ret zero
  else
    let cacheKey := createCacheKey expression in
    cache <- liftM (gets expressionCache) ;;
    match JsMap.get cacheKey cache with
    | Some cached =>
        updateStats startTime true ;;
        executeFunction cached context
    | None =>
        compiledFunction <- liftM (compileExpression host expression) ;;
        cache <- liftM (gets expressionCache) ;;
        (if MAX_CACHE_SIZE <=? JsMap.size cache
         then liftM clearOldestCacheEntries else ret tt) ;;
        liftM (modify (fun s =>
                         withExpressionCache
                           (JsMap.set cacheKey compiledFunction
                              (expressionCache s)) s)) ;;
        result <- executeFunction compiledFunction context ;;
        updateStats startTime false ;;
        liftM (modifyStats incrSuccessful) ;;
        ret result
    end.

(** The [catch] block of [evaluate]. *)
Definition evaluateCatch (error : thrown) : InRealm number :=
  handleEvaluationError EXPRESSION_EVALUATION_ERROR
    (lit "Evaluation failed: " ++ thrownToString error) ;;
  liftM (modifyStats incrFailed) ;;
  ret zero.

Definition evaluate (expression : jsstring) (context : EvaluationContext)
  : InRealm number :=
  startTime <- performance_now ;;
  liftM (modifyStats incrTotal) ;;
  tryCatch (evaluateTry startTime expression context) evaluateCatch.

(** *** The call of the generated function *)

(** What the call that [evaluate] makes of the function [fn] comes to
    when the realm is pristine. The call follows the fourth clock reading
    when the function comes from the cache, the second when it has just
    been compiled. *)
Definition callMade (expression : jsstring) (context : EvaluationContext)
    (s : State) (fn : CompiledFunction)
  : option (completion jsvalue * Realm) :=
  callCompiled pristine (S (readingsBeforeCall expression s)) fn context.


(** The call of the generated function throws: a fault has escaped the
    [try] statement of the generated body. *)
Definition faultEscapes (expression : jsstring)
    (context : EvaluationContext) (s : State) : Prop :=
  isValid (validatedAs expression s) = true /\
  exists fn error,
    functionToCall host expression s = Normal fn /\
    callMade expression context s fn = Some (Throw error, pristine).

(** The text is a reference to an identifier that cannot be resolved: the
    fault is raised inside the [try] statement of the generated body,
    whose [catch] clause returns 0. *)
Definition faultIsSwallowed (expression : jsstring)
    (context : EvaluationContext) (s : State) : Prop :=
  isValid (validatedAs expression s) = true /\
  exists fn x error,
    functionToCall host expression s = Normal fn /\
    identifierReference (safeExpression fn) = Some x /\
    resolveIdentifier host context x = Throw error.


End Evaluator.


(** *** Sample engines *)


(** An engine in which every generated function throws when called. *)
Definition faultyRun (realm : Realm) (tick : nat) (text : jsstring)
    (context : EvaluationContext) : option (completion jsvalue * Realm) :=
  Some (Throw (ThrownValue (lit "fault")), realm).

(** A text that assigns to a clock function, and a text that calls a
    function whose body is a loop without end. Both pass validation: the
    first holds no call and none of the denied patterns; in the second
    [valueOf] is a key that the allow-list inherits, and a comment
    separates [while] from its parenthesis. *)
Definition clockOverwrite : jsstring := lit "Date.now = 0".
Definition endlessLoop : jsstring :=
  lit "(function valueOf(){ while/**/(1); })()".

(** An engine that does on these two texts what ECMAScript prescribes:
    the assignment stores 0 in the property [now] of [Date], which is
    writable, and has the value 0; the call of the looping function never
    returns. Any other text evaluates to 7. *)
Definition browserRun (realm : Realm) (tick : nat) (text : jsstring)
    (context : EvaluationContext) : option (completion jsvalue * Realm) :=
  if eqb text clockOverwrite then
    Some (Normal (VNumber zero),
          {| performanceNowIsFunction := performanceNowIsFunction realm;
             dateNowIsFunction := false;
             otherBuiltinsIntact := otherBuiltinsIntact realm |})
  else if eqb text endlessLoop then None
  else Some (Normal (VNumber (Finite 7)), realm).

End SharedRealm.

(** * Properties *)

Unset Implicit Arguments.

(** ** Strings *)

Lemma eqb_refl (a : jsstring) : eqb a a = true.
Proof.
  induction a as [|x a IH]; simpl; [reflexivity|].
  now rewrite N.eqb_refl, IH.
Qed.

Lemma eqb_eq (a b : jsstring) : eqb a b = true <-> a = b.
Proof.
  split.
  - revert b; induction a as [|x a IH]; intros [|y b]; simpl; try discriminate; auto.
    intros H. apply andb_prop in H as [H1 H2].
    apply N.eqb_eq in H1. apply IH in H2. congruence.
  - intros ->. apply eqb_refl.
Qed.

Lemma eqb_neq (a b : jsstring) : eqb a b = false <-> a <> b.
Proof.
  rewrite <- eqb_eq. destruct (eqb a b); split; congruence.
Qed.

(** ** Blank texts *)

Lemma trimStart_nil s : trimStart s = [] <-> forallb isWhiteSpace s = true.
Proof.
  induction s as [|c s IH]; simpl; [tauto|].
  destruct (isWhiteSpace c); simpl; [exact IH|].
  split; discriminate.
Qed.

Lemma trimStart_head s c s' : trimStart s = c :: s' -> isWhiteSpace c = false.
Proof.
  induction s as [|x s IH]; simpl; [discriminate|].
  destruct (isWhiteSpace x) eqn:E; [exact IH|].
  now intros [= <- _].
Qed.

Lemma forallb_rev {A} (f : A -> bool) l : forallb f (rev l) = forallb f l.
Proof.
  induction l as [|x l IH]; simpl; [reflexivity|].
  rewrite forallb_app, IH. simpl. rewrite andb_true_r. apply andb_comm.
Qed.

Lemma trim_nil s : trim s = [] <-> forallb isWhiteSpace s = true.
Proof.
  unfold trim, trimEnd. split.
  - intros H. apply (f_equal (@rev char)) in H. rewrite rev_involutive in H.
    simpl in H. apply trimStart_nil in H. rewrite forallb_rev in H.
    destruct (trimStart s) as [|c s'] eqn:E.
    + now apply trimStart_nil.
    + apply trimStart_head in E. simpl in H. now rewrite E in H.
  - intros H. apply trimStart_nil in H. now rewrite H.
Qed.

(** [!expression || !expression.trim()] holds of the empty text and of the
    texts made of white space, and of no other. *)
Lemma isBlank_whiteSpaceOnly e : isBlank e = whiteSpaceOnly e.
Proof.
  unfold isBlank, whiteSpaceOnly. destruct e as [|c e]; [reflexivity|].
  destruct (trim (c :: e)) as [|x t] eqn:E.
  - symmetry. now apply trim_nil.
  - destruct (forallb isWhiteSpace (c :: e)) eqn:F; [|reflexivity].
    apply trim_nil in F. congruence.
Qed.

(** ** Insertion-ordered maps *)

Module JsMapFacts.
Section WithValue.
Context {V : Type}.
Implicit Types (m : JsMap.t V) (k : jsstring) (v : V).

Lemma get_In k m v : JsMap.get k m = Some v -> In (k, v) m.
Proof.
  induction m as [|[k' v'] m IH]; simpl; [discriminate|].
  destruct (eqb k k') eqn:E.
  - apply eqb_eq in E. intros [= ->]. left. now subst.
  - intros H. right. auto.
Qed.

Lemma get_set_same k v m : JsMap.get k (JsMap.set k v m) = Some v.
Proof.
  induction m as [|[k' v'] m IH]; simpl.
  - now rewrite eqb_refl.
  - destruct (eqb k k') eqn:E; simpl; rewrite E; auto.
Qed.

Lemma set_In k v m k' v' :
  In (k', v') (JsMap.set k v m) -> (k' = k /\ v' = v) \/ In (k', v') m.
Proof.
  induction m as [|[k0 v0] m IH]; simpl.
  - intros [[= <- <-]|[]]. now left.
  - destruct (eqb k k0) eqn:E; simpl.
    + apply eqb_eq in E. subst k0.
      intros [[= <- <-]|H]; [now left | right; now right].
    + intros [H|H]; [right; now left|].
      destruct (IH H) as [?|?]; [now left | right; now right].
Qed.

Lemma set_size k v m : JsMap.size (JsMap.set k v m) <= S (JsMap.size m).
Proof.
  unfold JsMap.size.
  induction m as [|[k0 v0] m IH]; simpl; [lia|].
  destruct (eqb k k0); simpl; lia.
Qed.


Lemma has_get k m : JsMap.has k m = true <-> exists v, JsMap.get k m = Some v.
Proof.
  unfold JsMap.has. destruct (JsMap.get k m).
  - split; eauto.
  - split; [discriminate|]. intros [v [=]].
Qed.

Lemma get_keys k m : JsMap.get k m = None -> ~ In k (JsMap.keys m).
Proof.
  induction m as [|[k0 v0] m IH]; simpl; [tauto|].
  destruct (eqb k k0) eqn:E; [discriminate|].
  apply eqb_neq in E. intros H [H1|H1]; [congruence|]. now apply IH.
Qed.

Lemma keys_get k m : In k (JsMap.keys m) -> exists v, JsMap.get k m = Some v.
Proof.
  destruct (JsMap.get k m) eqn:E; [eauto|].
  intros H. now apply get_keys in E.
Qed.
End WithValue.
End JsMapFacts.
Import JsMapFacts.


Lemma has_skipn {V} k n (m : JsMap.t V) :
  JsMap.has k (skipn n m) = true -> JsMap.has k m = true.
Proof.
  intros H. apply has_get in H as [v H]. apply get_In in H.
  apply has_get. apply keys_get.
  unfold JsMap.keys. apply in_map_iff. exists (k, v).
  split; [reflexivity|]. revert H. clear. revert m.
  induction n as [|n IH]; intros [|x m]; cbn; auto.
Qed.

Lemma has_set {V} k k' (v : V) m :
  JsMap.has k' (JsMap.set k v m) = true -> k' = k \/ JsMap.has k' m = true.
Proof.
  intros H. apply has_get in H as [v' H]. apply get_In, set_In in H.
  destruct H as [[-> _]|H]; [now left|right].
  apply has_get, keys_get. unfold JsMap.keys. apply in_map_iff.
  now exists (k', v').
Qed.

(** ** The matcher finds what the patterns describe *)

Lemma last_app_cons {A} (l : list A) c w d :
  last (l ++ c :: w) d = last (c :: w) d.
Proof.
  induction l as [|x l IH]; [reflexivity|].
  cbn [app]. destruct (l ++ c :: w) as [|y l0] eqn:E.
  - destruct l; discriminate.
  - change (last (x :: y :: l0) d) with (last (y :: l0) d). exact IH.
Qed.

Lemma lastOr_app prev w1 w2 :
  lastOr prev (w1 ++ w2) = lastOr (lastOr prev w1) w2.
Proof.
  destruct w2 as [|c w2]; [now rewrite app_nil_r|].
  destruct w1 as [|a w1]; [reflexivity|].
  cbn [lastOr app]. f_equal.
  exact (last_app_cons (a :: w1) c w2 0%N).
Qed.

Lemma lastOr_cons prev c w : lastOr prev (c :: w) = lastOr (Some c) w.
Proof. exact (lastOr_app prev [c] w). Qed.

Section MatcherCorrect.
Variable R : Type.

Lemma rep_sound p : forall s min prev caps (k : kont R) x,
  rep p min prev s caps k = Some x ->
  exists w s',
    s = w ++ s' /\ min <= length w /\ forallb p w = true /\
    k (lastOr prev w) s' caps = Some x.
Proof.
  assert (Hstop : forall s min prev caps (k : kont R) x,
            match min with 0 => k prev s caps | S _ => None end = Some x ->
            exists w s',
              s = w ++ s' /\ min <= length w /\ forallb p w = true /\
              k (lastOr prev w) s' caps = Some x).
  { intros s [|min] prev caps k x H; [|discriminate].
    exists [], s. repeat split; auto. }
  induction s as [|c s IH]; intros min prev caps k x H; cbn [rep] in H.
  - now apply Hstop.
  - destruct (p c) eqn:Hc; [|now apply Hstop].
    destruct (rep p (pred min) (Some c) s caps k) as [y|] eqn:Hrec;
      [|now apply Hstop].
    injection H as <-.
    apply IH in Hrec as (w & s' & -> & Hmin & Hall & Hk).
    exists (c :: w), s'. rewrite lastOr_cons. cbn [forallb length].
    rewrite Hc, Hall. repeat split; auto. lia.
Qed.

Lemma rep_complete p : forall w min prev next caps (k : kont R),
  min <= length w -> forallb p w = true ->
  k (lastOr prev w) next caps <> None ->
  rep p min prev (w ++ next) caps k <> None.
Proof.
  induction w as [|c w IH]; intros min prev next caps k Hmin Hall Hk.
  - cbn [length] in Hmin. assert (min = 0) as -> by lia.
    cbn [app lastOr] in *. destruct next as [|c next]; cbn [rep]; [exact Hk|].
    destruct (p c); [|exact Hk].
    now destruct (rep p (pred 0) (Some c) next caps k).
  - cbn [forallb] in Hall. apply andb_true_iff in Hall as [Hc Hall].
    cbn [app rep]. rewrite Hc.
    rewrite lastOr_cons in Hk.
    specialize (IH (pred min) (Some c) next caps k
                  ltac:(cbn [length] in Hmin; lia) Hall Hk).
    destruct (rep p (pred min) (Some c) (w ++ next) caps k); [discriminate|].
    congruence.
Qed.

Lemma run_sound r : forall prev s caps (k : kont R) x,
  run r prev s caps k = Some x ->
  exists w s' caps',
    s = w ++ s' /\ Lang r prev w s' /\ k (lastOr prev w) s' caps' = Some x.
Proof.
  induction r as [|p|r1 IH1 r2 IH2|r1 IH1 r2 IH2|min p| | | |r IH];
    intros prev s caps k x H; cbn [run] in H.
  - exists [], s, caps. repeat split; [constructor|exact H].
  - destruct s as [|c s]; [discriminate|].
    destruct (p c) eqn:Hc; [|discriminate].
    exists [c], s, caps. repeat split; [now constructor|exact H].
  - apply IH1 in H as (w1 & s1 & caps1 & -> & L1 & H).
    apply IH2 in H as (w2 & s2 & caps2 & -> & L2 & H).
    exists (w1 ++ w2), s2, caps2. rewrite lastOr_app, <- app_assoc.
    repeat split; [now constructor|exact H].
  - destruct (run r1 prev s caps k) as [y|] eqn:E.
    + injection H as <-.
      apply IH1 in E as (w & s' & caps' & -> & L & H).
      exists w, s', caps'. repeat split; [now apply LangAltLeft|exact H].
    + apply IH2 in H as (w & s' & caps' & -> & L & H).
      exists w, s', caps'. repeat split; [now apply LangAltRight|exact H].
  - apply rep_sound in H as (w & s' & -> & Hmin & Hall & H).
    exists w, s', caps. repeat split; [now constructor|exact H].
  - destruct (xorb _ _) eqn:E; [|discriminate].
    exists [], s, caps. repeat split; [now constructor|exact H].
  - destruct prev; [discriminate|].
    exists [], s, caps. repeat split; [constructor|exact H].
  - destruct s; [|discriminate].
    exists [], [], caps. repeat split; [constructor|exact H].
  - apply IH in H as (w & s' & caps' & -> & L & H).
    eexists w, s', _. repeat split; [now constructor|exact H].
Qed.

Lemma run_complete r prev w next :
  Lang r prev w next ->
  forall caps (k : kont R),
    (forall caps', k (lastOr prev w) next caps' <> None) ->
    run r prev (w ++ next) caps k <> None.
Proof.
  induction 1 as
    [prev next
    |p prev c next Hc
    |r1 r2 prev w1 w2 next _ IH1 _ IH2
    |r1 r2 prev w next _ IH
    |r1 r2 prev w next _ IH
    |min p prev w next Hmin Hall
    |prev next Hb
    |next
    |prev
    |r prev w next _ IH];
    intros caps k Hk; cbn [run].
  - apply Hk.
  - cbn [app]. rewrite Hc. apply Hk.
  - rewrite <- app_assoc. apply IH1. intros caps1.
    apply IH2. intros caps2. rewrite <- lastOr_app. apply Hk.
  - specialize (IH caps k Hk).
    now destruct (run r1 prev (w ++ next) caps k).
  - specialize (IH caps k Hk).
    destruct (run r1 prev (w ++ next) caps k); [discriminate|exact IH].
  - apply rep_complete; auto.
  - cbn [app]. rewrite Hb. apply Hk.
  - apply Hk.
  - apply Hk.
  - apply IH. intros caps'. apply Hk.
Qed.
End MatcherCorrect.

(** [test] answers whether some part of the text is matched. *)
Lemma testFrom_occurs r : forall s prev,
  testFrom r prev s = true <->
  exists before part after,
    s = before ++ part ++ after /\ Lang r (lastOr prev before) part after.
Proof.
  intros s prev. split.
  - revert prev. induction s as [|c s IH]; intros prev H; cbn [testFrom] in H.
    + unfold matchHere in H.
      destruct (run r prev [] [] _) as [m|] eqn:E; [|discriminate].
      apply run_sound in E as (w & s' & _ & Hs & L & _).
      exists [], w, s'. auto.
    + unfold matchHere in H.
      destruct (run r prev (c :: s) [] _) as [m|] eqn:E.
      * apply run_sound in E as (w & s' & _ & Hs & L & _).
        exists [], w, s'. auto.
      * apply IH in H as (before & part & after & -> & L).
        exists (c :: before), part, after. rewrite lastOr_cons. auto.
  - intros (before & part & after & -> & L). revert prev L.
    induction before as [|c before IH]; intros prev L.
    + cbn [app lastOr] in *.
      assert (Hm : matchHere r prev (part ++ after) <> None).
      { unfold matchHere. apply (run_complete _ r prev part after L).
        intros caps'. discriminate. }
      destruct (part ++ after); cbn [testFrom];
        destruct (matchHere r prev _); congruence.
    + cbn [app testFrom]. destruct (matchHere r prev _); [reflexivity|].
      apply IH. rewrite lastOr_cons in L. exact L.
Qed.

Lemma test_occursIn r e : test r e = true <-> occursIn r e.
Proof. apply testFrom_occurs. Qed.

(** ** Patterns that need a character that is not white space *)

Lemma run_beginsWith (P : char -> Prop) r :
  beginsWith P r ->
  forall (R : Type) prev s caps (k : kont R) x,
    run r prev s caps k = Some x -> exists c s', s = c :: s' /\ P c.
Proof.
  induction 1 as [p Hp|r1 r2 _ IH|r1 r2 _ IH1 _ IH2|r _ IH];
    intros R prev s caps k x Hrun; cbn in Hrun.
  - destruct s as [|c s']; [discriminate|].
    destruct (p c) eqn:E; [|discriminate]. eauto.
  - eapply IH. exact Hrun.
  - destruct (run r1 prev s caps k) eqn:E.
    + eapply IH1. exact E.
    + eapply IH2. exact Hrun.
  - eapply IH. exact Hrun.
Qed.






(** ** Counting matches *)

Lemma length_minus_skipn {A} n (s : list A) :
  n <= length s -> length s - length (skipn n s) = n.
Proof. intros H. rewrite length_skipn. lia. Qed.

Lemma matchAllFrom_cls p : forall s prev,
  length (matchAllFrom (Cls p) prev s 0) = length (filter p s).
Proof.
  induction s as [|c s IH]; intros prev; [reflexivity|].
  cbn [matchAllFrom filter]. unfold matchHere. cbn [run].
  destruct (p c) eqn:E.
  - replace (length (c :: s) - length s) with 1 by (cbn [length]; lia).
    cbn [matched firstn length pred]. f_equal. apply IH.
  - apply IH.
Qed.

(** The matches of a one-character class are the characters in it. *)
Lemma matchAll_cls_count p s :
  length (matchAll (Cls p) s) = countChars p s.
Proof.
  unfold matchAll, countChars. rewrite length_map. apply matchAllFrom_cls.
Qed.

Lemma startsWith_firstn w : forall s,
  startsWith w s = true -> firstn (length w) s = w /\ length w <= length s.
Proof.
  induction w as [|a w IH]; intros s H; cbn in *.
  - split; [reflexivity|lia].
  - destruct s as [|c s]; [discriminate|].
    apply andb_true_iff in H as [Hc Hw]. apply N.eqb_eq in Hc. subst c.
    destruct (IH s Hw) as [H1 H2]. cbn. rewrite H1. split; [reflexivity|lia].
Qed.

Lemma run_seqOf_literal (R : Type) w :
  w <> [] ->
  forall prev s caps (k : kont R),
    run (seqOf (fun a c => N.eqb c a) w) prev s caps k =
    if startsWith w s
    then k (Some (last w 0%N)) (skipn (length w) s) caps
    else None.
Proof.
  induction w as [|a w IH]; intros Hne prev s caps k; [congruence|].
  destruct w as [|b w].
  - cbn. destruct s as [|c s]; [reflexivity|].
    destruct (N.eqb c a) eqn:E; [|reflexivity].
    apply N.eqb_eq in E. now subst c.
  - cbn [seqOf run]. destruct s as [|c s]; [reflexivity|].
    cbn [startsWith]. destruct (N.eqb c a) eqn:E; [|reflexivity].
    cbn [andb]. rewrite IH by discriminate. reflexivity.
Qed.

Lemma alts_cons r r' l : alts (r :: r' :: l) = Alt r (alts (r' :: l)).
Proof. reflexivity. Qed.

Lemma firstSome_cons {A B} (f : A -> option B) a l :
  firstSome f (a :: l) =
  match f a with Some b => Some b | None => firstSome f l end.
Proof. reflexivity. Qed.

Lemma run_alts_literals (R : Type) ws :
  ws <> [] -> Forall (fun w => w <> []) ws ->
  forall prev s caps (k : kont R),
    run (alts (map (seqOf (fun a c => N.eqb c a)) ws)) prev s caps k =
    firstSome
      (fun w => if startsWith w s
                then k (Some (last w 0%N)) (skipn (length w) s) caps
                else None) ws.
Proof.
  induction ws as [|w ws IH]; intros Hne Hall prev s caps k; [congruence|].
  inversion Hall as [|? ? Hw Hws]; subst.
  destruct ws as [|w' ws].
  - cbn [map alts firstSome]. rewrite run_seqOf_literal by exact Hw.
    now destruct (startsWith w s); try destruct (k _ _ _).
  - rewrite firstSome_cons.
    change (map (seqOf (fun a c => N.eqb c a)) (w :: w' :: ws))
      with (seqOf (fun a c => N.eqb c a) w
            :: map (seqOf (fun a c => N.eqb c a)) (w' :: ws)).
    change (map (seqOf (fun a c => N.eqb c a)) (w' :: ws))
      with (seqOf (fun a c => N.eqb c a) w'
            :: map (seqOf (fun a c => N.eqb c a)) ws) at 1.
    rewrite alts_cons. cbn [run].
    rewrite run_seqOf_literal by exact Hw.
    change (seqOf (fun a c => N.eqb c a) w'
            :: map (seqOf (fun a c => N.eqb c a)) ws)
      with (map (seqOf (fun a c => N.eqb c a)) (w' :: ws)).
    rewrite (IH ltac:(discriminate) Hws prev s caps k).
    reflexivity.
Qed.

Lemma isWord_head w s :
  isWord w -> startsWith w s = true -> isWordOpt (hd_error s) = true.
Proof.
  intros [Hne Hall] H. destruct w as [|a w]; [congruence|].
  destruct s as [|c s]; [discriminate|]. cbn in *.
  apply andb_true_iff in H as [Hc _]. apply N.eqb_eq in Hc. subst c.
  now apply andb_true_iff in Hall as [Ha _].
Qed.

Lemma isWord_last w : isWord w -> isWordChar (last w 0%N) = true.
Proof.
  intros [Hne Hall]. induction w as [|a w IH]; [congruence|].
  destruct w as [|b w].
  - cbn in *. now apply andb_true_iff in Hall as [Ha _].
  - change (last (a :: b :: w) 0%N) with (last (b :: w) 0%N).
    apply IH; [discriminate|].
    cbn [forallb] in Hall. now apply andb_true_iff in Hall as [_ Hb].
Qed.

(** What a whole-word pattern finds at a position: the first of its words
    that stands there as a whole word. *)
Lemma matchHere_words ws :
  ws <> [] -> Forall isWord ws ->
  forall prev s,
    matchHere (wordsPattern ws) prev s =
    match find (wholeWordHere prev s) ws with
    | Some w => Some {| matched := w; groups := [w] |}
    | None => None
    end.
Proof.
  intros Hne Hall prev s. unfold matchHere, wordsPattern. cbn [run].
  rewrite run_alts_literals;
    [|exact Hne|eapply Forall_impl; [|exact Hall]; intros w [H _]; exact H].
  clear Hne.
  destruct (isWordOpt prev) eqn:Hprev.
  - (* a word character before: no word boundary in front of a word *)
    assert (Hfind : find (wholeWordHere prev s) ws = None).
    { clear Hall. induction ws as [|w ws IH]; [reflexivity|].
      cbn [find]. unfold wholeWordHere at 1. rewrite Hprev. exact IH. }
    rewrite Hfind. clear Hfind.
    destruct (isWordOpt (hd_error s)) eqn:Hhd; [reflexivity|]. cbn [xorb].
    induction Hall as [|w ws Hw _ IH]; [reflexivity|].
    cbn [firstSome]. destruct (startsWith w s) eqn:Hs; [|exact IH].
    rewrite (isWord_head w s Hw Hs) in Hhd. discriminate.
  - destruct (isWordOpt (hd_error s)) eqn:Hhd; cbn [xorb].
    + induction Hall as [|w ws Hw _ IH]; [reflexivity|].
      cbn [firstSome find]. unfold wholeWordHere at 1. rewrite Hprev.
      cbn [negb andb]. destruct (startsWith w s) eqn:Hs; [|exact IH].
      cbn [isWordOpt]. rewrite (isWord_last w Hw). cbn [xorb andb app].
      destruct (startsWith_firstn w s Hs) as [Hfirst Hlen].
      rewrite (length_minus_skipn _ s Hlen), Hfirst.
      destruct (isWordOpt (hd_error (skipn (length w) s))); [exact IH|reflexivity].
    + induction Hall as [|w ws Hw _ IH]; [reflexivity|].
      cbn [find]. unfold wholeWordHere at 1.
      destruct (startsWith w s) eqn:Hs.
      * rewrite (isWord_head w s Hw Hs) in Hhd. discriminate.
      * rewrite andb_false_r. exact IH.
Qed.

Lemma wholeWordHere_after_word prev s ws :
  isWordOpt prev = true -> existsb (wholeWordHere prev s) ws = false.
Proof.
  intros H. induction ws as [|w ws IH]; [reflexivity|].
  cbn [existsb]. unfold wholeWordHere at 1. rewrite H. exact IH.
Qed.

Lemma find_existsb {A} (f : A -> bool) l :
  existsb f l = match find f l with Some _ => true | None => false end.
Proof.
  induction l as [|a l IH]; [reflexivity|]. cbn.
  destruct (f a); [reflexivity|exact IH].
Qed.

Lemma find_In_true {A} (f : A -> bool) l a :
  find f l = Some a -> In a l /\ f a = true.
Proof. apply find_some. Qed.

(** The matches of a whole-word pattern in a text are counted by the
    positions at which one of its words stands as a whole word. *)
Lemma matchAllFrom_words ws :
  ws <> [] -> Forall isWord ws ->
  forall s prev k,
    k = 0 \/ (isWordOpt prev = true /\ wordPrefix k s) ->
    length (matchAllFrom (wordsPattern ws) prev s k) =
    wholeWordsFrom ws prev s.
Proof.
  intros Hne Hall. induction s as [|c s IH]; intros prev k Hk.
  - destruct k as [|k].
    + cbn [matchAllFrom wholeWordsFrom]. rewrite matchHere_words by assumption.
      rewrite find_existsb. now destruct (find _ ws).
    + destruct Hk as [Hk|[_ [Hk _]]]; [discriminate|]. cbn in Hk. lia.
  - destruct k as [|k].
    + cbn [matchAllFrom wholeWordsFrom]. rewrite matchHere_words by assumption.
      rewrite find_existsb.
      destruct (find (wholeWordHere prev (c :: s)) ws) as [w|] eqn:Hfind.
      * cbn [length matched]. change (1 + ?n) with (S n). f_equal. apply IH.
        apply find_In_true in Hfind as [Hin Hw].
        rewrite Forall_forall in Hall. destruct (Hall w Hin) as [Hwne Hwall].
        unfold wholeWordHere in Hw.
        apply andb_true_iff in Hw as [Hw _].
        apply andb_true_iff in Hw as [_ Hs].
        destruct w as [|a w]; [congruence|].
        cbn in Hs. apply andb_true_iff in Hs as [Hc Hs].
        apply N.eqb_eq in Hc. subst c.
        cbn [forallb] in Hwall. apply andb_true_iff in Hwall as [Ha Hwall].
        destruct (startsWith_firstn w s Hs) as [Hfirst Hlen].
        right. split; [exact Ha|]. cbn [length pred].
        split; [exact Hlen|]. now rewrite Hfirst.
      * apply IH. now left.
    + destruct Hk as [Hk|[Hprev [Hlen Hword]]]; [discriminate|].
      cbn [matchAllFrom wholeWordsFrom].
      rewrite (wholeWordHere_after_word prev (c :: s) ws Hprev).
      cbn [firstn forallb] in Hword.
      apply andb_true_iff in Hword as [Hc Hword].
      cbn [length] in Hlen.
      apply IH. right. split; [exact Hc|]. split; [lia|exact Hword].
Qed.

Lemma matchAll_words_count ws s :
  ws <> [] -> Forall isWord ws ->
  length (matchAll (wordsPattern ws) s) = wholeWordsFrom ws None s.
Proof.
  intros Hne Hall. unfold matchAll. rewrite length_map.
  apply matchAllFrom_words; auto.
Qed.

(** ** The validator without its cache *)

Lemma computeValidation_nonblank e :
  isBlank e = false ->
  computeValidation e = runChecks e (checkLength e freshResult).
Proof. intros H. unfold computeValidation. now rewrite H. Qed.

Lemma computeValidation_blank e :
  isBlank e = true -> computeValidation e = reject emptyMessage freshResult.
Proof. intros H. unfold computeValidation. now rewrite H. Qed.

(** ** Checks only add *)

Lemma grows_refl r : grows r r.
Proof.
  repeat split; try (exists []; now rewrite app_nil_r). auto.
Qed.

Lemma grows_trans r1 r2 r3 : grows r1 r2 -> grows r2 r3 -> grows r1 r3.
Proof.
  intros ([e1 He1] & [w1 Hw1] & Hv1) ([e2 He2] & [w2 Hw2] & Hv2).
  repeat split.
  - exists (e1 ++ e2). now rewrite He2, He1, app_assoc.
  - exists (w1 ++ w2). now rewrite Hw2, Hw1, app_assoc.
  - auto.
Qed.

Lemma grows_reject msg r : grows r (reject msg r).
Proof.
  repeat split; cbn; eauto. exists []. now rewrite app_nil_r.
Qed.

Lemma grows_pushWarning msg r : grows r (pushWarning msg r).
Proof.
  repeat split; cbn; eauto. exists []. now rewrite app_nil_r.
Qed.

Lemma grows_if (b : bool) r r' : grows r r' -> grows r (if b then r' else r).
Proof. destruct b; auto using grows_refl. Qed.

Lemma grows_fold {A} (f : ValidationResult -> A -> ValidationResult) l :
  (forall r a, grows r (f r a)) -> forall r, grows r (fold_left f l r).
Proof.
  intros Hf. induction l as [|a l IH]; intros r; cbn.
  - apply grows_refl.
  - eapply grows_trans; [apply Hf|apply IH].
Qed.

Lemma grows_validateSyntax e r : grows r (validateSyntax e r).
Proof.
  unfold validateSyntax.
  eapply grows_trans; [|apply grows_if, grows_pushWarning].
  eapply grows_trans; [|apply grows_if, grows_reject].
  apply grows_if, grows_reject.
Qed.

Lemma grows_validateSecurity e r : grows r (validateSecurity e r).
Proof.
  unfold validateSecurity.
  eapply grows_trans;
    [apply (@grows_fold (regex * jsstring))|apply (@grows_fold jsstring)];
    intros; apply grows_if, grows_reject.
Qed.

Lemma grows_analyzeComplexity e r : grows r (analyzeComplexity e r).
Proof.
  unfold analyzeComplexity.
  eapply grows_trans; [|apply grows_if, grows_pushWarning].
  eapply grows_trans; [|apply grows_if, grows_pushWarning].
  repeat split; cbn; auto; exists []; now rewrite app_nil_r.
Qed.

Lemma grows_extractDependencies e r : grows r (extractDependencies e r).
Proof.
  unfold extractDependencies.
  destruct (matchAll callPattern e); destruct (matchAll identifierPattern e);
    repeat split; cbn; auto; exists []; now rewrite app_nil_r.
Qed.

Lemma grows_runChecks e r : grows r (runChecks e r).
Proof.
  unfold runChecks.
  eapply grows_trans; [|apply grows_extractDependencies].
  eapply grows_trans; [|apply grows_analyzeComplexity].
  eapply grows_trans; [|apply grows_validateSecurity].
  apply grows_validateSyntax.
Qed.


(** ** Denied constructs *)




(** ** The complexity score *)

Lemma commonFunctionPattern_words :
  commonFunctionPattern = wordsPattern (map lit commonFunctions).
Proof. reflexivity. Qed.

Lemma expensiveFunctionPattern_words :
  expensiveFunctionPattern = wordsPattern (map lit expensiveFunctions).
Proof. reflexivity. Qed.

Lemma commonFunctions_words : Forall isWord (map lit commonFunctions).
Proof. repeat constructor; discriminate. Qed.

Lemma expensiveFunctions_words : Forall isWord (map lit expensiveFunctions).
Proof. repeat constructor; discriminate. Qed.

Lemma Math_round_comp x y : (x == y)%Q -> Math_round x = Math_round y.
Proof. intros H. unfold Math_round. now rewrite H. Qed.

(** The score the code computes is the weighted sum of the
    specification. *)
Lemma complexityScore_specified e :
  Math_round (complexityScore e) = specifiedComplexity e.
Proof.
  unfold specifiedComplexity. apply Math_round_comp.
  unfold complexityScore, matchCount, ofNat, wholeWordOccurrences.
  unfold operatorPattern, parenPattern.
  change (str "(") with (Cls isOpenParen).
  rewrite !matchAll_cls_count.
  rewrite commonFunctionPattern_words, expensiveFunctionPattern_words.
  rewrite (matchAll_words_count (map lit commonFunctions) e)
    by (try discriminate; apply commonFunctions_words).
  rewrite (matchAll_words_count (map lit expensiveFunctions) e)
    by (try discriminate; apply expensiveFunctions_words).
  change (oneOf "+-*/^%") with isOperatorSymbol.
  ring.
Qed.

Lemma analyzeComplexity_fields e r :
  let score := Math_round (complexityScore e) in
  complexity (analyzeComplexity e r) = score /\
  warnings (analyzeComplexity e r) = warnings r ++ complexityWarnings score /\
  isValid (analyzeComplexity e r) = isValid r /\
  errors (analyzeComplexity e r) = errors r.
Proof.
  intros score. unfold analyzeComplexity, complexityWarnings.
  cbn [complexity setComplexity]. fold score.
  destruct (score >? 100)%Z;
    cbn [pushWarning setComplexity complexity warnings isValid errors];
    destruct (score >? 500)%Z;
    cbn [pushWarning setComplexity complexity warnings isValid errors];
    rewrite ?app_nil_r, <- ?app_assoc; repeat split; reflexivity.
Qed.

Lemma extractDependencies_fields e r :
  complexity (extractDependencies e r) = complexity r /\
  warnings (extractDependencies e r) = warnings r /\
  isValid (extractDependencies e r) = isValid r /\
  errors (extractDependencies e r) = errors r.
Proof.
  unfold extractDependencies.
  destruct (matchAll callPattern e), (matchAll identifierPattern e); cbn; auto.
Qed.

(** ** validateExpression *)

Lemma validateExpression_cached e s cached :
  JsMap.get e (validationCache s) = Some cached ->
  validateExpression e s = (Normal cached, s).
Proof.
  intros H. unfold validateExpression, bind, gets. simpl. now rewrite H.
Qed.

Lemma validateExpression_blank e s :
  JsMap.get e (validationCache s) = None -> isBlank e = true ->
  validateExpression e s =
  (Normal {| objectId := allocated s;
             contents := reject emptyMessage freshResult |},
   withAllocated (S (allocated s)) s).
Proof.
  intros H Hb. unfold validateExpression, bind, gets, modify, ret. simpl.
  now rewrite H, Hb.
Qed.

Lemma validateExpression_new e s :
  JsMap.get e (validationCache s) = None -> isBlank e = false ->
  validateExpression e s =
  (Normal (newResultObject e s),
   withValidationCache (validationCacheAfterInsert e s)
     (withAllocated (S (allocated s)) s)).
Proof.
  intros H Hb. unfold validateExpression, bind, gets, modify, ret.
  cbn -[Nat.leb]. rewrite H, Hb. cbn -[Nat.leb].
  unfold validationCacheAfterInsert, JsMap.size.
  destruct (MAX_CACHE_SIZE <=? length (validationCache s)); reflexivity.
Qed.

(** [validateExpression] never throws; what it returns is [validatedAs],
    and it touches the validation cache and the allocation counter only. *)
Lemma validateExpression_returns e s :
  exists o s',
    validateExpression e s = (Normal o, s') /\
    contents o = validatedAs e s /\
    expressionCache s' = expressionCache s /\
    stats s' = stats s /\ console s' = console s /\ ticks s' = ticks s.
Proof.
  unfold validatedAs.
  destruct (JsMap.get e (validationCache s)) as [cached|] eqn:Hget.
  - exists cached, s. rewrite (validateExpression_cached _ _ _ Hget). auto 10.
  - destruct (isBlank e) eqn:Hb.
    + eexists _, _. rewrite (validateExpression_blank _ _ Hget Hb).
      rewrite (computeValidation_blank _ Hb). simpl. auto 10.
    + eexists _, _. rewrite (validateExpression_new _ _ Hget Hb).
      rewrite (computeValidation_nonblank _ Hb). simpl. auto 10.
Qed.

Lemma validateExpression_invariant e s :
  invariant s -> invariant (snd (validateExpression e s)).
Proof.
  intros [Hec [Hvc Hsize]].
  destruct (JsMap.get e (validationCache s)) as [cached|] eqn:Hget.
  - rewrite (validateExpression_cached _ _ _ Hget). simpl.
    split; [exact Hec|]. split; [exact Hvc|exact Hsize].
  - destruct (isBlank e) eqn:Hb.
    + rewrite (validateExpression_blank _ _ Hget Hb).
      unfold invariant, validationCacheOk. simpl.
      split; [exact Hec|]. split; [|exact Hsize].
      intros k o Hin. apply Hvc in Hin as (? & ? & ?). auto.
    + rewrite (validateExpression_new _ _ Hget Hb).
      unfold invariant, validationCacheOk, validationCacheAfterInsert.
      cbn [snd expressionCache validationCache allocated withValidationCache
           withAllocated].
      split; [exact Hec|]. split.
      * intros k o Hin. apply set_In in Hin as [[Hk Ho]|Hin].
        -- subst k o. cbn [newResultObject contents objectId].
           rewrite (computeValidation_nonblank _ Hb). auto.
        -- destruct (MAX_CACHE_SIZE <=? JsMap.size (validationCache s));
             [destruct Hin|].
           apply Hvc in Hin as (? & ? & ?). auto.
      * destruct (MAX_CACHE_SIZE <=? JsMap.size (validationCache s)) eqn:E.
        -- unfold MAX_CACHE_SIZE. cbn. lia.
        -- apply Nat.leb_gt in E.
           pose proof (set_size e (newResultObject e s) (validationCache s)).
           lia.
Qed.

(** ** The compiled-function cache *)

Lemma deleteEntries_oldest entries n : forall i s,
  i + n <= length entries ->
  expressionCache s = skipn i entries ->
  deleteEntries entries i n s =
  (Normal tt, withExpressionCache (skipn (i + n) entries) s).
Proof.
  induction n as [|n IH]; intros i s Hlen Hcache.
  - simpl. rewrite Nat.add_0_r, <- Hcache. now destruct s.
  - simpl.
    destruct (nth_error entries i) as [[key fn]|] eqn:Hnth.
    2:{ apply nth_error_None in Hnth. lia. }
    unfold bind, modify.
    assert (Hskip : skipn i entries = (key, fn) :: skipn (S i) entries).
    { clear -Hnth. revert i Hnth.
      induction entries as [|x l IHl]; intros [|i] H; simpl in *;
        try discriminate.
      - now injection H as ->.
      - now apply IHl. }
    rewrite IH.
    + simpl. now rewrite Nat.add_succ_r.
    + lia.
    + simpl. rewrite Hcache, Hskip. simpl. now rewrite eqb_refl.
Qed.

Lemma entriesToDelete_value : entriesToDelete = 300.
Proof. reflexivity. Qed.

(** At capacity the oldest [entriesToDelete] entries go, in one sweep. *)
Lemma clearOldestCacheEntries_at_capacity s :
  MAX_CACHE_SIZE <= JsMap.size (expressionCache s) ->
  clearOldestCacheEntries s =
  (Normal tt,
   withExpressionCache (skipn entriesToDelete (expressionCache s)) s).
Proof.
  intros H. unfold clearOldestCacheEntries, bind, gets.
  rewrite deleteEntries_oldest; auto.
  rewrite entriesToDelete_value. unfold MAX_CACHE_SIZE, JsMap.size in *.
  simpl. lia.
Qed.

Lemma cacheAfterInsert_size key fn cache :
  JsMap.size cache <= MAX_CACHE_SIZE ->
  JsMap.size (cacheAfterInsert key fn cache) <= MAX_CACHE_SIZE.
Proof.
  intros H. unfold cacheAfterInsert.
  destruct (MAX_CACHE_SIZE <=? JsMap.size cache) eqn:E.
  - pose proof (set_size key fn (skipn entriesToDelete cache)) as Hs.
    unfold JsMap.size in *. rewrite length_skipn in Hs.
    rewrite entriesToDelete_value in *. unfold MAX_CACHE_SIZE in *. lia.
  - apply Nat.leb_gt in E.
    pose proof (set_size key fn cache). lia.
Qed.

(** ** The steps of evaluate *)

Section Steps.
Variable host : Host.

Lemma handleEvaluationError_run type message s :
  handleEvaluationError host type message s =
  (Normal tt,
   withConsole (console s ++ errorLines host type message s)
     (withTicks (S (ticks s)) s)).
Proof.
  unfold handleEvaluationError, errorLines, bind, Date_now, log, modify.
  cbn. now rewrite <- app_assoc.
Qed.

Lemma updateStats_run startTime fromCache s :
  exists st',
    updateStats host startTime fromCache s =
    (Normal tt, withStats st' (withTicks (S (S (ticks s))) s)) /\
    sameCounters (stats s) st'.
Proof.
  eexists. split.
  - unfold updateStats, bind, performance_now, Date_now, modifyStats, modify.
    cbn. unfold withStats, withTicks. cbn. reflexivity.
  - cbn. repeat split.
Qed.

Lemma compileExpression_run expression s :
  compileExpression host expression s =
  match newFunction host (rewriteExpression expression) with
  | Normal fn => (Normal fn, s)
  | Throw error =>
      (Throw (newError (lit "Failed to compile expression: "
                        ++ thrownMessage error)), s)
  end.
Proof.
  unfold compileExpression, tryCatch, lift, throw.
  now destruct (newFunction host (rewriteExpression expression)).
Qed.

Lemma executeFunction_throws func context s error :
  callCompiled host (S (ticks s)) func context = Throw error ->
  executeFunction host func context s =
  (Throw (newError (lit "Function execution failed: "
                    ++ thrownToString error)),
   withTicks (S (ticks s)) s).
Proof.
  intros H. unfold executeFunction, bind, tryCatch, performance_now, throw.
  cbn. now rewrite H.
Qed.

Lemma executeFunction_returns func context s result :
  callCompiled host (S (ticks s)) func context = Normal result ->
  exists s',
    executeFunction host func context s = (Normal (finiteOrZero result), s') /\
    sameButConsoleAndClock s s' /\
    (console s' = console s \/
     exists executionTime,
       console s' = console s ++ [SlowEvaluationWarning executionTime]).
Proof.
  intros H. unfold executeFunction, bind, tryCatch, performance_now, ret.
  cbn. rewrite H. cbn.
  destruct (Qlt_le_dec _ _); cbn; eexists; (split; [reflexivity|]);
    (split; [repeat split|]); cbn; eauto.
Qed.

Lemma finiteOrZero_finite result : isFiniteNumber (finiteOrZero result) = true.
Proof.
  destruct result as [x|c]; simpl; [|reflexivity].
  destruct (isFiniteNumber x) eqn:E; auto.
Qed.

End Steps.

(** ** The paths of evaluate *)

Section Paths.
Variable host : Host.

Lemma evaluate_unfold e ctx s :
  evaluate host e ctx s =
  tryCatch (evaluateTry host (performanceNow host (ticks s)) e ctx)
    (evaluateCatch host) (afterPrologue s).
Proof. reflexivity. Qed.

Lemma validatedAs_afterPrologue e s :
  validatedAs e (afterPrologue s) = validatedAs e s.
Proof. reflexivity. Qed.

Lemma evaluateTry_rejected startTime e ctx s o s1 :
  validateExpression e s = (Normal o, s1) ->
  isValid (contents o) = false ->
  evaluateTry host startTime e ctx s =
  (Normal zero,
   withConsole
     (console s1 ++
      errorLines host EXPRESSION_EVALUATION_ERROR
        (lit "Invalid expression: " ++ join (lit ", ") (errors (contents o)))
        s1)
     (withTicks (S (ticks s1)) s1)).
Proof.
  intros Hv Hinvalid. unfold evaluateTry. unfold bind at 1.
  rewrite Hv, Hinvalid. cbn [negb]. unfold bind at 1.
  rewrite handleEvaluationError_run. reflexivity.
Qed.

Lemma evaluateTry_hit startTime e ctx s o s1 cached :
  validateExpression e s = (Normal o, s1) ->
  isValid (contents o) = true ->
  JsMap.get (createCacheKey e) (expressionCache s1) = Some cached ->
  evaluateTry host startTime e ctx s =
  bind (updateStats host startTime true)
    (fun _ => executeFunction host cached ctx) s1.
Proof.
  intros Hv Hvalid Hget. unfold evaluateTry. unfold bind at 1.
  rewrite Hv, Hvalid. cbn [negb]. unfold bind at 1, gets at 1.
  now rewrite Hget.
Qed.

Lemma evaluateTry_miss startTime e ctx s o s1 :
  validateExpression e s = (Normal o, s1) ->
  isValid (contents o) = true ->
  JsMap.get (createCacheKey e) (expressionCache s1) = None ->
  evaluateTry host startTime e ctx s =
  match newFunction host (rewriteExpression e) with
  | Throw error =>
      (Throw (newError (lit "Failed to compile expression: "
                        ++ thrownMessage error)), s1)
  | Normal fn =>
      bind (executeFunction host fn ctx)
        (fun result =>
           bind (updateStats host startTime false)
             (fun _ => bind (modifyStats incrSuccessful)
                         (fun _ => ret result)))
        (withExpressionCache
           (cacheAfterInsert (createCacheKey e) fn (expressionCache s1)) s1)
  end.
Proof.
  intros Hv Hvalid Hget. unfold evaluateTry. unfold bind at 1.
  rewrite Hv, Hvalid. cbn [negb]. unfold bind at 1, gets at 1.
  rewrite Hget. unfold bind at 1. rewrite compileExpression_run.
  destruct (newFunction host (rewriteExpression e)) as [fn|error];
    [|reflexivity].
  unfold bind at 1, gets at 1. unfold bind at 1. unfold cacheAfterInsert.
  destruct (MAX_CACHE_SIZE <=? JsMap.size (expressionCache s1)) eqn:E.
  - apply Nat.leb_le in E.
    rewrite clearOldestCacheEntries_at_capacity by exact E.
    reflexivity.
  - reflexivity.
Qed.

Lemma evaluateCatch_run error s :
  evaluateCatch host error s =
  (Normal zero,
   withStats (incrFailed (stats s))
     (withConsole
        (console s ++
         errorLines host EXPRESSION_EVALUATION_ERROR
           (lit "Evaluation failed: " ++ thrownToString error) s)
        (withTicks (S (ticks s)) s))).
Proof.
  unfold evaluateCatch. unfold bind at 1.
  rewrite handleEvaluationError_run. reflexivity.
Qed.
End Paths.

(** Projections of updated states. *)
Tactic Notation "fields" :=
  cbn [fst snd expressionCache validationCache stats console ticks allocated
       withExpressionCache withValidationCache withStats withConsole
       withTicks withAllocated].
Tactic Notation "fields" "in" hyp(H) :=
  cbn [fst snd expressionCache validationCache stats console ticks allocated
       withExpressionCache withValidationCache withStats withConsole
       withTicks withAllocated] in H.

Section Outcomes.
Variable host : Host.

Lemma logged_intro s s' type message :
  type = EXPRESSION_EVALUATION_ERROR ->
  forall s0, console s0 = console s -> 
  console s' = console s0 ++ errorLines host type message s0 ->
  loggedRecoverableError s s'.
Proof.
  intros -> s0 H0 H. unfold loggedRecoverableError, errorLines in *.
  rewrite H0 in H. eauto.
Qed.

(** Every call of [evaluate] takes exactly one of the six paths, and
    what the validator does on the way is what it does on its own. *)
Lemma evaluate_outcome_ex e ctx s :
  exists r s',
    evaluate host e ctx s = (r, s') /\
    Outcome host e ctx s r s' /\
    validationPartAsAfter e s s'.
Proof.
  rewrite evaluate_unfold. unfold tryCatch.
  set (startTime := performanceNow host (ticks s)).
  destruct (validateExpression_returns e (afterPrologue s))
    as (o & s1 & Hv & Ho & Hec & Hst & Hco & Hti).
  rewrite validatedAs_afterPrologue in Ho.
  assert (Hvp : validationCache s1 = validationCache (snd (validateExpression e s))
                /\ allocated s1 = allocated (snd (validateExpression e s))).
  { clear -Hv. unfold validatedAs in *.
    destruct (JsMap.get e (validationCache s)) as [cached|] eqn:Hget.
    - rewrite (validateExpression_cached e s _ Hget).
      rewrite (validateExpression_cached e (afterPrologue s) _ Hget) in Hv.
      injection Hv as _ <-. auto.
    - destruct (isBlank e) eqn:Hb.
      + rewrite (validateExpression_blank e s Hget Hb).
        rewrite (validateExpression_blank e (afterPrologue s) Hget Hb) in Hv.
        injection Hv as _ <-. auto.
      + rewrite (validateExpression_new e s Hget Hb).
        rewrite (validateExpression_new e (afterPrologue s) Hget Hb) in Hv.
        injection Hv as _ <-. auto. }
  change (expressionCache (afterPrologue s)) with (expressionCache s) in Hec.
  change (stats (afterPrologue s)) with (incrTotal (stats s)) in Hst.
  change (console (afterPrologue s)) with (console s) in Hco.
  change (ticks (afterPrologue s)) with (S (ticks s)) in Hti.
  unfold validationPartAsAfter.
  destruct (isValid (contents o)) eqn:Hvalid.
  2:{ (* rejected *)
    rewrite (evaluateTry_rejected host startTime e ctx _ _ _ Hv Hvalid).
    eexists _, _. split; [reflexivity|]. split; [|fields; exact Hvp].
    apply Rejected.
    - unfold rejectedByValidation. congruence.
    - eapply logged_intro with (s0 := s1); [reflexivity|exact Hco|reflexivity].
    - fields. exact Hst.
    - fields. exact Hec. }
  destruct (JsMap.get (createCacheKey e) (expressionCache s1))
    as [cached|] eqn:Hget.
  - (* cache hit *)
    rewrite (evaluateTry_hit host startTime e ctx _ _ _ _ Hv Hvalid Hget).
    rewrite Ho in Hvalid. rewrite Hec in Hget.
    unfold bind.
    destruct (updateStats_run host startTime true s1) as (st' & -> & Hcnt).
    set (s2 := withStats st' (withTicks (S (S (ticks s1))) s1)).
    assert (Htick : S (ticks s2) = ticks s + 4).
    { subst s2. fields. rewrite Hti. lia. }
    rewrite Hst in Hcnt. destruct Hcnt as (H1 & H2 & H3).
    cbn in H1, H2, H3.
    destruct (callCompiled host (S (ticks s2)) cached ctx) as [result|error] eqn:Hcall.
    + destruct (executeFunction_returns host cached ctx s2 _ Hcall)
        as (s3 & -> & (Hec3 & Hvc3 & Hst3 & Hal3) & Hcon3).
      eexists _, _. split; [reflexivity|].
      split; [|rewrite Hvc3, Hal3; exact Hvp].
      rewrite Htick in Hcall.
      eapply Hit with (cached := cached);
        [exact Hvalid|exact Hget|exact Hcall|..].
      * unfold atMostSlowWarning.
        destruct Hcon3 as [-> | [t ->]]; subst s2; fields; rewrite Hco; eauto.
      * rewrite Hst3. subst s2. fields. unfold sameCounters. cbn.
        repeat split; congruence.
      * rewrite Hec3. subst s2. fields. exact Hec.
    + rewrite (executeFunction_throws host cached ctx s2 _ Hcall).
      rewrite evaluateCatch_run.
      eexists _, _. split; [reflexivity|].
      split; [|fields; exact Hvp].
      rewrite Htick in Hcall.
      eapply HitFault with (cached := cached) (error := error);
        [exact Hvalid|exact Hget|exact Hcall|..].
      * eapply logged_intro with (s0 := withTicks (S (ticks s2)) s2);
          [reflexivity| fields; exact Hco |reflexivity].
      * subst s2. fields. unfold sameCounters. cbn.
        repeat split; congruence.
      * fields. exact Hec.
  - (* cache miss *)
    rewrite (evaluateTry_miss host startTime e ctx _ _ _ Hv Hvalid Hget).
    rewrite Ho in Hvalid. rewrite Hec in Hget.
    destruct (newFunction host (rewriteExpression e)) as [fn|error] eqn:Hnew.
    2:{ rewrite evaluateCatch_run.
        eexists _, _. split; [reflexivity|].
        split; [|fields; exact Hvp].
        eapply CompileFailed with (error := error);
          [exact Hvalid|exact Hget|exact Hnew|..].
        - eapply logged_intro with (s0 := s1); [reflexivity|exact Hco|reflexivity].
        - fields. rewrite Hst. reflexivity.
        - fields. exact Hec. }
    set (s2 := withExpressionCache _ s1).
    assert (Htick : S (ticks s2) = ticks s + 2).
    { subst s2. fields. rewrite Hti. lia. }
    assert (Hcache2 : expressionCache s2 =
              cacheAfterInsert (createCacheKey e) fn (expressionCache s)).
    { subst s2. fields. rewrite Hec. reflexivity. }
    assert (Hst2 : stats s2 = incrTotal (stats s)).
    { subst s2. fields. exact Hst. }
    assert (Hco2 : console s2 = console s).
    { subst s2. fields. exact Hco. }
    assert (Hvp2 : validationCache s2 = validationCache (snd (validateExpression e s))
                /\ allocated s2 = allocated (snd (validateExpression e s))).
    { subst s2. fields. exact Hvp. }
    clearbody s2.
    unfold bind at 1.
    destruct (callCompiled host (S (ticks s2)) fn ctx) as [result|error] eqn:Hcall.
    + destruct (executeFunction_returns host fn ctx s2 _ Hcall)
        as (s3 & -> & (Hec3 & Hvc3 & Hst3 & Hal3) & Hcon3).
      unfold bind at 1.
      destruct (updateStats_run host startTime false s3) as (st' & -> & Hcnt).
      rewrite Hst3, Hst2 in Hcnt.
      destruct Hcnt as (H1 & H2 & H3). cbn in H1, H2, H3.
      eexists _, _. split; [reflexivity|].
      split; [|fields; rewrite Hvc3, Hal3; exact Hvp2].
      rewrite Htick in Hcall.
      eapply Miss with (fn := fn);
        [exact Hvalid|exact Hget|exact Hnew|exact Hcall|..].
      * unfold atMostSlowWarning.
        destruct Hcon3 as [H4 | [t H4]]; fields; rewrite H4, Hco2; eauto.
      * fields. unfold sameCounters. cbn.
        repeat split; congruence.
      * fields. rewrite Hec3. exact Hcache2.
    + rewrite (executeFunction_throws host fn ctx s2 _ Hcall).
      rewrite evaluateCatch_run.
      eexists _, _. split; [reflexivity|].
      split; [|fields; exact Hvp2].
      rewrite Htick in Hcall.
      eapply MissFault with (fn := fn) (error := error);
        [exact Hvalid|exact Hget|exact Hnew|exact Hcall|..].
      * eapply logged_intro with (s0 := withTicks (S (ticks s2)) s2);
          [reflexivity| fields; exact Hco2 |reflexivity].
      * fields. rewrite Hst2. repeat split.
      * fields. exact Hcache2.
Qed.

Lemma evaluate_outcome e ctx s :
  Outcome host e ctx s (fst (evaluate host e ctx s))
    (snd (evaluate host e ctx s)) /\
  validationPartAsAfter e s (snd (evaluate host e ctx s)).
Proof.
  destruct (evaluate_outcome_ex e ctx s) as (r & s' & -> & H). exact H.
Qed.
End Outcomes.

(** ** The failure counter *)

(** The [try] block of [evaluate] never touches [failedEvaluations]. *)
Lemma evaluateTry_failed_unchanged host startTime e ctx s :
  failedEvaluations (stats (snd (evaluateTry host startTime e ctx s))) =
  failedEvaluations (stats s).
Proof.
  destruct (validateExpression_returns e s)
    as (o & s1 & Hv & Ho & Hec & Hst & Hco & Hti).
  destruct (isValid (contents o)) eqn:Hvalid.
  2:{ rewrite (evaluateTry_rejected host startTime e ctx _ _ _ Hv Hvalid).
      fields. now rewrite Hst. }
  destruct (JsMap.get (createCacheKey e) (expressionCache s1))
    as [cached|] eqn:Hget.
  - rewrite (evaluateTry_hit host startTime e ctx _ _ _ _ Hv Hvalid Hget).
    unfold bind.
    destruct (updateStats_run host startTime true s1) as (st' & -> & (_ & _ & H3)).
    set (s2 := withStats st' (withTicks (S (S (ticks s1))) s1)).
    assert (H2 : failedEvaluations (stats s2) = failedEvaluations (stats s))
      by (subst s2; fields; congruence).
    clearbody s2.
    destruct (callCompiled host (S (ticks s2)) cached ctx) as [result|error] eqn:Hcall.
    + destruct (executeFunction_returns host cached ctx s2 _ Hcall)
        as (s3 & -> & (_ & _ & Hst3 & _) & _).
      fields. congruence.
    + rewrite (executeFunction_throws host cached ctx s2 _ Hcall).
      fields. exact H2.
  - rewrite (evaluateTry_miss host startTime e ctx _ _ _ Hv Hvalid Hget).
    destruct (newFunction host (rewriteExpression e)) as [fn|error] eqn:Hnew.
    2:{ fields. now rewrite Hst. }
    set (s2 := withExpressionCache _ s1).
    assert (H2 : failedEvaluations (stats s2) = failedEvaluations (stats s))
      by (subst s2; fields; congruence).
    clearbody s2. unfold bind at 1.
    destruct (callCompiled host (S (ticks s2)) fn ctx) as [result|error] eqn:Hcall.
    + destruct (executeFunction_returns host fn ctx s2 _ Hcall)
        as (s3 & -> & (_ & _ & Hst3 & _) & _).
      unfold bind at 1.
      destruct (updateStats_run host startTime false s3) as (st' & -> & (_ & _ & H3)).
      cbn. congruence.
    + rewrite (executeFunction_throws host fn ctx s2 _ Hcall).
      fields. exact H2.
Qed.

(** ** The statistics report *)

Lemma getEvaluationStats_run host s :
  exists report s',
    getEvaluationStats host s = (Normal report, s') /\
    reported report = stats s /\
    successRate report =
      (if (totalEvaluations (stats s) >? 0)%Z
       then (inject_Z (successfulEvaluations (stats s))
             / inject_Z (totalEvaluations (stats s)) * 100)%Q
       else 0%Q) /\
    expressionCache s' = expressionCache s /\
    validationCache s' = validationCache s /\
    allocated s' = allocated s.
Proof.
  unfold getEvaluationStats, bind, gets, Date_now, ret.
  cbn [stats withTicks ticks].
  destruct (dateNow host (ticks s) - lastEvaluationTime (stats s) <? 10000)%Z;
    eexists _, _; (split; [reflexivity|]); repeat split; reflexivity.
Qed.

(** ** Reachable states satisfy the invariant *)

Section Reachability.
Variable host : Host.

Lemma invariant_initial : invariant initialState.
Proof.
  unfold invariant, validationCacheOk, MAX_CACHE_SIZE. cbn.
  split; [lia|]. split; [|lia]. intros k o [].
Qed.

Lemma evaluate_invariant e ctx s :
  invariant s -> invariant (snd (evaluate host e ctx s)).
Proof.
  intros Hinv.
  destruct (evaluate_outcome host e ctx s) as [Hout [Hvc Hal]].
  pose proof (validateExpression_invariant e s Hinv) as [_ Hv].
  destruct Hinv as [Hec _].
  unfold invariant. rewrite Hvc, Hal. split; [|exact Hv].
  inversion Hout; subst;
    match goal with
    | H : expressionCache _ = _ |- _ => rewrite H
    end;
    solve [exact Hec | apply cacheAfterInsert_size; exact Hec].
Qed.

Lemma perform_invariant c s : invariant s -> invariant (perform host c s).
Proof.
  intros Hinv. destruct c as [e|e ctx| | | | |]; cbn [perform].
  - now apply validateExpression_invariant.
  - now apply evaluate_invariant.
  - unfold invariant, validationCacheOk, MAX_CACHE_SIZE. cbn.
    split; [lia|]. split; [|lia]. intros k o [].
  - exact Hinv.
  - exact Hinv.
  - destruct (getEvaluationStats_run host s)
      as (report & s' & -> & _ & _ & (H1 & H2 & H3)).
    unfold invariant in *. cbn [snd]. now rewrite H1, H2, H3.
  - exact Hinv.
Qed.

Lemma reachable_invariant s : reachable host s -> invariant s.
Proof.
  induction 1 as [|s c _ IH]; [apply invariant_initial|].
  now apply perform_invariant.
Qed.

Lemma reachable_performAll calls : forall s,
  reachable host s -> reachable host (performAll host calls s).
Proof.
  unfold performAll.
  induction calls as [|c calls IH]; intros s H; cbn; [exact H|].
  apply IH. now apply reachable_step.
Qed.

(** In a reachable state the validator's answer is the computed one. *)
Lemma reachable_validatedAs s e :
  reachable host s -> validatedAs e s = computeValidation e.
Proof.
  intros H. apply reachable_invariant in H as [_ [Hvc _]].
  unfold validatedAs.
  destruct (JsMap.get e (validationCache s)) as [cached|] eqn:Hget;
    [|reflexivity].
  apply get_In in Hget. apply Hvc in Hget. tauto.
Qed.

End Reachability.

(** ** Generated code that keeps to itself *)

Section Isolation.
Variable host : Host.
Variable run :
  SharedRealm.Realm -> nat -> jsstring -> EvaluationContext ->
  option (completion jsvalue * SharedRealm.Realm).












End Isolation.


(** ** C1 *)




(** Once the clock function is gone, a call of [evaluate] for a text that
    the validator rejects throws as well. *)
Example later_calls_throw :
  exists world',
    SharedRealm.evaluate sampleHost SharedRealm.browserRun
      (lit "eval(1)") plainContext
      (SharedRealm.inRealm
         {| SharedRealm.performanceNowIsFunction := true;
            SharedRealm.dateNowIsFunction := false;
            SharedRealm.otherBuiltinsIntact := true |}
         initialState)
    = Some (Throw (typeError "Date.now is not a function"), world').
Proof. eexists. vm_compute. reflexivity. Qed.

(** A call of [evaluate] need not return: the text [endlessLoop] passes
    validation, and the call of the function built around it has no
    end. *)
Example evaluate_may_not_return :
  isValid (computeValidation SharedRealm.endlessLoop) = true /\
  SharedRealm.evaluate sampleHost SharedRealm.browserRun
    SharedRealm.endlessLoop plainContext
    (SharedRealm.inRealm SharedRealm.pristine initialState)
  = None.
Proof. split; vm_compute; reflexivity. Qed.

(** Each of the failure paths is taken by some call. *)
Example rejection_is_possible :
  rejectedByValidation (lit "eval(1)") initialState.
Proof. reflexivity. Qed.

Example compile_failure_is_possible :
  failsToCompile refusingHost (lit "1 +") initialState.
Proof.
  repeat split. eexists. reflexivity.
Qed.

Example escaping_fault_is_possible :
  SharedRealm.faultEscapes sampleHost SharedRealm.faultyRun
    (lit "1 + 1") plainContext initialState.
Proof.
  split; [reflexivity|]. eexists _, _. split; reflexivity.
Qed.

Example swallowed_fault_is_possible :
  SharedRealm.faultIsSwallowed sampleHost (lit "x") plainContext initialState.
Proof.
  split; [reflexivity|]. eexists _, _, _. repeat split.
Qed.

(** ** C2 *)

Lemma x_compiles host :
  newFunction host (rewriteExpression (lit "x")) =
  Normal {| safeExpression := lit "x" |}.
Proof.
  assert (H : rewriteExpression (lit "x") = lit "x") by (vm_compute; reflexivity).
  rewrite H. reflexivity.
Qed.

(** Inside the generated function [x] is looked up among the bindings, where the
    context's entry of that name is not: without a global of that name
    the lookup throws and the function returns 0. *)
Lemma callCompiled_x host tick ctx :
  globalBinding host (lit "x") = None ->
  callCompiled host tick {| safeExpression := lit "x" |} ctx =
  Normal (VNumber zero).
Proof.
  intros Hglobal. unfold callCompiled.
  assert (H : identifierReference (lit "x") = Some (lit "x"))
    by (vm_compute; reflexivity).
  cbn [safeExpression]. rewrite H.
  unfold resolveIdentifier. cbn -[globalBinding] in Hglobal |- *.
  now rewrite Hglobal.
Qed.

(** C2, on the code. Under a host with no global binding named [x],
    evaluating the valid text [x] from the initial state yields 0 whatever
    the context binds [x] to: the generated function gathers the extra
    entries of the context in the object [vars] and never makes them
    bindings. *)
Theorem C2_extra_variable_is_not_bound
    (host : Host) (ctx : EvaluationContext) :
  globalBinding host (lit "x") = None ->
  fst (evaluate host (lit "x") ctx initialState) = Normal zero.
Proof.
  intros Hglobal.
  destruct (evaluate_outcome_ex host (lit "x") ctx initialState)
    as (r & s' & -> & Hout & _).
  cbn [fst].
  destruct Hout as
    [s1 Hrej _ _ _
    |s1 error _ _ Hnew _ _ _
    |s1 cached error _ Hget _ _ _ _
    |s1 fn error _ _ Hnew Hcall _ _ _
    |s1 cached result _ Hget _ _ _ _
    |s1 fn result _ _ Hnew Hcall _ _ _]; try reflexivity.
  - discriminate Hget.
  - rewrite x_compiles in Hnew. injection Hnew as <-.
    rewrite (callCompiled_x host _ ctx Hglobal) in Hcall.
    now injection Hcall as <-.
Qed.

Lemma C2_witness :
  getProperty (lit "x") sampleContext = Some (Finite 5) /\
  fst (evaluate sampleHost (lit "x") sampleContext initialState) = Normal zero.
Proof.
  split; [reflexivity|].
  exact (C2_extra_variable_is_not_bound sampleHost sampleContext eq_refl).
Defined.

(** ** C3 *)

Lemma callCompiled_t host tick ctx :
  callCompiled host tick {| safeExpression := lit "t" |} ctx =
  Normal (VNumber (finiteOrZero (VNumber (orZero (getProperty (lit "t") ctx))))).
Proof.
  unfold callCompiled. cbn.
  destruct (orZero _); reflexivity.
Qed.

Lemma finiteOrZero_idempotent v :
  finiteOrZero (VNumber (finiteOrZero v)) = finiteOrZero v.
Proof.
  destruct v as [x|c]; [|reflexivity]. cbn.
  destruct (isFiniteNumber x) eqn:E; cbn; [now rewrite E|reflexivity].
Qed.

Lemma t_is_valid :
  isValid (validatedAs (lit "t") initialState) = true.
Proof. vm_compute. reflexivity. Qed.

Lemma t_compiles host :
  newFunction host (rewriteExpression (lit "t")) =
  Normal {| safeExpression := lit "t" |}.
Proof.
  assert (H : rewriteExpression (lit "t") = lit "t") by (vm_compute; reflexivity).
  rewrite H. reflexivity.
Qed.

Lemma t_validation_cached :
  JsMap.get (lit "t")
    (validationCache (snd (validateExpression (lit "t") initialState))) =
  Some {| objectId := 0; contents := validatedAs (lit "t") initialState |}.
Proof. vm_compute. reflexivity. Qed.

(** C3, on the code. Evaluate the valid text [t] twice, from the initial
    state, under any host and any context. Neither call fails: each
    returns the value of [t]. The first call compiles the text and counts
    as a success; the second is answered from the compiled-function cache
    and is not counted: the statistics then show two evaluations, one
    success, no failure, and [getEvaluationStats] reports a success rate of
    50, not 100. *)
Theorem C3_cache_hit_is_not_counted_as_success
    (host : Host) (ctx : EvaluationContext) :
  let value := finiteOrZero (VNumber (orZero (getProperty (lit "t") ctx))) in
  let s1 := snd (evaluate host (lit "t") ctx initialState) in
  let s2 := snd (evaluate host (lit "t") ctx s1) in
  fst (evaluate host (lit "t") ctx initialState) = Normal value /\
  fst (evaluate host (lit "t") ctx s1) = Normal value /\
  totalEvaluations (stats s2) = 2%Z /\
  successfulEvaluations (stats s2) = 1%Z /\
  failedEvaluations (stats s2) = 0%Z /\
  exists report s3,
    getEvaluationStats host s2 = (Normal report, s3) /\
    (successRate report == 50)%Q /\
    ~ (successRate report == 100)%Q.
Proof.
  intros value s1 s2. subst value s1 s2.
  set (value := finiteOrZero (VNumber (orZero (getProperty (lit "t") ctx)))).
  assert (Hvalue : forall tick,
            callCompiled host tick {| safeExpression := lit "t" |} ctx =
            Normal (VNumber value)) by (intros; apply callCompiled_t).
  assert (Hidem : finiteOrZero (VNumber value) = value)
    by apply finiteOrZero_idempotent.
  clearbody value.
  (* the first call misses the cache *)
  destruct (evaluate_outcome_ex host (lit "t") ctx initialState)
    as (r1 & s1 & -> & Hout1 & Hvc1 & _).
  cbn [fst snd].
  assert (Hfirst :
            r1 = Normal value /\
            sameCounters (incrSuccessful (incrTotal initialStats)) (stats s1) /\
            expressionCache s1 = [(lit "t", {| safeExpression := lit "t" |})]).
  { destruct Hout1 as
      [s1 Hrej _ _ _
      |s1 error _ _ Hnew _ _ _
      |s1 cached error _ Hget _ _ _ _
      |s1 fn error _ _ Hnew Hcall _ _ _
      |s1 cached result _ Hget _ _ _ _
      |s1 fn result _ _ Hnew Hcall _ Hcnt Hcache].
    - unfold rejectedByValidation in Hrej. rewrite t_is_valid in Hrej.
      discriminate Hrej.
    - rewrite t_compiles in Hnew. discriminate Hnew.
    - discriminate Hget.
    - rewrite t_compiles in Hnew. injection Hnew as <-.
      rewrite Hvalue in Hcall. discriminate Hcall.
    - discriminate Hget.
    - rewrite t_compiles in Hnew. injection Hnew as <-.
      rewrite Hvalue in Hcall. injection Hcall as <-.
      rewrite Hidem.
      split; [reflexivity|]. split; [exact Hcnt|exact Hcache]. }
  destruct Hfirst as (-> & (Ht1 & Hs1 & Hf1) & Hec1).
  cbn in Ht1, Hs1, Hf1.
  (* the second call hits it *)
  destruct (evaluate_outcome_ex host (lit "t") ctx s1)
    as (r2 & s2 & -> & Hout2 & _).
  cbn [fst snd].
  assert (Hvalid2 : isValid (validatedAs (lit "t") s1) = true).
  { unfold validatedAs. rewrite Hvc1, t_validation_cached. exact t_is_valid. }
  assert (Hkey : createCacheKey (lit "t") = lit "t") by reflexivity.
  assert (Hsecond :
            r2 = Normal value /\
            sameCounters (incrTotal (stats s1)) (stats s2)).
  { destruct Hout2 as
      [s2 Hrej _ _ _
      |s2 error _ Hget _ _ _ _
      |s2 cached error _ Hget Hcall _ _ _
      |s2 fn error _ Hget _ _ _ _ _
      |s2 cached result _ Hget Hcall _ Hcnt _
      |s2 fn result _ Hget _ _ _ _ _];
      try (unfold rejectedByValidation in Hrej; congruence);
      rewrite Hkey, Hec1 in Hget; cbn in Hget; try discriminate Hget;
      injection Hget as <-; rewrite Hvalue in Hcall;
      try discriminate Hcall.
    injection Hcall as <-. rewrite Hidem.
    split; [reflexivity|exact Hcnt]. }
  destruct Hsecond as (-> & (Ht2 & Hs2 & Hf2)).
  cbn in Ht2, Hs2, Hf2.
  assert (Htotal : totalEvaluations (stats s2) = 2%Z) by lia.
  assert (Hsucc : successfulEvaluations (stats s2) = 1%Z) by lia.
  assert (Hfail : failedEvaluations (stats s2) = 0%Z) by lia.
  split; [reflexivity|]. split; [reflexivity|].
  repeat (split; [assumption|]).
  destruct (getEvaluationStats_run host s2) as (report & s3 & Hrun & _ & Hrate & _).
  exists report, s3. split; [exact Hrun|].
  rewrite Hrate, Htotal, Hsucc. split; [reflexivity|discriminate].
Qed.

(** ** C4 *)




(** Other denied constructs that no pattern matches: a function
    declaration with a name, a conditional expression, a global reached
    through [globalThis]. *)
Example unmatched_constructs_are_valid :
  Forall (fun e => isValid (computeValidation e) = true
                   /\ errors (computeValidation e) = [])
    (map lit [ "(function valueOf(){ return 7 })()";
               "t > 0 ? 1 : 2";
               "globalThis.x" ]%string).
Proof. repeat constructor. Qed.

(** ** C5 *)



(** ** The caches at work *)

(** Evaluating 1001 distinct valid texts in a row fills the
    compiled-function cache once: the 1001st insertion finds 1000 entries,
    drops the 300 oldest and leaves 701. *)
Example cache_after_1001_expressions :
  JsMap.size
    (expressionCache
       (performAll sampleHost
          (map (fun n => CallEvaluate (digitsOf n) plainContext) (seq 0 1001))
          initialState))
  = 701.
Proof. vm_compute. reflexivity. Qed.

(** ** C6 *)

(** C6, as the code has it. Only the compiled-function map is keyed by the
    trimmed text. [validateExpression] looks a text that is not blank up
    under the text itself and stores its result there, and under no other
    key; [evaluate] looks a valid text up under its trimmed form (a call
    that finds an entry there adds nothing) and stores a newly compiled
    function there, and under no other key. So texts that differ only in
    leading or trailing white space share one compiled function but have
    validation entries of their own, and texts whose trimmed forms differ
    never share an entry. *)
Theorem C6_cache_keys
    (host : Host) (s : State) (e : jsstring) (ctx : EvaluationContext) :
  reachable host s ->
  whiteSpaceOnly e = false ->
  (let s' := snd (validateExpression e s) in
   JsMap.has e (validationCache s') = true /\
   (JsMap.has e (validationCache s) = true -> s' = s) /\
   (forall k, JsMap.has k (validationCache s') = true ->
              k = e \/ JsMap.has k (validationCache s) = true)) /\
  (isValid (computeValidation e) = true ->
   let s' := snd (evaluate host e ctx s) in
   (JsMap.has (trim e) (expressionCache s) = true ->
    expressionCache s' = expressionCache s) /\
   (forall fn,
      JsMap.has (trim e) (expressionCache s) = false ->
      newFunction host (rewriteExpression e) = Normal fn ->
      JsMap.get (trim e) (expressionCache s') = Some fn) /\
   (forall k, JsMap.has k (expressionCache s') = true ->
              k = trim e \/ JsMap.has k (expressionCache s) = true)).
Proof.
  intros Hreach Hws. rewrite <- isBlank_whiteSpaceOnly in Hws. split.
  - cbn zeta.
    destruct (JsMap.get e (validationCache s)) as [cached|] eqn:Hget.
    + rewrite (validateExpression_cached e s _ Hget). fields.
      assert (Hhas : JsMap.has e (validationCache s) = true)
        by (apply has_get; eauto).
      auto.
    + rewrite (validateExpression_new e s Hget Hws). fields.
      unfold validationCacheAfterInsert. split; [|split].
      * apply has_get. eexists. apply get_set_same.
      * unfold JsMap.has. rewrite Hget. discriminate.
      * intros k Hk. apply has_set in Hk as [->|Hk]; [now left|right].
        destruct (MAX_CACHE_SIZE <=? JsMap.size (validationCache s));
          [discriminate|exact Hk].
  - intros Hvalid s'.
    rewrite <- (reachable_validatedAs host s e Hreach) in Hvalid.
    destruct (evaluate_outcome host e ctx s) as [Hout _]. fold s' in Hout.
    unfold createCacheKey in Hout.
    assert (Hkeys : forall fn k,
              JsMap.has k (cacheAfterInsert (trim e) fn (expressionCache s)) = true ->
              k = trim e \/ JsMap.has k (expressionCache s) = true).
    { intros fn k Hk. unfold cacheAfterInsert in Hk.
      apply has_set in Hk as [->|Hk]; [now left|right].
      destruct (MAX_CACHE_SIZE <=? JsMap.size (expressionCache s));
        [now apply has_skipn in Hk|exact Hk]. }
    inversion Hout as
      [s0 Hrej _ _ Hcache E1 E2
      |s0 error _ Hget Hnew _ _ Hcache E1 E2
      |s0 cached error _ Hget _ _ _ Hcache E1 E2
      |s0 fn0 error _ Hget Hnew _ _ _ Hcache E1 E2
      |s0 cached result _ Hget _ _ _ Hcache E1 E2
      |s0 fn0 result _ Hget Hnew _ _ _ Hcache E1 E2];
      try (unfold rejectedByValidation in Hrej; congruence);
      unfold createCacheKey in *; unfold JsMap.has; rewrite Hcache, ?Hget;
      (split; [|split]);
      try (intros; reflexivity); try discriminate;
      try (intros fn _ Hfn; congruence);
      try (intros k Hk; right; exact Hk);
      try (intros fn _ Hfn; unfold cacheAfterInsert;
           replace fn with fn0 by congruence; apply get_set_same);
      try (intros k Hk; apply (Hkeys fn0 k); exact Hk).
Qed.

Lemma C6_witness :
  JsMap.has (lit " t")
    (validationCache (snd (validateExpression (lit " t") initialState))) = true.
Proof.
  exact (proj1 (proj1
           (C6_cache_keys sampleHost initialState (lit " t") plainContext
              (reachable_initial sampleHost) eq_refl))).
Defined.

(** C6 as stated fails for the validation map: the result for the text
    [" t"] is stored under [" t"], not under its trimmed form ["t"], and
    the two texts, which differ only in leading white space, end up with
    one entry each. *)
Lemma C6_counterexample :
  let s1 := snd (validateExpression (lit " t") initialState) in
  let s2 := snd (validateExpression (lit "t") s1) in
  JsMap.keys (validationCache s1) = [lit " t"] /\
  JsMap.has (trim (lit " t")) (validationCache s1) = false /\
  JsMap.keys (validationCache s2) = [lit " t"; lit "t"].
Proof. repeat split. Qed.

(** ** C7 *)

Lemma tooLongMessage_text :
  tooLongMessage = lit "Expression too long (max 2000 characters)".
Proof. reflexivity. Qed.

(** C7, with the two cases kept apart. In every reachable state,
    [validateExpression] on an empty or white-space-only text, however
    long, returns exactly the result with [isValid] false, the single
    error "Expression cannot be empty", no warnings, complexity 0 and no
    functions or variables: no other check has run. On any other text of
    more than 2000 characters the result is invalid, its first error is
    the maximum-length message, and it is what the syntax, security,
    complexity and dependency checks make of the result that already
    carries that error; they can add errors and warnings, as they do for a
    text of 2001 opening parentheses. *)
Theorem C7_empty_short_circuits_overlength_does_not
    (host : Host) (s : State) (e : jsstring) :
  reachable host s ->
  exists o s',
    validateExpression e s = (Normal o, s') /\
    (whiteSpaceOnly e = true ->
     contents o =
       {| isValid := false;
          errors := [lit "Expression cannot be empty"];
          warnings := []; complexity := 0;
          functionsUsed := []; variablesUsed := [] |}) /\
    (whiteSpaceOnly e = false ->
     MAX_EXPRESSION_LENGTH < length e ->
     isValid (contents o) = false /\
     contents o =
       extractDependencies e
         (analyzeComplexity e
            (validateSecurity e
               (validateSyntax e
                  (reject (lit "Expression too long (max 2000 characters)")
                     freshResult)))) /\
     exists more,
       errors (contents o) =
       lit "Expression too long (max 2000 characters)" :: more) /\
    (MAX_EXPRESSION_LENGTH < length manyParentheses /\
     errors (computeValidation manyParentheses) =
       [ lit "Expression too long (max 2000 characters)";
         lit "Unbalanced parentheses";
         lit "Nesting too deep (max 20 levels)" ] /\
     warnings (computeValidation manyParentheses) =
       [ highComplexityWarning; extremeComplexityWarning ]).
Proof.
  intros Hreach.
  destruct (validateExpression_returns e s) as (o & s' & Hv & Ho & _).
  rewrite (reachable_validatedAs host s e Hreach) in Ho.
  exists o, s'. split; [exact Hv|]. split; [|split].
  - intros Hws. rewrite <- isBlank_whiteSpaceOnly in Hws.
    rewrite Ho. now rewrite (computeValidation_blank e Hws).
  - intros Hws Hlen. rewrite <- isBlank_whiteSpaceOnly in Hws.
    rewrite Ho, (computeValidation_nonblank e Hws).
    rewrite <- tooLongMessage_text.
    assert (Hcheck : checkLength e freshResult = reject tooLongMessage freshResult).
    { unfold checkLength. apply Nat.ltb_lt in Hlen. now rewrite Hlen. }
    rewrite Hcheck. fold (runChecks e (reject tooLongMessage freshResult)).
    destruct (grows_runChecks e (reject tooLongMessage freshResult))
      as ([more Hmore] & _ & Hinv).
    split; [apply Hinv; reflexivity|]. split; [reflexivity|].
    exists more. rewrite Hmore. reflexivity.
  - split; [unfold MAX_EXPRESSION_LENGTH, manyParentheses;
            rewrite repeat_length; lia|].
    split; vm_compute; reflexivity.
Qed.

Lemma C7_witness :
  exists o s',
    validateExpression [] initialState = (Normal o, s') /\
    contents o = emptyExpressionResult.
Proof.
  destruct (C7_empty_short_circuits_overlength_does_not sampleHost
              initialState [] (reachable_initial sampleHost))
    as (o & s' & Hv & Hempty & _).
  exists o, s'. split; [exact Hv | exact (Hempty eq_refl)].
Defined.

(** C7 as stated fails on a long text of white space: 2001 spaces are
    more than 2000 characters, yet the result is the one for an empty
    text and carries no maximum-length error. *)
Lemma C7_counterexample :
  MAX_EXPRESSION_LENGTH < length manySpaces /\
  fst (validateExpression manySpaces initialState) =
    Normal {| objectId := 0; contents := emptyExpressionResult |} /\
  errors emptyExpressionResult = [lit "Expression cannot be empty"] /\
  ~ In (lit "Expression too long (max 2000 characters)")
       (errors emptyExpressionResult).
Proof.
  split; [unfold MAX_EXPRESSION_LENGTH, manySpaces; rewrite repeat_length; lia|].
  split; [vm_compute; reflexivity|]. split; [reflexivity|].
  intros [H|[]]. discriminate H.
Qed.

(** ** C8 *)

(** C8, for the texts that reach the complexity analysis. In every
    reachable state, for every text that is not empty or white space only,
    the [complexity] of the result of [validateExpression] is
    round(0.1 * length + 1 * (operator symbols) + 2 * (open parentheses)
    + 3 * (whole-word occurrences of sin, cos, tan, exp, log, pow)
    + 5 * (whole-word occurrences of gamma, hypot)); a score above 100 adds
    the performance warning and a score above 500 adds the stronger one
    after it, to the warnings of the syntax check, and neither touches
    [isValid] or the errors, which stay as the security check left them. *)
Theorem C8_complexity_score (host : Host) (s : State) (e : jsstring) :
  reachable host s ->
  whiteSpaceOnly e = false ->
  exists o s',
    validateExpression e s = (Normal o, s') /\
    complexity (contents o) =
      Math_round
        ((1 # 10) * ofNat (length e)
         + 1 * ofNat (countChars isOperatorSymbol e)
         + 2 * ofNat (countChars isOpenParen e)
         + 3 * ofNat (wholeWordOccurrences
                        ["sin"; "cos"; "tan"; "exp"; "log"; "pow"]%string e)
         + 5 * ofNat (wholeWordOccurrences ["gamma"; "hypot"]%string e))%Q /\
    let score := complexity (contents o) in
    let before :=
      validateSecurity e (validateSyntax e (checkLength e freshResult)) in
    warnings (contents o) =
      warnings before
      ++ (if (score >? 100)%Z
          then [lit "High complexity expression may impact performance"]
          else [])
      ++ (if (score >? 500)%Z
          then [lit "Extremely complex expression may cause significant performance issues"]
          else []) /\
    isValid (contents o) = isValid before /\
    errors (contents o) = errors before.
Proof.
  intros Hreach Hws. rewrite <- isBlank_whiteSpaceOnly in Hws.
  destruct (validateExpression_returns e s) as (o & s' & Hv & Ho & _).
  rewrite (reachable_validatedAs host s e Hreach) in Ho.
  rewrite (computeValidation_nonblank e Hws) in Ho.
  exists o, s'. split; [exact Hv|]. rewrite Ho. unfold runChecks.
  set (before := validateSecurity e (validateSyntax e (checkLength e freshResult))).
  destruct (extractDependencies_fields e (analyzeComplexity e before))
    as (Hc & Hw & Hi & He).
  destruct (analyzeComplexity_fields e before) as (Hc' & Hw' & Hi' & He').
  rewrite Hc, Hw, Hi, He, Hc', Hw', Hi', He'.
  split; [apply complexityScore_specified|].
  cbn zeta. repeat split.
Qed.

Lemma C8_witness :
  exists o s',
    validateExpression (lit "sin(t) + cos(time) * x") initialState
      = (Normal o, s') /\
    complexity (contents o) = 14%Z.
Proof.
  destruct (C8_complexity_score sampleHost initialState
              (lit "sin(t) + cos(time) * x")
              (reachable_initial sampleHost) eq_refl)
    as (o & s' & Hv & Hc & _).
  exists o, s'. split; [exact Hv|]. rewrite Hc. vm_compute. reflexivity.
Defined.

(** C8 as stated fails on a text that never reaches the complexity
    analysis: for five spaces the result is the one for an empty text,
    with complexity 0, while the formula gives round(0.5) = 1. *)
Lemma C8_counterexample :
  fst (validateExpression (lit "     ") initialState) =
    Normal {| objectId := 0; contents := emptyExpressionResult |} /\
  complexity emptyExpressionResult = 0%Z /\
  specifiedComplexity (lit "     ") = 1%Z.
Proof. repeat split. Qed.

(** ** C9 *)

(** C9. When the validator rejects the text, a call of [evaluate] adds one
    to [totalEvaluations] and leaves [successfulEvaluations],
    [failedEvaluations], [averageEvaluationTime], [cacheHitRate] and the
    compiled-function cache as they were. Whatever the text,
    [failedEvaluations] goes up, by one, exactly when the [try] block of
    [evaluate] throws, so that the [catch] block runs; it never moves on a
    rejection. *)
Theorem C9_rejection_counts_total_only
    (host : Host) (e : jsstring) (ctx : EvaluationContext) (s : State) :
  let s' := snd (evaluate host e ctx s) in
  let tried :=
    fst (evaluateTry host (performanceNow host (ticks s)) e ctx
           (afterPrologue s)) in
  (isValid (validatedAs e s) = false ->
   totalEvaluations (stats s') = (totalEvaluations (stats s) + 1)%Z /\
   successfulEvaluations (stats s') = successfulEvaluations (stats s) /\
   failedEvaluations (stats s') = failedEvaluations (stats s) /\
   averageEvaluationTime (stats s') = averageEvaluationTime (stats s) /\
   cacheHitRate (stats s') = cacheHitRate (stats s) /\
   expressionCache s' = expressionCache s /\
   exists x, tried = Normal x) /\
  failedEvaluations (stats s') =
    (failedEvaluations (stats s)
     + match tried with Throw _ => 1 | Normal _ => 0 end)%Z.
Proof.
  intros s' tried. split.
  - intros Hinvalid.
    destruct (evaluate_outcome host e ctx s) as [Hout _]. fold s' in Hout.
    assert (Htried : exists x, tried = Normal x).
    { subst tried.
      destruct (validateExpression_returns e (afterPrologue s))
        as (o & s1 & Hv & Ho & _).
      rewrite validatedAs_afterPrologue in Ho.
      assert (Hi : isValid (contents o) = false) by (rewrite Ho; exact Hinvalid).
      rewrite (evaluateTry_rejected host _ e ctx _ _ _ Hv Hi).
      cbn [fst]. eauto. }
    inversion Hout; subst; try congruence.
    match goal with H : stats s' = _ |- _ => rewrite H end. cbn. auto 10.
  - subst s' tried. rewrite evaluate_unfold. unfold tryCatch.
    pose proof (evaluateTry_failed_unchanged host
                  (performanceNow host (ticks s)) e ctx (afterPrologue s)) as H.
    destruct (evaluateTry host (performanceNow host (ticks s)) e ctx
                (afterPrologue s)) as [[x|error] s1]; cbn [fst snd] in *.
    + rewrite H. cbn. lia.
    + rewrite evaluateCatch_run. fields. cbn. rewrite H. cbn. lia.
Qed.

Lemma C9_witness :
  totalEvaluations
    (stats (snd (evaluate sampleHost (lit "eval(1)") plainContext initialState)))
  = 1%Z /\
  failedEvaluations
    (stats (snd (evaluate sampleHost (lit "eval(1)") plainContext initialState)))
  = 0%Z.
Proof.
  pose proof (C9_rejection_counts_total_only sampleHost (lit "eval(1)")
                plainContext initialState) as [H _].
  specialize (H eq_refl). destruct H as (H1 & _ & H3 & _).
  split; [exact H1 | exact H3].
Defined.

(** ** C10 *)




(** * Further properties of the evaluator *)

(** ** Parentheses *)

Lemma depthAt_0 e : depthAt 0 e = 0%Z.
Proof. reflexivity. Qed.

Lemma depthAt_nil n : depthAt n [] = 0%Z.
Proof. destruct n; reflexivity. Qed.

Lemma paren_exclusive c : isOpenParen c = true -> isCloseParen c = false.
Proof.
  unfold isOpenParen, isCloseParen, isChar. intros H.
  apply N.eqb_eq in H. now subst c.
Qed.

Lemma depthAt_cons n c e :
  depthAt (S n) (c :: e) = (parenStep c + depthAt n e)%Z.
Proof.
  unfold depthAt, countChars, parenStep. cbn [firstn filter].
  destruct (isOpenParen c) eqn:Ho.
  - rewrite (paren_exclusive c Ho). cbn [length]. lia.
  - destruct (isCloseParen c); cbn [length]; lia.
Qed.

Lemma balancedFrom_step count c s :
  balancedFrom count (c :: s) =
  if (count + parenStep c <? 0)%Z then false
  else balancedFrom (count + parenStep c) s.
Proof.
  cbn [balancedFrom]. unfold parenStep.
  change (isChar "(" c) with (isOpenParen c).
  change (isChar ")" c) with (isCloseParen c).
  destruct (isOpenParen c) eqn:Ho.
  - now rewrite (paren_exclusive c Ho).
  - destruct (isCloseParen c).
    + replace (count + -1)%Z with (count - 1)%Z by lia. reflexivity.
    + now rewrite Z.add_0_r.
Qed.

Lemma balancedFrom_prefixes s : forall count,
  (0 <= count)%Z ->
  balancedFrom count s = true <->
  (forall n, 0 <= count + depthAt n s)%Z /\
  (count + depthAt (length s) s = 0)%Z.
Proof.
  induction s as [|c s IH]; intros count Hc.
  - cbn [balancedFrom length]. rewrite Z.eqb_eq. split.
    + intros ->. split; [intros n; rewrite depthAt_nil|rewrite depthAt_nil]; lia.
    + intros [_ H]. rewrite depthAt_nil in H. lia.
  - rewrite balancedFrom_step. cbn [length].
    destruct (count + parenStep c <? 0)%Z eqn:E.
    + apply Z.ltb_lt in E. split; [discriminate|].
      intros [H _]. specialize (H 1). rewrite depthAt_cons, depthAt_0 in H. lia.
    + apply Z.ltb_ge in E. rewrite (IH _ E). rewrite depthAt_cons. split.
      * intros [H1 H2]. split; [|lia].
        intros [|n]; [rewrite depthAt_0; lia|].
        rewrite depthAt_cons. specialize (H1 n). lia.
      * intros [H1 H2]. split; [|lia].
        intros n. specialize (H1 (S n)). rewrite depthAt_cons in H1. lia.
Qed.

Lemma balanced_iff_prefixes e :
  hasBalancedParentheses e = true <->
  (forall n, 0 <= depthAt n e)%Z /\ depthAt (length e) e = 0%Z.
Proof.
  unfold hasBalancedParentheses.
  rewrite (balancedFrom_prefixes e 0 (Z.le_refl 0)). reflexivity.
Qed.

(** X1. The parentheses of a text are balanced, in the eyes of
    [hasBalancedParentheses], exactly when no prefix of the text closes more
    parentheses than it opens and the whole text opens as many as it closes. *)
Theorem hasBalancedParentheses_prefixes (e : jsstring) :
  hasBalancedParentheses e = true <->
  (forall n, 0 <= depthAt n e)%Z /\ depthAt (length e) e = 0%Z.
Proof. exact (balanced_iff_prefixes e). Qed.

Lemma nestingFrom_step maxDepth currentDepth c s :
  nestingFrom maxDepth currentDepth (c :: s) =
  nestingFrom (Z.max maxDepth (currentDepth + parenStep c))
    (currentDepth + parenStep c) s \/
  (parenStep c <= 0)%Z /\
  nestingFrom maxDepth currentDepth (c :: s) =
  nestingFrom maxDepth (currentDepth + parenStep c) s.
Proof.
  cbn [nestingFrom]. unfold parenStep, isOpenParen, isCloseParen.
  destruct (isChar "(" c).
  - now left.
  - right. destruct (isChar ")" c).
    + split; [lia|]. replace (currentDepth + -1)%Z with (currentDepth - 1)%Z by lia.
      reflexivity.
    + split; [lia|]. now rewrite Z.add_0_r.
Qed.

Lemma nestingFrom_prefixes s : forall maxDepth currentDepth,
  (currentDepth <= maxDepth)%Z ->
  let r := nestingFrom maxDepth currentDepth s in
  (forall n, currentDepth + depthAt n s <= r)%Z /\
  (maxDepth <= r)%Z /\
  (r = maxDepth \/ exists n, (currentDepth + depthAt n s)%Z = r).
Proof.
  induction s as [|c s IH]; intros m d Hdm r.
  - subst r. cbn [nestingFrom]. split; [|split; [lia|now left]].
    intros n. rewrite depthAt_nil. lia.
  - destruct (nestingFrom_step m d c s) as [Heq|[Hle Heq]].
    + specialize (IH (Z.max m (d + parenStep c)) (d + parenStep c)%Z
                    ltac:(lia)).
      cbn zeta in IH. subst r. rewrite Heq.
      destruct IH as (H1 & H2 & H3). split; [|split; [lia|]].
      * intros [|n]; [rewrite depthAt_0; lia|].
        rewrite depthAt_cons. specialize (H1 n). lia.
      * destruct H3 as [H3|[n H3]].
        -- destruct (Z.max_spec m (d + parenStep c)) as [[_ Hmax]|[_ Hmax]].
           ++ right. exists 1. rewrite depthAt_cons, depthAt_0. lia.
           ++ left. lia.
        -- right. exists (S n). rewrite depthAt_cons. lia.
    + specialize (IH m (d + parenStep c)%Z ltac:(lia)).
      cbn zeta in IH. subst r. rewrite Heq.
      destruct IH as (H1 & H2 & H3). split; [|split; [lia|]].
      * intros [|n]; [rewrite depthAt_0; lia|].
        rewrite depthAt_cons. specialize (H1 n). lia.
      * destruct H3 as [H3|[n H3]]; [now left|].
        right. exists (S n). rewrite depthAt_cons. lia.
Qed.

Lemma nesting_depth_prefixes e :
  (forall n, depthAt n e <= calculateNestingDepth e)%Z /\
  (exists n, depthAt n e = calculateNestingDepth e).
Proof.
  unfold calculateNestingDepth.
  destruct (nestingFrom_prefixes e 0 0 (Z.le_refl 0)) as (H1 & H2 & H3).
  split.
  - intros n. specialize (H1 n). lia.
  - destruct H3 as [H3|[n H3]].
    + exists 0. rewrite depthAt_0. now rewrite H3.
    + exists n. lia.
Qed.

(** X2. [calculateNestingDepth] is the greatest excess of opening over
    closing parentheses that a prefix of the text reaches: no prefix exceeds
    it and some prefix attains it. *)
Theorem calculateNestingDepth_greatest_prefix (e : jsstring) :
  (forall n, depthAt n e <= calculateNestingDepth e)%Z /\
  (exists n, depthAt n e = calculateNestingDepth e).
Proof. exact (nesting_depth_prefixes e). Qed.

(** ** The errors of a validation, check by check *)

Lemma isNil_app {A} (x y : list A) : isNil (x ++ y) = isNil x && isNil y.
Proof. now destruct x. Qed.

Lemma extendsErrors_refl r : extendsErrors r r [].
Proof.
  split; [now rewrite app_nil_r|]. cbn. now rewrite andb_true_r.
Qed.

Lemma extendsErrors_trans r1 r2 r3 x y :
  extendsErrors r1 r2 x -> extendsErrors r2 r3 y ->
  extendsErrors r1 r3 (x ++ y).
Proof.
  intros [He1 Hv1] [He2 Hv2]. split.
  - now rewrite He2, He1, app_assoc.
  - now rewrite Hv2, Hv1, isNil_app, andb_assoc.
Qed.

Lemma extendsErrors_same r r' :
  errors r' = errors r -> isValid r' = isValid r -> extendsErrors r r' [].
Proof.
  intros He Hv. split; [now rewrite app_nil_r|].
  cbn. now rewrite andb_true_r.
Qed.

Lemma extendsErrors_reject_if (b : bool) msg r :
  extendsErrors r (if b then reject msg r else r) (if b then [msg] else []).
Proof.
  destruct b; [|apply extendsErrors_refl].
  split; [reflexivity|]. cbn. now rewrite andb_false_r.
Qed.

Lemma extendsErrors_fold {A} (cond : A -> bool) (msg : A -> jsstring) l :
  forall r,
    extendsErrors r
      (fold_left (fun r a => if cond a then reject (msg a) r else r) l r)
      (map msg (filter cond l)).
Proof.
  induction l as [|a l IH]; intros r; cbn [fold_left filter map].
  - apply extendsErrors_refl.
  - pose proof (extendsErrors_trans _ _ _ _ _
                  (extendsErrors_reject_if (cond a) (msg a) r) (IH _)) as H.
    destruct (cond a); exact H.
Qed.

Lemma nestingMessage_text :
  lit "Nesting too deep (max " ++ digitsOf (Z.to_nat MAX_NESTING_DEPTH)
  ++ lit " levels)" = nestingMessage.
Proof. reflexivity. Qed.

Lemma validateSyntax_errors e r :
  extendsErrors r (validateSyntax e r) (syntaxErrors e).
Proof.
  unfold validateSyntax, syntaxErrors. rewrite nestingMessage_text.
  fold unbalancedMessage.
  match goal with
  | |- extendsErrors _ (if ?b then pushWarning ?w ?r1 else ?r1) _ =>
      assert (H : extendsErrors r r1 (syntaxErrors e));
      [|destruct b; exact H]
  end.
  unfold syntaxErrors.
  assert (H1 : extendsErrors r
                 (if negb (hasBalancedParentheses e)
                  then reject unbalancedMessage r else r)
                 (if hasBalancedParentheses e then []
                  else [unbalancedMessage])).
  { destruct (hasBalancedParentheses e); cbn [negb];
      [apply extendsErrors_refl
      |exact (extendsErrors_reject_if true unbalancedMessage r)]. }
  exact (extendsErrors_trans _ _ _ _ _ H1 (extendsErrors_reject_if _ _ _)).
Qed.

Lemma map_filter_map {A B C} (f : A -> B) (g : B -> C) (p : B -> bool) l :
  map (fun a => g (f a)) (filter (fun a => p (f a)) l) =
  map g (filter p (map f l)).
Proof.
  induction l as [|a l IH]; [reflexivity|]. cbn [filter map].
  destruct (p (f a)); cbn [map]; now rewrite IH.
Qed.

Lemma validateSecurity_errors e r :
  extendsErrors r (validateSecurity e r)
    (forbiddenErrors e ++ unknownFunctionErrors e).
Proof.
  unfold validateSecurity, forbiddenErrors, unknownFunctionErrors, calledNames.
  eapply extendsErrors_trans.
  - exact (extendsErrors_fold
             (fun pn : regex * jsstring => test (fst pn) e)
             (fun pn : regex * jsstring => forbiddenMessage (snd pn))
             forbiddenPatterns r).
  - rewrite <- (map_filter_map stripCall unknownFunctionMessage
                  (fun name => negb (inSafeMathFunctions name))).
    exact (extendsErrors_fold
             (fun call => negb (inSafeMathFunctions (stripCall call)))
             (fun call => unknownFunctionMessage (stripCall call))
             (matchAll callPattern e) _).
Qed.

Lemma checkLength_errors e r :
  extendsErrors r (checkLength e r) (lengthErrors e).
Proof. apply extendsErrors_reject_if. Qed.

Lemma runChecks_errors e r :
  extendsErrors r (runChecks e r)
    (syntaxErrors e ++ forbiddenErrors e ++ unknownFunctionErrors e).
Proof.
  unfold runChecks.
  set (r1 := validateSyntax e r).
  set (r2 := validateSecurity e r1).
  set (r3 := analyzeComplexity e r2).
  destruct (analyzeComplexity_fields e r2) as (_ & _ & Hv3 & He3).
  destruct (extractDependencies_fields e r3) as (_ & _ & Hv4 & He4).
  assert (H : extendsErrors r2 (extractDependencies e r3) []).
  { apply extendsErrors_same; subst r3; congruence. }
  pose proof (extendsErrors_trans _ _ _ _ _
                (extendsErrors_trans _ _ _ _ _
                   (validateSyntax_errors e r) (validateSecurity_errors e r1))
                H) as H'.
  now rewrite app_nil_r in H'.
Qed.

(** The errors of a text that is not blank are those of the length check,
    of the two parenthesis checks, of the deny-list in its order and of
    the calls in the order of the text; the result is valid when there is
    none. *)
Lemma computeValidation_errors e :
  isBlank e = false ->
  let all := lengthErrors e ++ syntaxErrors e ++ forbiddenErrors e
             ++ unknownFunctionErrors e in
  errors (computeValidation e) = all /\
  isValid (computeValidation e) = isNil all.
Proof.
  intros Hb all. rewrite (computeValidation_nonblank e Hb).
  destruct (extendsErrors_trans _ _ _ _ _
              (checkLength_errors e freshResult)
              (runChecks_errors e (checkLength e freshResult))) as [He Hv].
  subst all. split; [exact He|exact Hv].
Qed.

Lemma computeValidation_valid_iff e :
  isValid (computeValidation e) = true <-> errors (computeValidation e) = [].
Proof.
  destruct (isBlank e) eqn:Hb.
  - rewrite (computeValidation_blank e Hb). cbn. split; discriminate.
  - destruct (computeValidation_errors e Hb) as [-> ->].
    destruct (_ ++ _); cbn; split; congruence.
Qed.

(** In a reachable state [validateExpression] returns the validation of
    the text, whether it comes from the cache or not. *)
Lemma validateExpression_reachable host s e :
  reachable host s ->
  exists o s',
    validateExpression e s = (Normal o, s') /\
    contents o = computeValidation e.
Proof.
  intros Hreach.
  destruct (validateExpression_returns e s) as (o & s' & Heq & Ho & _).
  rewrite (reachable_validatedAs host s e Hreach) in Ho. eauto.
Qed.

(** A text the validator rejects evaluates to 0. *)
Lemma evaluate_invalid host s e ctx :
  reachable host s -> isValid (computeValidation e) = false ->
  fst (evaluate host e ctx s) = Normal zero.
Proof.
  intros Hreach Hv.
  destruct (evaluate_outcome_ex host e ctx s) as (r & s' & -> & Hout & _).
  rewrite <- (reachable_validatedAs host s e Hreach) in Hv.
  cbn [fst]. destruct Hout; try reflexivity; congruence.
Qed.

(** ** Texts without parentheses *)

Lemma whiteSpace_no_paren c :
  isWhiteSpace c = true -> parenStep c = 0%Z.
Proof.
  intros H. unfold parenStep, isOpenParen, isCloseParen, isChar.
  destruct (N.eqb c (N_of_ascii "(")) eqn:Ho;
    [apply N.eqb_eq in Ho; subst c; discriminate|].
  destruct (N.eqb c (N_of_ascii ")")) eqn:Hc;
    [apply N.eqb_eq in Hc; subst c; discriminate|].
  reflexivity.
Qed.

Lemma blank_depthAt e :
  whiteSpaceOnly e = true -> forall n, depthAt n e = 0%Z.
Proof.
  unfold whiteSpaceOnly.
  induction e as [|c e IH]; intros H n; [apply depthAt_nil|].
  cbn [forallb] in H. apply andb_true_iff in H as [Hc He].
  destruct n; [reflexivity|].
  rewrite depthAt_cons, (whiteSpace_no_paren c Hc), (IH He). reflexivity.
Qed.

Lemma blank_balanced e :
  whiteSpaceOnly e = true -> hasBalancedParentheses e = true.
Proof.
  intros H. apply balanced_iff_prefixes.
  split; [intros n|]; rewrite (blank_depthAt e H); lia.
Qed.

Lemma blank_nesting e :
  whiteSpaceOnly e = true -> calculateNestingDepth e = 0%Z.
Proof.
  intros H.
  destruct (nesting_depth_prefixes e) as [_ [n Hn]].
  now rewrite (blank_depthAt e H) in Hn.
Qed.

(** ** Which errors a validation holds *)

Ltac other_message H :=
  first
    [ destruct H as [H|[]]; vm_compute in H; discriminate H
    | apply in_map_iff in H; destruct H as (? & H & _);
      vm_compute in H; discriminate H
    | destruct H ].

Lemma In_unbalancedMessage e :
  In unbalancedMessage
    (lengthErrors e ++ syntaxErrors e ++ forbiddenErrors e
     ++ unknownFunctionErrors e) <->
  hasBalancedParentheses e = false.
Proof.
  unfold lengthErrors, syntaxErrors, forbiddenErrors, unknownFunctionErrors.
  split.
  - intros H. repeat (apply in_app_or in H; destruct H as [H|H]).
    + destruct (_ <? _); other_message H.
    + destruct (hasBalancedParentheses e); [destruct H|reflexivity].
    + destruct (_ >? _)%Z; other_message H.
    + other_message H.
    + other_message H.
  - intros ->. apply in_or_app. right. apply in_or_app. left. now left.
Qed.

Lemma In_nestingMessage e :
  In nestingMessage
    (lengthErrors e ++ syntaxErrors e ++ forbiddenErrors e
     ++ unknownFunctionErrors e) <->
  (calculateNestingDepth e >? MAX_NESTING_DEPTH)%Z = true.
Proof.
  unfold lengthErrors, syntaxErrors, forbiddenErrors, unknownFunctionErrors.
  split.
  - intros H. repeat (apply in_app_or in H; destruct H as [H|H]).
    + destruct (_ <? _); other_message H.
    + destruct (hasBalancedParentheses e); other_message H.
    + destruct (_ >? _)%Z; [reflexivity|destruct H].
    + other_message H.
    + other_message H.
  - intros ->. apply in_or_app. right. apply in_or_app. left.
    apply in_or_app. right. now left.
Qed.

Lemma In_isNil {A} (x : A) l : In x l -> isNil l = false.
Proof. destruct l; [intros []|reflexivity]. Qed.

(** X3. A text whose parentheses are not balanced is rejected, in every
    reachable state, with the error "Unbalanced parentheses", and evaluates
    to 0 in every context; no other text gets that error. *)
Theorem unbalanced_parentheses_are_rejected
    (host : Host) (s : State) (e : jsstring) :
  reachable host s ->
  exists o s',
    validateExpression e s = (Normal o, s') /\
    (In (lit "Unbalanced parentheses") (errors (contents o)) <->
     hasBalancedParentheses e = false) /\
    (hasBalancedParentheses e = false ->
     isValid (contents o) = false /\
     forall ctx, fst (evaluate host e ctx s) = Normal zero).
Proof.
  intros Hreach.
  destruct (validateExpression_reachable host s e Hreach)
    as (o & s' & Heq & Ho).
  exists o, s'. split; [exact Heq|]. rewrite Ho.
  fold unbalancedMessage.
  destruct (isBlank e) eqn:Hb.
  - rewrite (computeValidation_blank e Hb).
    rewrite isBlank_whiteSpaceOnly in Hb.
    rewrite (blank_balanced e Hb). cbn [errors reject setIsValid pushError
                                         freshResult app].
    split; [|discriminate]. split; [|discriminate].
    intros [H|[]]. vm_compute in H. discriminate H.
  - destruct (computeValidation_errors e Hb) as [He Hv]. cbn zeta in He, Hv.
    split; [rewrite He; apply In_unbalancedMessage|].
    intros Hunb. apply In_unbalancedMessage in Hunb.
    assert (Hinvalid : isValid (computeValidation e) = false)
      by (rewrite Hv; exact (In_isNil _ _ Hunb)).
    split; [exact Hinvalid|].
    intros ctx. exact (evaluate_invalid host s e ctx Hreach Hinvalid).
Qed.

Lemma unbalanced_parentheses_witness :
  exists o s',
    validateExpression (lit "sin(t") initialState = (Normal o, s') /\
    (In (lit "Unbalanced parentheses") (errors (contents o)) <->
     hasBalancedParentheses (lit "sin(t") = false) /\
    (hasBalancedParentheses (lit "sin(t") = false ->
     isValid (contents o) = false /\
     forall ctx,
       fst (evaluate sampleHost (lit "sin(t") ctx initialState) = Normal zero).
Proof.
  apply (unbalanced_parentheses_are_rejected sampleHost initialState
           (lit "sin(t")).
  apply reachable_initial.
Defined.

(** X4. A text that nests parentheses more than 20 deep is rejected, in
    every reachable state, with the error "Nesting too deep (max 20
    levels)", and evaluates to 0 in every context; no other text gets that
    error. *)
Theorem deep_nesting_is_rejected
    (host : Host) (s : State) (e : jsstring) :
  reachable host s ->
  exists o s',
    validateExpression e s = (Normal o, s') /\
    (In (lit "Nesting too deep (max 20 levels)") (errors (contents o)) <->
     (20 < calculateNestingDepth e)%Z) /\
    ((20 < calculateNestingDepth e)%Z ->
     isValid (contents o) = false /\
     forall ctx, fst (evaluate host e ctx s) = Normal zero).
Proof.
  intros Hreach.
  destruct (validateExpression_reachable host s e Hreach)
    as (o & s' & Heq & Ho).
  exists o, s'. split; [exact Heq|]. rewrite Ho.
  fold nestingMessage.
  assert (Hgt : (20 < calculateNestingDepth e)%Z <->
                (calculateNestingDepth e >? MAX_NESTING_DEPTH)%Z = true).
  { unfold MAX_NESTING_DEPTH. rewrite Z.gtb_ltb, Z.ltb_lt. reflexivity. }
  rewrite Hgt.
  destruct (isBlank e) eqn:Hb.
  - rewrite (computeValidation_blank e Hb).
    rewrite isBlank_whiteSpaceOnly in Hb.
    rewrite (blank_nesting e Hb).
    cbn [errors reject setIsValid pushError freshResult app].
    split; [|discriminate]. split; [|discriminate].
    intros [H|[]]. vm_compute in H. discriminate H.
  - destruct (computeValidation_errors e Hb) as [He Hv]. cbn zeta in He, Hv.
    split; [rewrite He; apply In_nestingMessage|].
    intros Hdeep. apply In_nestingMessage in Hdeep.
    assert (Hinvalid : isValid (computeValidation e) = false)
      by (rewrite Hv; exact (In_isNil _ _ Hdeep)).
    split; [exact Hinvalid|].
    intros ctx. exact (evaluate_invalid host s e ctx Hreach Hinvalid).
Qed.

Lemma deep_nesting_witness :
  exists o s',
    validateExpression (repeat 40%N 21 ++ repeat 41%N 21) initialState
    = (Normal o, s') /\
    (In (lit "Nesting too deep (max 20 levels)") (errors (contents o)) <->
     (20 < calculateNestingDepth (repeat 40%N 21 ++ repeat 41%N 21))%Z) /\
    ((20 < calculateNestingDepth (repeat 40%N 21 ++ repeat 41%N 21))%Z ->
     isValid (contents o) = false /\
     forall ctx,
       fst (evaluate sampleHost (repeat 40%N 21 ++ repeat 41%N 21) ctx
              initialState) = Normal zero).
Proof.
  apply (deep_nesting_is_rejected sampleHost initialState
           (repeat 40%N 21 ++ repeat 41%N 21)).
  apply reachable_initial.
Defined.

(** X5. In every reachable state the result [validateExpression] returns is
    valid exactly when its list of errors is empty. *)
Theorem valid_exactly_without_errors
    (host : Host) (s : State) (e : jsstring) :
  reachable host s ->
  exists o s',
    validateExpression e s = (Normal o, s') /\
    (isValid (contents o) = true <-> errors (contents o) = []).
Proof.
  intros Hreach.
  destruct (validateExpression_reachable host s e Hreach)
    as (o & s' & Heq & Ho).
  exists o, s'. split; [exact Heq|]. rewrite Ho.
  apply computeValidation_valid_iff.
Qed.

Lemma valid_exactly_without_errors_witness :
  exists o s',
    validateExpression (lit "sin(t)") initialState = (Normal o, s') /\
    (isValid (contents o) = true <-> errors (contents o) = []).
Proof.
  apply (valid_exactly_without_errors sampleHost initialState (lit "sin(t)")).
  apply reachable_initial.
Defined.

(** ** The warnings of a validation *)

Lemma reject_if_warnings (b : bool) msg r :
  warnings (if b then reject msg r else r) = warnings r.
Proof. now destruct b. Qed.

Lemma fold_reject_warnings {A} (cond : A -> bool) (msg : A -> jsstring) l :
  forall r,
    warnings (fold_left (fun r a => if cond a then reject (msg a) r else r) l r)
    = warnings r.
Proof.
  induction l as [|a l IH]; intros r; cbn [fold_left]; [reflexivity|].
  rewrite IH. apply reject_if_warnings.
Qed.

Lemma validateSecurity_warnings e r :
  warnings (validateSecurity e r) = warnings r.
Proof.
  unfold validateSecurity.
  rewrite (fold_reject_warnings
             (fun call => negb (inSafeMathFunctions (stripCall call)))
             (fun call => unknownFunctionMessage (stripCall call))).
  exact (fold_reject_warnings
           (fun pn : regex * jsstring => test (fst pn) e)
           (fun pn : regex * jsstring => forbiddenMessage (snd pn))
           forbiddenPatterns r).
Qed.

Lemma validateSyntax_warnings e r :
  warnings (validateSyntax e r) =
  warnings r ++
  (if existsb (fun pattern => test pattern e) invalidPatterns
   then [syntaxWarning] else []).
Proof.
  unfold validateSyntax. fold syntaxWarning.
  destruct (existsb _ invalidPatterns);
    cbn [warnings pushWarning]; rewrite !reject_if_warnings;
    [reflexivity|now rewrite app_nil_r].
Qed.

Lemma computeValidation_warnings e :
  isBlank e = false ->
  warnings (computeValidation e) =
  (if existsb (fun pattern => test pattern e) invalidPatterns
   then [syntaxWarning] else [])
  ++ complexityWarnings (complexity (computeValidation e)).
Proof.
  intros Hb. rewrite (computeValidation_nonblank e Hb). unfold runChecks.
  set (r0 := checkLength e freshResult).
  set (r1 := validateSyntax e r0).
  set (r2 := validateSecurity e r1).
  set (r3 := analyzeComplexity e r2).
  destruct (analyzeComplexity_fields e r2) as (Hc3 & Hw3 & _ & _).
  destruct (extractDependencies_fields e r3) as (Hc4 & Hw4 & _ & _).
  cbn zeta in Hc3, Hw3. fold r3 in Hc3, Hw3.
  rewrite Hw4, Hc4, Hw3, Hc3. f_equal.
  subst r2 r1 r0.
  rewrite validateSecurity_warnings, validateSyntax_warnings.
  unfold checkLength. now rewrite reject_if_warnings.
Qed.

Lemma existsb_test_occurs e patterns :
  existsb (fun pattern => test pattern e) patterns = true <->
  exists pattern, In pattern patterns /\ occursIn pattern e.
Proof.
  rewrite existsb_exists. split; intros (p & Hin & H); exists p;
    (split; [exact Hin|]); now apply test_occursIn.
Qed.

(** X6. For a text that is not blank, the warning about the syntax is
    issued once, however many of the five suspicious patterns occur in the
    text and however often, and not at all when none occurs; the warnings
    about the complexity follow it. *)
Theorem syntax_warning_is_issued_once
    (host : Host) (s : State) (e : jsstring) :
  reachable host s ->
  whiteSpaceOnly e = false ->
  exists o s',
    validateExpression e s = (Normal o, s') /\
    exists syntax,
      warnings (contents o) =
        syntax ++ complexityWarnings (complexity (contents o)) /\
      ((exists pattern, In pattern invalidPatterns /\ occursIn pattern e) /\
       syntax = [lit "Potentially invalid syntax detected"]
       \/
       ~ (exists pattern, In pattern invalidPatterns /\ occursIn pattern e) /\
       syntax = []).
Proof.
  intros Hreach Hws.
  destruct (validateExpression_reachable host s e Hreach)
    as (o & s' & Heq & Ho).
  exists o, s'. split; [exact Heq|]. rewrite Ho.
  rewrite <- isBlank_whiteSpaceOnly in Hws.
  rewrite (computeValidation_warnings e Hws).
  pose proof (existsb_test_occurs e invalidPatterns) as Hiff.
  destruct (existsb _ invalidPatterns).
  - exists [syntaxWarning]. split; [reflexivity|].
    left. split; [now apply Hiff|reflexivity].
  - exists []. split; [reflexivity|].
    right. split; [|reflexivity]. intros H. apply Hiff in H. discriminate H.
Qed.

Lemma syntax_warning_witness :
  exists o s',
    validateExpression (lit "2t ++ 3t)(") initialState = (Normal o, s') /\
    exists syntax,
      warnings (contents o) =
        syntax ++ complexityWarnings (complexity (contents o)) /\
      ((exists pattern,
          In pattern invalidPatterns /\ occursIn pattern (lit "2t ++ 3t)("))
       /\ syntax = [lit "Potentially invalid syntax detected"]
       \/
       ~ (exists pattern,
            In pattern invalidPatterns /\ occursIn pattern (lit "2t ++ 3t)("))
       /\ syntax = []).
Proof.
  apply (syntax_warning_is_issued_once sampleHost initialState
           (lit "2t ++ 3t)(")).
  - apply reachable_initial.
  - reflexivity.
Defined.

(** ** Functions and variables of a text *)

Lemma inb_In x l : inb x l = true <-> In x l.
Proof.
  unfold inb. rewrite existsb_exists. split.
  - intros (y & Hin & H). apply eqb_eq in H. now subst y.
  - intros H. exists x. split; [exact H|apply eqb_refl].
Qed.

Lemma inb_not_In x l : inb x l = false <-> ~ In x l.
Proof.
  rewrite <- inb_In. destruct (inb x l); split; congruence.
Qed.

Lemma dedupe_acc_In x l : forall seen,
  In x (dedupe_acc seen l) <-> In x l /\ ~ In x seen.
Proof.
  induction l as [|y l IH]; intros seen; cbn [dedupe_acc In]; [tauto|].
  destruct (inb y seen) eqn:E.
  - apply inb_In in E. rewrite IH. split.
    + tauto.
    + intros [[->|H] Hn]; [contradiction|tauto].
  - apply inb_not_In in E. cbn [In]. rewrite IH. cbn [In]. split.
    + intros [->|[H Hn]]; [tauto|]. split; [tauto|]. intros H'. apply Hn. now right.
    + intros [[->|H] Hn]; [now left|].
      destruct (list_eq_dec N.eq_dec y x) as [->|Hne]; [now left|].
      right. split; [exact H|]. intros [H'|H']; [contradiction|contradiction].
Qed.

Lemma dedupe_acc_NoDup l : forall seen, NoDup (dedupe_acc seen l).
Proof.
  induction l as [|y l IH]; intros seen; cbn [dedupe_acc]; [constructor|].
  destruct (inb y seen); [apply IH|].
  constructor; [|apply IH].
  rewrite dedupe_acc_In. intros [_ H]. apply H. now left.
Qed.

Lemma dedupe_In x l : In x (dedupe l) <-> In x l.
Proof. unfold dedupe. rewrite dedupe_acc_In. cbn. tauto. Qed.

Lemma dedupe_NoDup l : NoDup (dedupe l).
Proof. apply dedupe_acc_NoDup. Qed.

Lemma reject_if_dependencies (b : bool) msg r :
  functionsUsed (if b then reject msg r else r) = functionsUsed r /\
  variablesUsed (if b then reject msg r else r) = variablesUsed r.
Proof. now destruct b. Qed.

Lemma fold_reject_dependencies {A} (cond : A -> bool) (msg : A -> jsstring) l :
  forall r,
    let r' :=
      fold_left (fun r a => if cond a then reject (msg a) r else r) l r in
    functionsUsed r' = functionsUsed r /\ variablesUsed r' = variablesUsed r.
Proof.
  induction l as [|a l IH]; intros r; cbn [fold_left]; [split; reflexivity|].
  cbn zeta in *. destruct (IH (if cond a then reject (msg a) r else r))
    as [-> ->].
  apply reject_if_dependencies.
Qed.

Lemma checks_before_dependencies e :
  let r := analyzeComplexity e
             (validateSecurity e
                (validateSyntax e (checkLength e freshResult))) in
  functionsUsed r = [] /\ variablesUsed r = [].
Proof.
  cbn zeta. unfold analyzeComplexity.
  match goal with
  | |- functionsUsed (if ?b then _ else _) = _ /\ _ => destruct b
  end;
  match goal with
  | |- functionsUsed (if ?b then _ else _) = _ /\ _ => destruct b
  | |- functionsUsed (pushWarning _ (if ?b then _ else _)) = _ /\ _ =>
      destruct b
  end;
  cbn [functionsUsed variablesUsed pushWarning setComplexity];
  unfold validateSecurity;
  match goal with
  | |- functionsUsed (fold_left ?f ?l ?r) = _ /\ _ =>
      destruct (fold_reject_dependencies
                  (fun call => negb (inSafeMathFunctions (stripCall call)))
                  (fun call => unknownFunctionMessage (stripCall call))
                  l r) as [-> ->]
  end;
  match goal with
  | |- functionsUsed (fold_left ?f ?l ?r) = _ /\ _ =>
      destruct (fold_reject_dependencies
                  (fun pn : regex * jsstring => test (fst pn) e)
                  (fun pn : regex * jsstring => forbiddenMessage (snd pn))
                  l r) as [-> ->]
  end;
  unfold validateSyntax;
  match goal with
  | |- functionsUsed (if ?b then _ else _) = _ /\ _ => destruct b
  end;
  cbn [functionsUsed variablesUsed pushWarning];
  repeat match goal with
    | |- context [functionsUsed (if ?b then reject ?m ?r else ?r)] =>
        destruct (reject_if_dependencies b m r) as [-> ->]
    end;
  unfold checkLength;
  repeat match goal with
    | |- context [functionsUsed (if ?b then reject ?m ?r else ?r)] =>
        destruct (reject_if_dependencies b m r) as [-> ->]
    end;
  split; reflexivity.
Qed.

(** The two lists [extractDependencies] fills in for a text that is not
    blank. *)
Lemma computeValidation_dependencies e :
  isBlank e = false ->
  functionsUsed (computeValidation e) = dedupe (calledNames e) /\
  variablesUsed (computeValidation e) =
    dedupe
      (filter (fun m => negb (inSafeMathFunctions m)
                        && negb (inb m (dedupe (calledNames e))))
         (matchAll identifierPattern e)).
Proof.
  intros Hb. rewrite (computeValidation_nonblank e Hb). unfold runChecks.
  destruct (checks_before_dependencies e) as [Hf Hv]. cbn zeta in Hf, Hv.
  set (r := analyzeComplexity e _) in *.
  unfold extractDependencies, calledNames.
  destruct (matchAll callPattern e) as [|call calls] eqn:Hcalls;
    destruct (matchAll identifierPattern e) as [|m ms] eqn:Hids;
    cbn [functionsUsed variablesUsed setFunctionsUsed setVariablesUsed
         map filter];
    rewrite ?Hf, ?Hv; split; reflexivity.
Qed.

Lemma filter_nil_forall {A} (p : A -> bool) l :
  filter p l = [] -> forall x, In x l -> p x = false.
Proof.
  induction l as [|a l IH]; intros H x; [intros []|].
  cbn [filter] in H. destruct (p a) eqn:E; [discriminate|].
  intros [->|Hin]; [exact E|now apply IH].
Qed.

Lemma inSafeMathFunctions_In name :
  inSafeMathFunctions name = true <->
  In name SAFE_MATH_FUNCTIONS \/ In name objectPrototypeKeys.
Proof.
  unfold inSafeMathFunctions. now rewrite orb_true_iff, !inb_In.
Qed.

(** X7. Every function a valid result lists in [functionsUsed] is a key of
    the allow-list, its own or one it inherits from [Object.prototype]. *)
Theorem functions_of_a_valid_text_are_allowed
    (host : Host) (s : State) (e : jsstring) :
  reachable host s ->
  exists o s',
    validateExpression e s = (Normal o, s') /\
    (isValid (contents o) = true ->
     forall f, In f (functionsUsed (contents o)) ->
       In f SAFE_MATH_FUNCTIONS \/ In f objectPrototypeKeys).
Proof.
  intros Hreach.
  destruct (validateExpression_reachable host s e Hreach)
    as (o & s' & Heq & Ho).
  exists o, s'. split; [exact Heq|]. rewrite Ho.
  destruct (isBlank e) eqn:Hb.
  - rewrite (computeValidation_blank e Hb). discriminate.
  - destruct (computeValidation_errors e Hb) as [_ Hv]. cbn zeta in Hv.
    destruct (computeValidation_dependencies e Hb) as [Hf _].
    rewrite Hv, Hf. intros Hnil f Hin.
    rewrite !isNil_app in Hnil.
    apply andb_true_iff in Hnil as [_ Hnil].
    apply andb_true_iff in Hnil as [_ Hnil].
    apply andb_true_iff in Hnil as [_ Hnil].
    unfold unknownFunctionErrors in Hnil.
    apply (proj1 (dedupe_In f _)) in Hin. apply inSafeMathFunctions_In.
    destruct (filter _ (calledNames e)) as [|x l] eqn:Hfilter;
      [|discriminate Hnil].
    pose proof (filter_nil_forall _ _ Hfilter f Hin) as H.
    now apply negb_false_iff in H.
Qed.

Lemma functions_of_a_valid_text_witness :
  exists o s',
    validateExpression (lit "sin(t) + toString(t)") initialState
    = (Normal o, s') /\
    (isValid (contents o) = true ->
     forall f, In f (functionsUsed (contents o)) ->
       In f SAFE_MATH_FUNCTIONS \/ In f objectPrototypeKeys).
Proof.
  apply (functions_of_a_valid_text_are_allowed sampleHost initialState
           (lit "sin(t) + toString(t)")).
  apply reachable_initial.
Defined.

(** X8. [functionsUsed] and [variablesUsed] hold no name twice, and no
    variable is an allow-listed name or a name listed as a function. *)
Theorem dependencies_are_distinct
    (host : Host) (s : State) (e : jsstring) :
  reachable host s ->
  exists o s',
    validateExpression e s = (Normal o, s') /\
    NoDup (functionsUsed (contents o)) /\
    NoDup (variablesUsed (contents o)) /\
    forall v, In v (variablesUsed (contents o)) ->
      ~ In v SAFE_MATH_FUNCTIONS /\ ~ In v (functionsUsed (contents o)).
Proof.
  intros Hreach.
  destruct (validateExpression_reachable host s e Hreach)
    as (o & s' & Heq & Ho).
  exists o, s'. split; [exact Heq|]. rewrite Ho.
  destruct (isBlank e) eqn:Hb.
  - rewrite (computeValidation_blank e Hb). cbn.
    repeat split; try constructor; auto.
  - destruct (computeValidation_dependencies e Hb) as [-> ->].
    split; [apply dedupe_NoDup|]. split; [apply dedupe_NoDup|].
    intros v Hin. apply (proj1 (dedupe_In v _)) in Hin.
    apply filter_In in Hin as [_ Hin].
    apply andb_true_iff in Hin as [Hsafe Hfun].
    apply negb_true_iff in Hsafe, Hfun. split.
    + intros H.
      assert (inSafeMathFunctions v = true)
        by (apply inSafeMathFunctions_In; now left).
      congruence.
    + now apply inb_not_In.
Qed.

Lemma dependencies_are_distinct_witness :
  exists o s',
    validateExpression (lit "sin(t) + sin(x) + x * sin") initialState
    = (Normal o, s') /\
    NoDup (functionsUsed (contents o)) /\
    NoDup (variablesUsed (contents o)) /\
    forall v, In v (variablesUsed (contents o)) ->
      ~ In v SAFE_MATH_FUNCTIONS /\ ~ In v (functionsUsed (contents o)).
Proof.
  apply (dependencies_are_distinct sampleHost initialState
           (lit "sin(t) + sin(x) + x * sin")).
  apply reachable_initial.
Defined.

(** ** The validation cache hands the same object out again *)

(** X9. Validating a text that is not blank a second time, right after the
    first, returns the very same result object and leaves the state as it
    is, in any state of the caches. *)
Theorem validation_is_served_from_the_cache (s : State) (e : jsstring) :
  whiteSpaceOnly e = false ->
  exists o s1,
    validateExpression e s = (Normal o, s1) /\
    validateExpression e s1 = (Normal o, s1).
Proof.
  intros Hws. rewrite <- isBlank_whiteSpaceOnly in Hws.
  destruct (JsMap.get e (validationCache s)) as [cached|] eqn:Hget.
  - exists cached, s. now rewrite (validateExpression_cached e s cached Hget).
  - rewrite (validateExpression_new e s Hget Hws).
    eexists _, _. split; [reflexivity|].
    apply validateExpression_cached. cbn [validationCache withValidationCache].
    unfold validationCacheAfterInsert. apply get_set_same.
Qed.

Lemma validation_is_served_from_the_cache_witness :
  exists o s1,
    validateExpression (lit "sin(t)") initialState = (Normal o, s1) /\
    validateExpression (lit "sin(t)") s1 = (Normal o, s1).
Proof.
  apply (validation_is_served_from_the_cache initialState (lit "sin(t)")).
  reflexivity.
Defined.

(** ** The counters *)

Lemma getEvaluationStats_stats host s :
  stats (snd (getEvaluationStats host s)) = stats s.
Proof.
  unfold getEvaluationStats, bind, gets, Date_now, ret.
  cbn [stats withTicks ticks].
  destruct (dateNow host (ticks s) - lastEvaluationTime (stats s) <? 10000)%Z;
    reflexivity.
Qed.

Lemma countersOk_sameCounters st st' :
  sameCounters st st' -> countersOk st -> countersOk st'.
Proof.
  unfold sameCounters, countersOk. intros (-> & -> & ->). auto.
Qed.

Lemma evaluate_countersOk host e ctx s :
  countersOk (stats s) -> countersOk (stats (snd (evaluate host e ctx s))).
Proof.
  intros Hok.
  destruct (evaluate_outcome_ex host e ctx s) as (r & s' & -> & Hout & _).
  cbn [snd]. unfold countersOk in Hok.
  destruct Hout;
    repeat match goal with
      | H : stats _ = _ |- _ => rewrite H
      | H : sameCounters _ _ |- _ =>
          apply (countersOk_sameCounters _ _ H)
      end;
    unfold countersOk; cbn; lia.
Qed.

Lemma perform_countersOk host c s :
  countersOk (stats s) -> countersOk (stats (perform host c s)).
Proof.
  intros Hok. destruct c as [e|e ctx| | | | |]; cbn [perform].
  - destruct (validateExpression_returns e s)
      as (o & s' & Heq & _ & _ & Hst & _).
    rewrite Heq. cbn [snd]. now rewrite Hst.
  - now apply evaluate_countersOk.
  - exact Hok.
  - unfold countersOk. cbn. lia.
  - exact Hok.
  - now rewrite getEvaluationStats_stats.
  - exact Hok.
Qed.

Lemma reachable_countersOk host s :
  reachable host s -> countersOk (stats s).
Proof.
  induction 1 as [|s c _ IH].
  - unfold countersOk. cbn. lia.
  - exact (perform_countersOk host c s IH).
Qed.

(** X10. In every reachable state the counters of successes and failures are
    not negative and together do not exceed the counter of evaluations. *)
Theorem counters_are_consistent (host : Host) (s : State) :
  reachable host s ->
  (0 <= successfulEvaluations (stats s))%Z /\
  (0 <= failedEvaluations (stats s))%Z /\
  (successfulEvaluations (stats s) + failedEvaluations (stats s)
   <= totalEvaluations (stats s))%Z.
Proof. exact (reachable_countersOk host s). Qed.

Lemma counters_are_consistent_witness :
  let s := performAll faultyHost
             [CallEvaluate (lit "t + 1") plainContext;
              CallEvaluate (lit "t") plainContext;
              CallEvaluate (lit "t") plainContext;
              CallEvaluate (lit "eval(1)") plainContext]
             initialState in
  (0 <= successfulEvaluations (stats s))%Z /\
  (0 <= failedEvaluations (stats s))%Z /\
  (successfulEvaluations (stats s) + failedEvaluations (stats s)
   <= totalEvaluations (stats s))%Z.
Proof.
  apply (counters_are_consistent faultyHost).
  apply reachable_performAll. apply reachable_initial.
Defined.

(** ** The rates of the report *)

Lemma rate_bounds (a b : Z) :
  (0 <= a <= b)%Z -> (0 < b)%Z ->
  (0 <= inject_Z a / inject_Z b * 100 /\
   inject_Z a / inject_Z b * 100 <= 100)%Q.
Proof.
  intros Ha Hb. destruct b as [|p|p]; try lia.
  unfold Qdiv, Qinv, inject_Z, Qmult, Qle. cbn [Qnum Qden].
  split; nia.
Qed.

(** X11. In every reachable state [getEvaluationStats] returns, without
    throwing, the counters as they are, a success rate and a failure rate
    between 0 and 100 that add up to 100, and changes neither the caches nor
    the statistics. *)
Theorem rates_are_percentages (host : Host) (s : State) :
  reachable host s ->
  exists report s',
    getEvaluationStats host s = (Normal report, s') /\
    reported report = stats s /\
    (0 <= successRate report /\ successRate report <= 100)%Q /\
    (0 <= failureRate report /\ failureRate report <= 100)%Q /\
    (successRate report + failureRate report == 100)%Q /\
    expressionCache s' = expressionCache s /\
    validationCache s' = validationCache s /\
    stats s' = stats s.
Proof.
  intros Hreach.
  destruct (reachable_countersOk host s Hreach) as (Hs & Hf & Hsum).
  assert (Hrate : (0 <= (if (totalEvaluations (stats s) >? 0)%Z
                         then inject_Z (successfulEvaluations (stats s))
                              / inject_Z (totalEvaluations (stats s)) * 100
                         else 0) <= 100)%Q).
  { destruct (totalEvaluations (stats s) >? 0)%Z eqn:E.
    - apply Z.gtb_lt in E. apply rate_bounds; lia.
    - split; unfold Qle; cbn; lia. }
  unfold getEvaluationStats, bind, gets, Date_now, ret.
  cbn [stats withTicks ticks].
  set (rate := if (totalEvaluations (stats s) >? 0)%Z then _ else _) in *.
  destruct Hrate as [H0 H100].
  assert (Hfail : (0 <= 100 - rate /\ 100 - rate <= 100)%Q).
  { split.
    - apply (Qplus_le_r _ _ rate). ring_simplify. exact H100.
    - apply (Qplus_le_r _ _ rate). ring_simplify.
      apply (Qplus_le_r _ _ (-(100))) . ring_simplify. exact H0. }
  destruct (dateNow host (ticks s) - lastEvaluationTime (stats s) <? 10000)%Z;
    eexists _, _; (split; [reflexivity|]);
    cbn [reported successRate failureRate expressionCache validationCache
         stats withTicks];
    (split; [reflexivity|]); (split; [split; assumption|]);
    (split; [exact Hfail|]); (split; [ring|]); repeat split.
Qed.

Lemma rates_are_percentages_witness :
  let s := performAll sampleHost
             [CallEvaluate (lit "t") plainContext;
              CallEvaluate (lit "t") plainContext;
              CallEvaluate (lit "eval(1)") plainContext]
             initialState in
  exists report s',
    getEvaluationStats sampleHost s = (Normal report, s') /\
    reported report = stats s /\
    (0 <= successRate report /\ successRate report <= 100)%Q /\
    (0 <= failureRate report /\ failureRate report <= 100)%Q /\
    (successRate report + failureRate report == 100)%Q /\
    expressionCache s' = expressionCache s /\
    validationCache s' = validationCache s /\
    stats s' = stats s.
Proof.
  apply (rates_are_percentages sampleHost).
  apply reachable_performAll. apply reachable_initial.
Defined.

(** ** The cache hit rate *)

Lemma updateStats_rate host startTime fromCache s :
  exists st',
    updateStats host startTime fromCache s =
    (Normal tt, withStats st' (withTicks (S (S (ticks s))) s)) /\
    sameCounters (stats s) st' /\
    cacheHitRate st' =
      if fromCache
      then hitRateAfterHit (totalEvaluations (stats s)) (cacheHitRate (stats s))
      else hitRateAfterMiss (totalEvaluations (stats s))
             (cacheHitRate (stats s)).
Proof.
  eexists. split; [|split].
  - unfold updateStats, bind, performance_now, Date_now, modifyStats, modify.
    cbn. unfold withStats, withTicks. cbn. reflexivity.
  - cbn. repeat split.
  - cbn. now destruct fromCache.
Qed.

Lemma evaluate_rate host e ctx s :
  let total := (totalEvaluations (stats s) + 1)%Z in
  let rate := cacheHitRate (stats s) in
  let rate' := cacheHitRate (stats (snd (evaluate host e ctx s))) in
  (servedFromCache e s /\ rate' = hitRateAfterHit total rate) \/
  (~ servedFromCache e s /\
   (rate' = rate \/ rate' = hitRateAfterMiss total rate)).
Proof.
  cbn zeta.
  assert (Hsf : exists sf, sf = snd (evaluate host e ctx s)) by eauto.
  destruct Hsf as [sf Hsf]. rewrite <- Hsf.
  rewrite evaluate_unfold in Hsf. unfold tryCatch in Hsf.
  destruct (validateExpression_returns e (afterPrologue s))
    as (o & s1 & Hv & Ho & Hec & Hst & _).
  rewrite validatedAs_afterPrologue in Ho.
  change (expressionCache (afterPrologue s)) with (expressionCache s) in Hec.
  change (stats (afterPrologue s)) with (incrTotal (stats s)) in Hst.
  set (startTime := performanceNow host (ticks s)) in Hsf.
  unfold servedFromCache.
  destruct (isValid (contents o)) eqn:Hvalid.
  2:{ rewrite (evaluateTry_rejected host startTime e ctx _ _ _ Hv Hvalid)
        in Hsf.
      right. split; [rewrite <- Ho; intros [H _]; congruence|].
      left. subst sf. fields. now rewrite Hst. }
  destruct (JsMap.get (createCacheKey e) (expressionCache s1))
    as [cached|] eqn:Hget.
  - left. split; [rewrite <- Ho, <- Hec; eauto|].
    rewrite (evaluateTry_hit host startTime e ctx _ _ _ _ Hv Hvalid Hget)
      in Hsf.
    unfold bind in Hsf.
    destruct (updateStats_rate host startTime true s1)
      as (st' & Hupd & _ & Hrate).
    rewrite Hupd in Hsf.
    rewrite Hst in Hrate. cbn [incrTotal totalEvaluations cacheHitRate] in Hrate.
    set (s2 := withStats st' (withTicks (S (S (ticks s1))) s1)) in Hsf.
    assert (H2 : cacheHitRate (stats s2) = cacheHitRate st') by reflexivity.
    clearbody s2.
    destruct (callCompiled host (S (ticks s2)) cached ctx)
      as [result|error] eqn:Hcall.
    + destruct (executeFunction_returns host cached ctx s2 _ Hcall)
        as (s3 & Hexec & (_ & _ & Hst3 & _) & _).
      rewrite Hexec in Hsf. subst sf. fields. congruence.
    + rewrite (executeFunction_throws host cached ctx s2 _ Hcall) in Hsf.
      rewrite evaluateCatch_run in Hsf. subst sf. fields.
      cbn [incrFailed cacheHitRate]. congruence.
  - right. split.
    { rewrite <- Hec. intros [_ [cached H]]. congruence. }
    rewrite (evaluateTry_miss host startTime e ctx _ _ _ Hv Hvalid Hget)
      in Hsf.
    destruct (newFunction host (rewriteExpression e)) as [fn|error] eqn:Hnew.
    2:{ left. rewrite evaluateCatch_run in Hsf. subst sf. fields.
        cbn [incrFailed cacheHitRate]. now rewrite Hst. }
    set (s2 := withExpressionCache _ s1) in Hsf.
    assert (H2 : stats s2 = stats s1) by reflexivity.
    clearbody s2. unfold bind at 1 in Hsf.
    destruct (callCompiled host (S (ticks s2)) fn ctx)
      as [result|error] eqn:Hcall.
    + destruct (executeFunction_returns host fn ctx s2 _ Hcall)
        as (s3 & Hexec & (_ & _ & Hst3 & _) & _).
      rewrite Hexec in Hsf. unfold bind at 1 in Hsf.
      destruct (updateStats_rate host startTime false s3)
        as (st' & Hupd & _ & Hrate).
      rewrite Hupd in Hsf.
      right. subst sf. cbn. rewrite Hrate, Hst3, H2, Hst. reflexivity.
    + rewrite (executeFunction_throws host fn ctx s2 _ Hcall) in Hsf.
      left. rewrite evaluateCatch_run in Hsf. subst sf. fields.
      cbn [incrFailed cacheHitRate]. now rewrite H2, Hst.
Qed.

Lemma inject_Z_nonzero z : z <> 0%Z -> ~ (inject_Z z == 0)%Q.
Proof. unfold Qeq, inject_Z. cbn. lia. Qed.

Lemma hitRate_nonneg total rate :
  (0 < total)%Z -> (0 <= rate)%Q ->
  (0 <= hitRateAfterHit total rate)%Q /\ (0 <= hitRateAfterMiss total rate)%Q.
Proof.
  intros Htotal Hrate. unfold hitRateAfterHit, hitRateAfterMiss, Qdiv.
  assert (Ht : (0 <= inject_Z total)%Q)
    by (unfold Qle, inject_Z; cbn; lia).
  assert (Hinv : (0 <= / inject_Z total)%Q) by now apply Qinv_le_0_compat.
  assert (Hhits : (0 <= inject_Z total * (rate * / 100))%Q).
  { apply Qmult_le_0_compat; [exact Ht|].
    apply Qmult_le_0_compat; [exact Hrate|discriminate]. }
  split; (apply Qmult_le_0_compat; [|discriminate]);
    (apply Qmult_le_0_compat; [|exact Hinv]); [|exact Hhits].
  change 0%Q with (0 + 0)%Q. apply Qplus_le_compat; [exact Hhits|discriminate].
Qed.

Lemma perform_rate_nonneg host c s :
  countersOk (stats s) ->
  (0 <= cacheHitRate (stats s))%Q ->
  (0 <= cacheHitRate (stats (perform host c s)))%Q.
Proof.
  intros (Hs & Hf & Hsum) Hrate.
  destruct c as [e|e ctx| | | | |]; cbn [perform].
  - destruct (validateExpression_returns e s)
      as (o & s' & Heq & _ & _ & Hst & _).
    rewrite Heq. cbn [snd]. now rewrite Hst.
  - destruct (hitRate_nonneg (totalEvaluations (stats s) + 1)
                (cacheHitRate (stats s)) ltac:(lia) Hrate) as [Hhit Hmiss].
    destruct (evaluate_rate host e ctx s) as [[_ ->]|[_ [->| ->]]];
      assumption.
  - exact Hrate.
  - discriminate.
  - exact Hrate.
  - now rewrite getEvaluationStats_stats.
  - exact Hrate.
Qed.

Lemma reachable_rate_nonneg host s :
  reachable host s -> (0 <= cacheHitRate (stats s))%Q.
Proof.
  induction 1 as [|s c Hreach IH]; [discriminate|].
  exact (perform_rate_nonneg host c s (reachable_countersOk host s Hreach) IH).
Qed.

(** The first evaluation of the text [t] compiles it and leaves the rate
    at zero. *)
Lemma first_evaluation_of_t host ctx :
  let s := snd (evaluate host (lit "t") ctx initialState) in
  totalEvaluations (stats s) = 1%Z /\
  (cacheHitRate (stats s) = 0%Q \/
   cacheHitRate (stats s) = hitRateAfterMiss 1 0) /\
  JsMap.get (lit "t") (expressionCache s) = Some {| safeExpression := lit "t" |}.
Proof.
  cbn zeta.
  destruct (evaluate_rate host (lit "t") ctx initialState)
    as [[(_ & cached & Hget) _]|[_ Hrate]]; [discriminate Hget|].
  cbn zeta in Hrate. split; [|split; [exact Hrate|]];
    destruct (evaluate_outcome_ex host (lit "t") ctx initialState)
      as (r & s' & -> & Hout & _); cbn [snd];
    destruct Hout as
      [s' Hrej _ _ _
      |s' error _ _ Hnew _ _ _
      |s' cached error _ Hget _ _ _ _
      |s' fn error _ _ Hnew Hcall _ _ _
      |s' cached result _ Hget _ _ _ _
      |s' fn result _ _ Hnew Hcall _ Hcnt Hcache];
    try (unfold rejectedByValidation in Hrej; rewrite t_is_valid in Hrej;
         discriminate Hrej);
    try discriminate Hget;
    rewrite t_compiles in Hnew; try discriminate Hnew;
    injection Hnew as <-;
    try (rewrite callCompiled_t in Hcall; discriminate Hcall).
  - now destruct Hcnt as (-> & _).
  - now rewrite Hcache.
Qed.

(** Every further evaluation of [t] is served from the cache. *)
Lemma further_evaluation_of_t host ctx s :
  reachable host s ->
  JsMap.get (lit "t") (expressionCache s) = Some {| safeExpression := lit "t" |} ->
  let s' := snd (evaluate host (lit "t") ctx s) in
  totalEvaluations (stats s') = (totalEvaluations (stats s) + 1)%Z /\
  cacheHitRate (stats s') =
    hitRateAfterHit (totalEvaluations (stats s) + 1) (cacheHitRate (stats s)) /\
  JsMap.get (lit "t") (expressionCache s') = Some {| safeExpression := lit "t" |}.
Proof.
  intros Hreach Hcached. cbn zeta.
  assert (Hvalid : isValid (validatedAs (lit "t") s) = true).
  { rewrite (reachable_validatedAs host s _ Hreach). vm_compute. reflexivity. }
  split; [|split].
  - destruct (evaluate_outcome_ex host (lit "t") ctx s)
      as (r & s' & -> & Hout & _). cbn [snd].
    destruct Hout;
      repeat match goal with
        | H : stats _ = _ |- _ => rewrite H
        | H : sameCounters _ _ |- _ => destruct H as (-> & _ & _)
        end; reflexivity.
  - destruct (evaluate_rate host (lit "t") ctx s) as [[_ Hrate]|[Hnot _]];
      [exact Hrate|].
    exfalso. apply Hnot. split; [exact Hvalid|]. eexists. exact Hcached.
  - destruct (evaluate_outcome_ex host (lit "t") ctx s)
      as (r & s' & -> & Hout & _). cbn [snd].
    destruct Hout as
      [s' Hrej _ _ _
      |s' error _ Hget _ _ _ _
      |s' cached error _ _ _ _ _ Hcache
      |s' fn error _ Hget _ _ _ _ _
      |s' cached result _ _ _ _ _ Hcache
      |s' fn result _ Hget _ _ _ _ _];
      try (unfold rejectedByValidation in Hrej; congruence);
      try (change (createCacheKey (lit "t")) with (lit "t") in Hget;
           congruence);
      rewrite Hcache; exact Hcached.
Qed.

Lemma reachable_evaluate host e ctx s :
  reachable host s -> reachable host (snd (evaluate host e ctx s)).
Proof. intros H. exact (@reachable_step host s (CallEvaluate e ctx) H). Qed.

Lemma performAll_evaluate host e ctx calls s :
  performAll host (CallEvaluate e ctx :: calls) s =
  performAll host calls (snd (evaluate host e ctx s)).
Proof. reflexivity. Qed.

(** Three evaluations of [t] that follow a first one. *)
Lemma three_hits host ctx s :
  reachable host s ->
  JsMap.get (lit "t") (expressionCache s) = Some {| safeExpression := lit "t" |} ->
  totalEvaluations (stats s) = 1%Z ->
  cacheHitRate (stats s) = 0%Q \/
  cacheHitRate (stats s) = hitRateAfterMiss 1 0 ->
  (100 < cacheHitRate
           (stats (snd (evaluate host (lit "t") ctx
                     (snd (evaluate host (lit "t") ctx
                        (snd (evaluate host (lit "t") ctx s))))))))%Q.
Proof.
  intros Hreach1 Hc1 Ht1 Hr1.
  pose proof (further_evaluation_of_t host ctx s Hreach1 Hc1)
    as (Ht2 & Hr2 & Hc2).
  pose proof (reachable_evaluate host (lit "t") ctx s Hreach1) as Hreach2.
  cbn zeta in Ht2, Hr2, Hc2.
  generalize dependent (snd (evaluate host (lit "t") ctx s)).
  intros s2 Ht2 Hr2 Hc2 Hreach2.
  pose proof (further_evaluation_of_t host ctx s2 Hreach2 Hc2)
    as (Ht3 & Hr3 & Hc3).
  pose proof (reachable_evaluate host (lit "t") ctx s2 Hreach2) as Hreach3.
  cbn zeta in Ht3, Hr3, Hc3.
  generalize dependent (snd (evaluate host (lit "t") ctx s2)).
  intros s3 Ht3 Hr3 Hc3 Hreach3.
  pose proof (further_evaluation_of_t host ctx s3 Hreach3 Hc3)
    as (_ & Hr4 & _).
  cbn zeta in Hr4.
  rewrite Hr4, Hr3, Hr2, Ht3, Ht2, Ht1.
  destruct Hr1 as [-> | ->]; vm_compute; reflexivity.
Qed.

(** X12. [cacheHitRate] is no percentage of hits. After any run of calls it
    is at least 0, but 100 does not bound it: in any host and context,
    four evaluations of the valid text [t], of which three are served
    from the cache, leave a rate above 100. *)
Theorem cache_hit_rate_is_not_bounded_by_100
    (host : Host) (calls : list Call) (ctx : EvaluationContext) :
  (0 <= cacheHitRate (stats (performAll host calls initialState)))%Q /\
  (100 < cacheHitRate
           (stats (performAll host (repeat (CallEvaluate (lit "t") ctx) 4)
                     initialState)))%Q.
Proof.
  split.
  - apply (reachable_rate_nonneg host), reachable_performAll,
      reachable_initial.
  - cbn [repeat]. rewrite !performAll_evaluate.
    change (performAll host [] ?s) with s.
    pose proof (first_evaluation_of_t host ctx) as (Ht1 & Hr1 & Hc1).
    cbn zeta in Ht1, Hr1, Hc1.
    apply three_hits; try assumption.
    apply reachable_evaluate, reachable_initial.
Qed.

(** ** Evaluations per second *)

(** X13. [getEvaluationStats] reports 0 evaluations per second when the last
    evaluation is at least ten seconds old. Otherwise it reads the clock a
    second time and divides the counter of evaluations by the seconds
    elapsed at that reading: the quotient when some time has elapsed, but
    Infinity, or NaN when nothing has been evaluated, when the clock still
    shows the time of the last evaluation. *)
Theorem evaluations_per_second (host : Host) (s : State) :
  reachable host s ->
  let last := lastEvaluationTime (stats s) in
  let total := totalEvaluations (stats s) in
  let first := dateNow host (ticks s) in
  let second := dateNow host (S (ticks s)) in
  exists report s',
    getEvaluationStats host s = (Normal report, s') /\
    ((10000 <= first - last)%Z ->
     evaluationsPerSecond report = zero /\ ticks s' = S (ticks s)) /\
    ((first - last < 10000)%Z ->
     ticks s' = S (S (ticks s)) /\
     (second = last -> (0 < total)%Z ->
      evaluationsPerSecond report = PosInfinity) /\
     (second = last -> total = 0%Z -> evaluationsPerSecond report = NaN) /\
     (second <> last ->
      evaluationsPerSecond report =
      Finite (inject_Z total / (inject_Z (second - last) / 1000)))).
Proof.
  intros Hreach last total first second.
  destruct (reachable_countersOk host s Hreach) as (Hs & Hf & Hsum).
  unfold getEvaluationStats, bind, gets, Date_now, ret.
  cbn [stats withTicks ticks].
  change (dateNow host (S (ticks s))) with second.
  change (dateNow host (ticks s)) with first.
  change (lastEvaluationTime (stats s)) with last.
  change (totalEvaluations (stats s)) with total.
  destruct (first - last <? 10000)%Z eqn:E.
  - apply Z.ltb_lt in E. eexists _, _. split; [reflexivity|].
    cbn [evaluationsPerSecond ticks withTicks].
    split; [lia|]. intros _. split; [reflexivity|].
    change (dateNow host (S (ticks s))) with second.
    unfold divide.
    destruct (Z.eq_dec second last) as [Heq|Hne].
    + rewrite Heq, Z.sub_diag.
      change (Qeq_bool (inject_Z 0 / 1000) 0) with true. cbn iota.
      split; [|split; [|congruence]].
      * intros _ Hpos.
        assert (Hq : Qeq_bool (inject_Z total) 0 = false).
        { destruct (Qeq_bool (inject_Z total) 0) eqn:Hq; [|reflexivity].
          apply Qeq_bool_eq in Hq. unfold Qeq, inject_Z in Hq. cbn in Hq. lia. }
        rewrite Hq.
        assert (Hle : Qle_bool 0 (inject_Z total) = true).
        { apply Qle_bool_iff. unfold Qle, inject_Z. cbn. lia. }
        now rewrite Hle.
      * intros _ ->. reflexivity.
    + split; [congruence|]. split; [congruence|]. intros _.
      assert (Hq : Qeq_bool (inject_Z (second - last) / 1000) 0 = false).
      { destruct (Qeq_bool _ 0) eqn:Hq; [|reflexivity].
        apply Qeq_bool_eq in Hq. unfold Qeq, Qdiv, Qmult, Qinv, inject_Z in Hq.
        cbn in Hq. lia. }
      now rewrite Hq.
  - apply Z.ltb_ge in E. eexists _, _. split; [reflexivity|].
    cbn [evaluationsPerSecond ticks withTicks].
    split; [intros _; split; reflexivity|lia].
Qed.

Lemma evaluations_per_second_witness :
  let s := performAll stoppedClockHost [CallEvaluate (lit "t") plainContext]
             initialState in
  let last := lastEvaluationTime (stats s) in
  let total := totalEvaluations (stats s) in
  let first := dateNow stoppedClockHost (ticks s) in
  let second := dateNow stoppedClockHost (S (ticks s)) in
  exists report s',
    getEvaluationStats stoppedClockHost s = (Normal report, s') /\
    ((10000 <= first - last)%Z ->
     evaluationsPerSecond report = zero /\ ticks s' = S (ticks s)) /\
    ((first - last < 10000)%Z ->
     ticks s' = S (S (ticks s)) /\
     (second = last -> (0 < total)%Z ->
      evaluationsPerSecond report = PosInfinity) /\
     (second = last -> total = 0%Z -> evaluationsPerSecond report = NaN) /\
     (second <> last ->
      evaluationsPerSecond report =
      Finite (inject_Z total / (inject_Z (second - last) / 1000)))).
Proof.
  apply (evaluations_per_second stoppedClockHost).
  apply reachable_performAll. apply reachable_initial.
Defined.

(** With a clock that stands still, the report that follows an evaluation
    shows infinitely many evaluations per second. *)
Example infinite_evaluations_per_second :
  let s := snd (evaluate stoppedClockHost (lit "t") plainContext initialState)
  in
  exists report s',
    getEvaluationStats stoppedClockHost s = (Normal report, s') /\
    evaluationsPerSecond report = PosInfinity.
Proof. eexists _, _. split; vm_compute; reflexivity. Qed.

(** ** The cache report *)



(** ** runBenchmark *)

(** [evaluate] returns a finite number and counts the call. *)
Lemma evaluate_returns host e ctx s :
  exists x s',
    evaluate host e ctx s = (Normal x, s') /\
    isFiniteNumber x = true /\
    totalEvaluations (stats s') = (totalEvaluations (stats s) + 1)%Z.
Proof.
  destruct (evaluate_outcome_ex host e ctx s) as (r & s' & Heq & Hout & _).
  destruct Hout;
    match goal with
    | |- exists x s1, evaluate _ _ _ _ = (Normal x, s1) /\ _ =>
        eexists _, _; split; [exact Heq|]
    end;
    (split; [first [reflexivity|apply finiteOrZero_finite]|]);
    repeat match goal with
      | H : stats _ = _ |- _ => rewrite H
      | H : sameCounters _ _ |- _ => destruct H as (-> & _ & _)
      end; reflexivity.
Qed.

Lemma performAll_app host l1 l2 s :
  performAll host (l1 ++ l2) s = performAll host l2 (performAll host l1 s).
Proof. unfold performAll. apply fold_left_app. Qed.

Lemma performance_now_run host s :
  performance_now host s =
  (Normal (performanceNow host (ticks s)), perform host ClockReading s).
Proof. reflexivity. Qed.

Lemma clock_reading_stats host s :
  stats (perform host ClockReading s) = stats s.
Proof. reflexivity. Qed.

Lemma benchmark_loop_run host n : forall i results count s,
  exists more,
    Benchmark.loop host n i results count s =
    (Normal (results ++ more, (count + Z.of_nat n)%Z),
     performAll host (Benchmark.roundsFrom n i) s) /\
    length more = n /\
    (forall k, k < n ->
     exists entry,
       nth_error more k = Some entry /\
       Benchmark.expression entry =
         nth ((i + k) mod length Benchmark.testExpressions)
           Benchmark.testExpressions [] /\
       isFiniteNumber (Benchmark.result entry) = true) /\
    totalEvaluations
      (stats (performAll host (Benchmark.roundsFrom n i) s)) =
    (totalEvaluations (stats s) + Z.of_nat n)%Z.
Proof.
  induction n as [|n IH]; intros i results count s.
  - exists []. cbn [Benchmark.loop Benchmark.roundsFrom performAll fold_left].
    unfold ret. rewrite app_nil_r, !Z.add_0_r.
    repeat split. intros k Hk. lia.
  - cbn [Benchmark.loop Benchmark.roundsFrom].
    set (e := nth (i mod length Benchmark.testExpressions)
                Benchmark.testExpressions []).
    unfold bind at 1. rewrite performance_now_run.
    set (s1 := perform host ClockReading s).
    unfold bind at 1.
    destruct (evaluate_returns host e (Benchmark.contextOf i) s1)
      as (x & s2 & Heval & Hfin & Htotal).
    rewrite Heval. unfold bind at 1. rewrite performance_now_run.
    set (s3 := perform host ClockReading s2).
    rewrite Hfin.
    set (entry := {| Benchmark.expression := e;
                     Benchmark.time := _; Benchmark.result := x |}).
    destruct (IH (S i) (results ++ [entry]) (count + 1)%Z s3)
      as (more & Hloop & Hlen & Hentries & Htotal').
    exists (entry :: more).
    assert (Hs3 : performAll host
                    ([ClockReading; CallEvaluate e (Benchmark.contextOf i);
                      ClockReading] ++ Benchmark.roundsFrom n (S i)) s =
                  performAll host (Benchmark.roundsFrom n (S i)) s3).
    { rewrite performAll_app. f_equal.
      unfold performAll. cbn [fold_left]. fold s1.
      change (perform host (CallEvaluate e (Benchmark.contextOf i)) s1)
        with (snd (evaluate host e (Benchmark.contextOf i) s1)).
      now rewrite Heval. }
    rewrite Hs3, Hloop. rewrite <- app_assoc. cbn [app].
    replace (count + Z.of_nat (S n))%Z with (count + 1 + Z.of_nat n)%Z by lia.
    split; [reflexivity|].
    split; [cbn [length]; now rewrite Hlen|].
    split.
    + intros [|k] Hk.
      * exists entry. rewrite Nat.add_0_r. repeat split. exact Hfin.
      * destruct (Hentries k ltac:(lia)) as (entry' & Hnth & Hexpr & Hres).
        exists entry'. cbn [nth_error]. split; [exact Hnth|].
        split; [|exact Hres]. rewrite Hexpr. f_equal. f_equal. lia.
    + rewrite Htotal'. subst s3. rewrite clock_reading_stats, Htotal.
      subst s1. rewrite clock_reading_stats. lia.
Qed.

Lemma benchmark_run host n s :
  exists results,
    Benchmark.runBenchmark host n s =
    (Normal
       {| Benchmark.totalTime :=
            (performanceNow host
               (ticks (performAll host (Benchmark.roundsFrom n 0)
                         (perform host ClockReading s)))
             - performanceNow host (ticks s))%Q;
          Benchmark.averageTime :=
            divide
              (performanceNow host
                 (ticks (performAll host (Benchmark.roundsFrom n 0)
                           (perform host ClockReading s)))
               - performanceNow host (ticks s))%Q (ofNat n);
          Benchmark.operationsPerSecond :=
            divideBy 1000
              (divide
                 (performanceNow host
                    (ticks (performAll host (Benchmark.roundsFrom n 0)
                              (perform host ClockReading s)))
                  - performanceNow host (ticks s))%Q (ofNat n));
          Benchmark.successRate :=
            times (divide (inject_Z (Z.of_nat n)) (ofNat n)) 100;
          Benchmark.testResults := firstn 10 results |},
     performAll host (Benchmark.callsOf n) s) /\
    length results = n /\
    (forall k, k < n ->
     exists entry,
       nth_error results k = Some entry /\
       Benchmark.expression entry =
         nth (k mod length Benchmark.testExpressions)
           Benchmark.testExpressions [] /\
       isFiniteNumber (Benchmark.result entry) = true) /\
    totalEvaluations (stats (performAll host (Benchmark.callsOf n) s)) =
    (totalEvaluations (stats s) + Z.of_nat n)%Z.
Proof.
  assert (Hfinal : performAll host (Benchmark.callsOf n) s =
                   perform host ClockReading
                     (performAll host (Benchmark.roundsFrom n 0)
                        (perform host ClockReading s))).
  { unfold Benchmark.callsOf. now rewrite !performAll_app. }
  rewrite Hfinal. unfold Benchmark.runBenchmark.
  unfold bind at 1. rewrite performance_now_run.
  set (s1 := perform host ClockReading s).
  destruct (benchmark_loop_run host n 0 [] 0%Z s1)
    as (results & Hloop & Hlen & Hentries & Htotal).
  exists results. unfold bind at 1. rewrite Hloop.
  unfold bind at 1. rewrite performance_now_run. unfold ret.
  cbn [fst snd app Z.add].
  set (s2 := performAll host (Benchmark.roundsFrom n 0) s1) in *.
  split; [reflexivity|]. split; [exact Hlen|]. split; [exact Hentries|].
  rewrite clock_reading_stats, Htotal. subst s1.
  now rewrite clock_reading_stats.
Qed.

Lemma ofNat_nonzero n : 0 < n -> ~ (ofNat n == 0)%Q.
Proof. intros H. unfold ofNat. apply inject_Z_nonzero. lia. Qed.

Lemma divide_finite a b :
  ~ (b == 0)%Q -> divide a b = Finite (a / b).
Proof.
  intros H. unfold divide.
  destruct (Qeq_bool b 0) eqn:E; [|reflexivity].
  apply Qeq_bool_eq in E. contradiction.
Qed.

(** X15. [runBenchmark] does not throw, and for any positive number of
    iterations the success rate it reports is 100, whatever the engine does
    with the expressions: what it counts is that [evaluate] returned a
    finite number, and it always does. *)
Theorem benchmark_reports_full_success
    (host : Host) (s : State) (iterations : nat) :
  0 < iterations ->
  exists report s' rate,
    Benchmark.runBenchmark host iterations s = (Normal report, s') /\
    Benchmark.successRate report = Finite rate /\ (rate == 100)%Q.
Proof.
  intros Hpos.
  destruct (benchmark_run host iterations s) as (results & Hrun & _).
  eexists _, _, _. split; [exact Hrun|].
  cbn [Benchmark.successRate].
  rewrite (divide_finite _ _ (ofNat_nonzero iterations Hpos)).
  split; [reflexivity|].
  unfold ofNat. field. apply inject_Z_nonzero. lia.
Qed.

Lemma benchmark_reports_full_success_witness :
  exists report s' rate,
    Benchmark.runBenchmark faultyHost 8 initialState = (Normal report, s') /\
    Benchmark.successRate report = Finite rate /\ (rate == 100)%Q.
Proof.
  apply (benchmark_reports_full_success faultyHost initialState 8). lia.
Defined.

(** In a host whose engine faults on every call, a benchmark of eight
    iterations leaves eight failed evaluations and no successful one. *)
Example benchmark_of_failures :
  let s := snd (Benchmark.runBenchmark faultyHost 8 initialState) in
  failedEvaluations (stats s) = 8%Z /\ successfulEvaluations (stats s) = 0%Z.
Proof. vm_compute. split; reflexivity. Qed.

Lemma nth_error_firstn_lt {A} n (l : list A) : forall k,
  k < n -> nth_error (firstn n l) k = nth_error l k.
Proof.
  revert l. induction n as [|n IH]; intros l k Hk; [lia|].
  destruct l as [|a l]; [reflexivity|].
  destruct k as [|k]; [reflexivity|].
  cbn [firstn nth_error]. apply IH. lia.
Qed.

(** X16. [testResults] holds the entries of the first ten iterations, or of
    all when there are fewer; the entry of iteration [k] names the benchmark
    expression of index [k mod 8] and holds a finite result. *)
Theorem benchmark_keeps_the_first_ten_results
    (host : Host) (s : State) (iterations : nat) :
  exists report s',
    Benchmark.runBenchmark host iterations s = (Normal report, s') /\
    length (Benchmark.testResults report) = Nat.min iterations 10 /\
    forall k, k < Nat.min iterations 10 ->
      exists entry,
        nth_error (Benchmark.testResults report) k = Some entry /\
        Benchmark.expression entry =
          nth (k mod 8) Benchmark.testExpressions [] /\
        isFiniteNumber (Benchmark.result entry) = true.
Proof.
  destruct (benchmark_run host iterations s)
    as (results & Hrun & Hlen & Hentries & _).
  eexists _, _. split; [exact Hrun|].
  cbn [Benchmark.testResults]. split.
  - rewrite length_firstn, Hlen. apply Nat.min_comm.
  - intros k Hk.
    destruct (Hentries k ltac:(lia)) as (entry & Hnth & Hexpr & Hres).
    exists entry. rewrite nth_error_firstn_lt by lia.
    repeat split; assumption.
Qed.


(** X18. With no iteration [runBenchmark] divides by zero: the success rate
    is NaN and the average time is not finite; there are no results and the
    statistics are untouched. *)
Theorem benchmark_of_no_iteration (host : Host) (s : State) :
  exists report s',
    Benchmark.runBenchmark host 0 s = (Normal report, s') /\
    Benchmark.successRate report = NaN /\
    isFiniteNumber (Benchmark.averageTime report) = false /\
    Benchmark.testResults report = [] /\
    stats s' = stats s.
Proof.
  destruct (benchmark_run host 0 s) as (results & Hrun & Hlen & _ & Htotal).
  destruct results; [|discriminate Hlen].
  eexists _, _. split; [exact Hrun|].
  cbn [Benchmark.successRate Benchmark.averageTime Benchmark.testResults
       firstn].
  split; [reflexivity|]. split; [|split; reflexivity].
  unfold divide. change (Qeq_bool (ofNat 0) 0) with true. cbn iota.
  destruct (Qeq_bool _ 0); [reflexivity|].
  destruct (Qle_bool 0 _); reflexivity.
Qed.

(** ** Texts in which a pattern does not occur *)

Lemma replaceAllFrom_no_match r by_ : forall s prev,
  testFrom r prev s = false -> replaceAllFrom r by_ prev s 0 = s.
Proof.
  induction s as [|c s IH]; intros prev H; cbn [testFrom] in H;
    cbn [replaceAllFrom];
    destruct (matchHere r prev _); try discriminate; [reflexivity|].
  f_equal. now apply IH.
Qed.

Lemma replaceAll_no_match r by_ e :
  test r e = false -> replaceAll r by_ e = e.
Proof. apply replaceAllFrom_no_match. Qed.

Lemma matchAllFrom_no_match r : forall s prev,
  testFrom r prev s = false -> matchAllFrom r prev s 0 = [].
Proof.
  induction s as [|c s IH]; intros prev H; cbn [testFrom] in H;
    cbn [matchAllFrom];
    destruct (matchHere r prev _); try discriminate; [reflexivity|].
  now apply IH.
Qed.

Lemma matchAll_no_match r e : test r e = false -> matchAll r e = [].
Proof.
  intros H. unfold matchAll. now rewrite matchAllFrom_no_match.
Qed.

(** A pattern that begins with a word boundary and then needs a character
    of a class only occurs in texts that have such a character. *)
Lemma testFrom_boundary_beginsWith (P : char -> Prop) r :
  beginsWith P r ->
  forall s prev,
    testFrom (Seq WordB r) prev s = true -> exists c, In c s /\ P c.
Proof.
  intros Hr.
  assert (Hhere : forall prev s m,
            matchHere (Seq WordB r) prev s = Some m ->
            exists c s', s = c :: s' /\ P c).
  { intros prev s m H. unfold matchHere in H. cbn [run] in H.
    destruct (xorb _ _); [|discriminate].
    exact (run_beginsWith P r Hr _ _ _ _ _ _ H). }
  induction s as [|c s IH]; intros prev Htest; cbn [testFrom] in Htest.
  - destruct (matchHere _ prev []) as [m|] eqn:E; [|discriminate].
    apply Hhere in E as (c & s' & Hs & _). discriminate.
  - destruct (matchHere _ prev (c :: s)) as [m|] eqn:E.
    + apply Hhere in E as (c' & s' & [= <- <-] & Hc).
      exists c. split; [now left|exact Hc].
    + apply IH in Htest as (c' & Hin & Hc).
      exists c'. split; [now right|exact Hc].
Qed.

Ltac letter_class :=
  let c := fresh "c" in
  let H := fresh "H" in
  intros c H; unfold isLetterChar; apply N.eqb_eq in H; subst c; reflexivity.

Ltac begins_with_letter :=
  cbn [words alts map str seqOf lit list_ascii_of_string];
  repeat first
    [ apply beginsSeq | apply beginsAlt | apply beginsGroup
    | apply beginsCls; letter_class ].

Lemma letterFree_no_letter e c :
  letterFree e -> In c e -> isLetterChar c -> False.
Proof.
  unfold letterFree, isLetterChar. intros He Hin Hc.
  rewrite forallb_forall in He. specialize (He c Hin).
  rewrite Hc in He. discriminate.
Qed.

Lemma test_letterFree r e :
  beginsWith isLetterChar r -> letterFree e -> test (Seq WordB r) e = false.
Proof.
  intros Hr He. destruct (test (Seq WordB r) e) eqn:E; [|reflexivity].
  apply (testFrom_boundary_beginsWith isLetterChar r Hr) in E
    as (c & Hin & Hc).
  destruct (letterFree_no_letter e c He Hin Hc).
Qed.

(** ** Calls need a parenthesis *)

Lemma Lang_Seq_inv r1 r2 prev w next :
  Lang (Seq r1 r2) prev w next ->
  exists w1 w2,
    w = w1 ++ w2 /\ Lang r1 prev w1 (w2 ++ next) /\
    Lang r2 (lastOr prev w1) w2 next.
Proof. intros H. inversion H; subst. eauto. Qed.

Lemma Lang_paren prev w next : Lang (str "(") prev w next -> w = [40%N].
Proof.
  intros H. cbn in H. inversion H as [|p prev' c next' Hc| | | | | | | |]; subst.
  apply N.eqb_eq in Hc. now subst c.
Qed.

(** A match of [/\b(n1|n2|...)\s*\(/] ends with an opening parenthesis. *)
Lemma test_mathCallPattern names e :
  test (mathCallPattern names) e = true -> In 40%N e.
Proof.
  intros H. apply test_occursIn in H as (before & part & after & -> & L).
  unfold mathCallPattern in L.
  apply Lang_Seq_inv in L as (w1 & w2 & -> & _ & L).
  apply Lang_Seq_inv in L as (w3 & w4 & -> & _ & L).
  apply Lang_Seq_inv in L as (w5 & w6 & -> & _ & L).
  apply Lang_paren in L. subst w6.
  rewrite !in_app_iff. cbn [In]. tauto.
Qed.

Lemma countChars_0 p e c : countChars p e = 0 -> In c e -> p c = false.
Proof.
  unfold countChars. intros H Hin.
  destruct (p c) eqn:E; [|reflexivity].
  assert (Hf : In c (filter p e)) by (apply filter_In; auto).
  destruct (filter p e); [destruct Hf|discriminate].
Qed.

Lemma test_mathCallPattern_no_paren names e :
  countChars isOpenParen e = 0 -> test (mathCallPattern names) e = false.
Proof.
  intros H. destruct (test (mathCallPattern names) e) eqn:E; [|reflexivity].
  apply test_mathCallPattern in E.
  apply (countChars_0 _ _ _ H) in E. discriminate.
Qed.

(** ** Whole words *)

Lemma testFrom_words ws :
  ws <> [] -> Forall isWord ws ->
  forall s prev,
    wholeWordsFrom ws prev s = 0 -> testFrom (wordsPattern ws) prev s = false.
Proof.
  intros Hne Hall. induction s as [|c s IH]; intros prev H;
    cbn [wholeWordsFrom] in H; cbn [testFrom];
    rewrite (matchHere_words ws Hne Hall);
    rewrite find_existsb in H;
    destruct (find (wholeWordHere prev _) ws); try discriminate;
    [reflexivity|].
  apply IH. cbn in H. exact H.
Qed.

Lemma wholeWordsFrom_incl ws ws' :
  incl ws ws' ->
  forall s prev, wholeWordsFrom ws prev s <= wholeWordsFrom ws' prev s.
Proof.
  intros Hincl.
  assert (Hex : forall prev s,
            existsb (wholeWordHere prev s) ws = true ->
            existsb (wholeWordHere prev s) ws' = true).
  { intros prev s H. apply existsb_exists in H as (w & Hin & Hw).
    apply existsb_exists. exists w. split; [now apply Hincl|exact Hw]. }
  induction s as [|c s IH]; intros prev; cbn [wholeWordsFrom].
  - specialize (Hex prev []).
    destruct (existsb _ ws); [rewrite Hex by reflexivity|]; lia.
  - specialize (Hex prev (c :: s)). specialize (IH (Some c)).
    destruct (existsb _ ws); [rewrite Hex by reflexivity|];
      destruct (existsb _ ws'); lia.
Qed.

Lemma test_wordPattern names e :
  names <> [] -> Forall isWord (map lit names) ->
  incl (map lit names) (map lit rewrittenConstants) ->
  wholeWordOccurrences rewrittenConstants e = 0 ->
  test (wordPattern names) e = false.
Proof.
  intros Hne Hall Hincl H.
  assert (Hpat : wordPattern names = wordsPattern (map lit names)).
  { unfold wordPattern, wordsPattern, words, str. now rewrite map_map. }
  rewrite Hpat. apply testFrom_words.
  - destruct names; [congruence|discriminate].
  - exact Hall.
  - unfold wholeWordOccurrences in H.
    pose proof (wholeWordsFrom_incl _ _ Hincl e None). lia.
Qed.

Ltac constant_words :=
  first
    [ discriminate
    | repeat constructor; discriminate
    | intros w Hw; cbn in Hw |- *; tauto ].

(** ** Texts the rewrite leaves alone *)

Lemma rewriteExpression_plainText e :
  plainText e -> rewriteExpression e = e.
Proof.
  intros [Hfree|[Hparen Hwords]]; unfold rewriteExpression; cbn zeta.
  - repeat match goal with
      | |- context [replaceAll ?r ?f e] =>
          rewrite (replaceAll_no_match r f e)
            by (apply test_letterFree; [begins_with_letter|exact Hfree])
      end.
    reflexivity.
  - repeat match goal with
      | |- context [replaceAll (mathCallPattern ?names) ?f e] =>
          rewrite (replaceAll_no_match (mathCallPattern names) f e)
            by (apply test_mathCallPattern_no_paren; exact Hparen)
      | |- context [replaceAll (wordPattern ?names) ?f e] =>
          rewrite (replaceAll_no_match (wordPattern names) f e)
            by (apply test_wordPattern;
                [discriminate
                |repeat constructor; discriminate
                |intros w Hw; cbn in Hw |- *; tauto
                |exact Hwords])
      end.
    reflexivity.
Qed.

(** X19. [compileExpression] hands a text to the engine as it is when the
    text has no letter, and also when it has no opening parenthesis and none
    of PI, pi, E, e, TAU, PHI, DEG2RAD, RAD2DEG as a whole word. *)
Theorem rewrite_leaves_plain_text_alone (e : jsstring) :
  plainText e -> rewriteExpression e = e.
Proof. exact (rewriteExpression_plainText e). Qed.

Lemma rewrite_leaves_plain_text_witness :
  rewriteExpression (lit "(1 + 2) * 3") = lit "(1 + 2) * 3".
Proof.
  apply (rewrite_leaves_plain_text_alone (lit "(1 + 2) * 3")).
  left. reflexivity.
Defined.

Example rewrite_leaves_variables_alone :
  rewriteExpression (lit "t * 2 + time / x") = lit "t * 2 + time / x".
Proof.
  apply rewriteExpression_plainText. right. split; reflexivity.
Qed.

Example rewrite_of_calls_and_constants :
  rewriteExpression (lit "sin (t * PI) + e") =
  lit "Math.sin(t * Math.PI) + Math.E".
Proof. reflexivity. Qed.

(** ** A word between white space *)

Lemma trimStart_split s :
  exists ws, s = ws ++ trimStart s /\ forallb isWhiteSpace ws = true.
Proof.
  induction s as [|c s (ws & Hs & Hws)]; [now exists []|].
  cbn [trimStart]. destruct (isWhiteSpace c) eqn:E.
  - exists (c :: ws). cbn [app forallb]. rewrite E, Hws. split; [|reflexivity].
    now rewrite <- Hs.
  - now exists [].
Qed.

Lemma trim_split e :
  exists ws1 ws2,
    e = ws1 ++ trim e ++ ws2 /\
    forallb isWhiteSpace ws1 = true /\ forallb isWhiteSpace ws2 = true.
Proof.
  destruct (trimStart_split e) as (ws1 & He & H1).
  destruct (trimStart_split (rev (trimStart e))) as (ws2 & Hr & H2).
  exists ws1, (rev ws2). unfold trim, trimEnd.
  split; [|split; [exact H1|now rewrite forallb_rev]].
  rewrite <- rev_app_distr, <- Hr, rev_involutive. exact He.
Qed.

Lemma wordChar_not_whiteSpace c :
  isWordChar c = true -> isWhiteSpace c = false.
Proof.
  unfold isWordChar, isLetter, isLower, isUpper, isDigit, isWhiteSpace, inRange.
  intros H. destruct (N.le_gt_cases c 122) as [Hle|Hgt].
  - repeat (apply orb_true_iff in H; destruct H as [H|H]);
      try (apply andb_true_iff in H; destruct H as [H1 H2];
           apply N.leb_le in H1, H2);
      try (apply N.eqb_eq in H);
      repeat (apply orb_false_iff; split);
      try (apply andb_false_iff; left; apply N.leb_gt; lia);
      try (apply andb_false_iff; right; apply N.leb_gt; lia);
      try (apply N.eqb_neq; lia).
  - exfalso.
    repeat (apply orb_true_iff in H; destruct H as [H|H]);
      try (apply andb_true_iff in H; destruct H as [H1 H2];
           apply N.leb_le in H1, H2);
      try (apply N.eqb_eq in H); lia.
Qed.

Lemma wordChar_not_paren c : isWordChar c = true -> isOpenParen c = false.
Proof.
  intros H. unfold isOpenParen, isChar.
  destruct (N.eqb c (N_of_ascii "(")) eqn:E; [|reflexivity].
  apply N.eqb_eq in E. subst c. discriminate H.
Qed.

Lemma whiteSpace_not_paren c : isWhiteSpace c = true -> isOpenParen c = false.
Proof.
  intros H. unfold isOpenParen, isChar.
  destruct (N.eqb c (N_of_ascii "(")) eqn:E; [|reflexivity].
  apply N.eqb_eq in E. subst c. discriminate H.
Qed.

Lemma countChars_app p s1 s2 :
  countChars p (s1 ++ s2) = countChars p s1 + countChars p s2.
Proof. unfold countChars. now rewrite filter_app, length_app. Qed.

Lemma countChars_none p (q : char -> bool) s :
  (forall c, q c = true -> p c = false) -> forallb q s = true ->
  countChars p s = 0.
Proof.
  intros Hq. unfold countChars. induction s as [|c s IH]; [reflexivity|].
  cbn [forallb filter]. intros H. apply andb_true_iff in H as [Hc Hs].
  rewrite (Hq c Hc). now apply IH.
Qed.

Lemma wholeWordHere_nonword names prev s :
  Forall isWord names -> isWordOpt (hd_error s) = false ->
  existsb (wholeWordHere prev s) names = false.
Proof.
  intros Hall Hhd. induction Hall as [|w ws Hw _ IH]; [reflexivity|].
  cbn [existsb]. rewrite IH, orb_false_r. unfold wholeWordHere.
  destruct (startsWith w s) eqn:Hs.
  - rewrite (isWord_head w s Hw Hs) in Hhd. discriminate.
  - now rewrite andb_false_r.
Qed.

Lemma hd_whiteSpace c s :
  isWhiteSpace c = true -> isWordOpt (hd_error (c :: s)) = false.
Proof.
  intros H. cbn. destruct (isWordChar c) eqn:E; [|reflexivity].
  apply wordChar_not_whiteSpace in E. congruence.
Qed.

Lemma wholeWordsFrom_whiteSpace names ws :
  Forall isWord names -> forallb isWhiteSpace ws = true ->
  forall prev rest,
    wholeWordsFrom names prev (ws ++ rest) =
    wholeWordsFrom names (lastOr prev ws) rest.
Proof.
  intros Hall. induction ws as [|c ws IH]; intros Hws prev rest;
    [reflexivity|].
  cbn [forallb] in Hws. apply andb_true_iff in Hws as [Hc Hws].
  cbn [app wholeWordsFrom].
  rewrite (wholeWordHere_nonword names prev _ Hall (hd_whiteSpace c _ Hc)).
  rewrite (IH Hws), lastOr_cons. reflexivity.
Qed.

Lemma wholeWordsFrom_inside names x :
  forallb isWordChar x = true ->
  forall prev rest,
    isWordOpt prev = true ->
    wholeWordsFrom names prev (x ++ rest) =
    wholeWordsFrom names (lastOr prev x) rest.
Proof.
  induction x as [|a x IH]; intros Hx prev rest Hprev; [reflexivity|].
  cbn [forallb] in Hx. apply andb_true_iff in Hx as [Ha Hx].
  cbn [app wholeWordsFrom].
  rewrite (wholeWordHere_after_word prev _ names Hprev).
  rewrite (IH Hx (Some a) rest Ha), lastOr_cons. reflexivity.
Qed.

Lemma lastOr_whiteSpace prev ws :
  isWordOpt prev = false -> forallb isWhiteSpace ws = true ->
  isWordOpt (lastOr prev ws) = false.
Proof.
  intros Hprev Hws. destruct ws as [|c ws]; [exact Hprev|].
  cbn [lastOr isWordOpt].
  assert (Hin : In (last (c :: ws) 0%N) (c :: ws)).
  { destruct (exists_last (l := c :: ws) ltac:(discriminate)) as (l & a & E).
    rewrite E, last_last. apply in_or_app. right. now left. }
  rewrite forallb_forall in Hws. specialize (Hws _ Hin).
  destruct (isWordChar _) eqn:E; [|reflexivity].
  apply wordChar_not_whiteSpace in E. congruence.
Qed.

Lemma startsWith_whole_word w x rest :
  forallb isWordChar w = true -> forallb isWordChar x = true ->
  isWordOpt (hd_error rest) = false ->
  startsWith w (x ++ rest) = true ->
  isWordOpt (hd_error (skipn (length w) (x ++ rest))) = false ->
  w = x.
Proof.
  revert x. induction w as [|a w IH]; intros x Hw Hx Hrest Hs Hafter.
  - cbn [length skipn] in Hafter. destruct x as [|b x]; [reflexivity|].
    cbn [forallb] in Hx. apply andb_true_iff in Hx as [Hb _].
    cbn in Hafter. congruence.
  - cbn [forallb] in Hw. apply andb_true_iff in Hw as [Ha Hw].
    destruct x as [|b x].
    + cbn [app] in Hs. destruct rest as [|r rest]; [discriminate|].
      cbn [startsWith] in Hs. apply andb_true_iff in Hs as [Hr _].
      apply N.eqb_eq in Hr. subst r. cbn in Hrest. congruence.
    + cbn [app startsWith] in Hs. apply andb_true_iff in Hs as [Hb Hs].
      apply N.eqb_eq in Hb. subst b.
      cbn [forallb] in Hx. apply andb_true_iff in Hx as [_ Hx].
      f_equal. apply (IH x Hw Hx Hrest Hs). exact Hafter.
Qed.

Lemma wholeWordHere_other_word names prev x rest :
  Forall isWord names -> forallb isWordChar x = true ->
  isWordOpt (hd_error rest) = false -> ~ In x names ->
  existsb (wholeWordHere prev (x ++ rest)) names = false.
Proof.
  intros Hall Hx Hrest Hnot.
  destruct (existsb _ names) eqn:E; [|reflexivity].
  apply existsb_exists in E as (w & Hin & Hw).
  rewrite Forall_forall in Hall. destruct (Hall w Hin) as [_ Hword].
  unfold wholeWordHere in Hw.
  apply andb_true_iff in Hw as [Hw Hafter].
  apply andb_true_iff in Hw as [_ Hs].
  apply negb_true_iff in Hafter.
  rewrite (startsWith_whole_word w x rest Hword Hx Hrest Hs Hafter) in Hin.
  contradiction.
Qed.

Lemma hd_blank ws :
  forallb isWhiteSpace ws = true -> isWordOpt (hd_error ws) = false.
Proof.
  destruct ws as [|c ws]; [reflexivity|]. cbn [forallb]. intros H.
  apply andb_true_iff in H as [Hc _]. now apply hd_whiteSpace.
Qed.

(** Between white space, a word that is none of the given ones holds no
    whole-word occurrence of them. *)
Lemma wholeWords_padded names ws1 x ws2 :
  Forall isWord names ->
  forallb isWhiteSpace ws1 = true -> forallb isWhiteSpace ws2 = true ->
  isWord x -> ~ In x names ->
  wholeWordsFrom names None (ws1 ++ x ++ ws2) = 0.
Proof.
  intros Hall H1 H2 [Hne Hx] Hnot.
  rewrite (wholeWordsFrom_whiteSpace names ws1 Hall H1).
  pose proof (lastOr_whiteSpace None ws1 eq_refl H1) as Hprev.
  set (prev := lastOr None ws1) in *. clearbody prev.
  destruct x as [|a x]; [congruence|].
  pose proof (wholeWordHere_other_word names prev (a :: x) ws2 Hall Hx
                (hd_blank ws2 H2) Hnot) as Hhere.
  cbn [forallb] in Hx. apply andb_true_iff in Hx as [Ha Hx].
  cbn [app wholeWordsFrom] in *. rewrite Hhere.
  rewrite (wholeWordsFrom_inside names x Hx (Some a) ws2 Ha).
  rewrite <- (app_nil_r ws2).
  rewrite (wholeWordsFrom_whiteSpace names ws2 Hall H2).
  cbn [wholeWordsFrom].
  now rewrite (wholeWordHere_nonword names _ [] Hall eq_refl).
Qed.

Lemma rewrittenConstants_words : Forall isWord (map lit rewrittenConstants).
Proof. repeat constructor; discriminate. Qed.

(** A text that consists, white space aside, of a plain identifier is
    left alone by the rewrite, and is read by the generated function as a
    reference to that identifier. *)
Lemma plainIdentifier_text x e :
  plainIdentifier x -> createCacheKey e = x ->
  rewriteExpression e = e /\ identifierReference e = Some x.
Proof.
  intros (Hword & Hname & Hreserved & Hconst) Hkey.
  unfold createCacheKey in Hkey. split.
  - apply rewriteExpression_plainText. right.
    destruct (trim_split e) as (ws1 & ws2 & He & H1 & H2).
    rewrite Hkey in He. rewrite He. split.
    + rewrite !countChars_app.
      rewrite (countChars_none isOpenParen isWhiteSpace ws1
                 whiteSpace_not_paren H1).
      rewrite (countChars_none isOpenParen isWhiteSpace ws2
                 whiteSpace_not_paren H2).
      now rewrite (countChars_none isOpenParen isWordChar x
                     wordChar_not_paren (proj2 Hword)).
    + exact (wholeWords_padded _ ws1 x ws2 rewrittenConstants_words
               H1 H2 Hword Hconst).
  - unfold identifierReference. cbn zeta. rewrite Hkey, Hname, Hreserved.
    reflexivity.
Qed.

(** ** What the compiled-function cache holds *)

Lemma In_skipn {A} (x : A) n l : In x (skipn n l) -> In x l.
Proof.
  intros H. rewrite <- (firstn_skipn n l). apply in_or_app. now right.
Qed.

Lemma cacheAfterInsert_In key fn cache k f :
  In (k, f) (cacheAfterInsert key fn cache) ->
  (k = key /\ f = fn) \/ In (k, f) cache.
Proof.
  unfold cacheAfterInsert. intros H. apply set_In in H as [H|H]; [now left|].
  right. destruct (MAX_CACHE_SIZE <=? JsMap.size cache); [|exact H].
  exact (In_skipn _ _ _ H).
Qed.

Lemma evaluate_expressionCacheOk host e ctx s :
  reachable host s -> expressionCacheOk host s ->
  expressionCacheOk host (snd (evaluate host e ctx s)).
Proof.
  intros Hreach Hok.
  destruct (evaluate_outcome_ex host e ctx s) as (r & s' & -> & Hout & _).
  cbn [snd]. unfold expressionCacheOk.
  pose proof (reachable_validatedAs host s e Hreach) as Hv.
  destruct Hout;
    match goal with
    | H : expressionCache _ = _ |- _ => rewrite H
    end;
    try exact Hok;
    intros k f Hin; apply cacheAfterInsert_In in Hin as [[-> ->]|Hin];
    try (now apply Hok);
    exists e; (split; [reflexivity|]); split; congruence.
Qed.

Lemma perform_expressionCacheOk host c s :
  reachable host s -> expressionCacheOk host s ->
  expressionCacheOk host (perform host c s).
Proof.
  intros Hreach Hok. destruct c as [e|e ctx| | | | |]; cbn [perform].
  - destruct (validateExpression_returns e s)
      as (o & s' & Heq & _ & Hec & _).
    rewrite Heq. unfold expressionCacheOk. cbn [snd]. now rewrite Hec.
  - now apply evaluate_expressionCacheOk.
  - intros k f [].
  - exact Hok.
  - exact Hok.
  - destruct (getEvaluationStats_run host s)
      as (report & s' & Heq & _ & _ & Hec & _).
    rewrite Heq. unfold expressionCacheOk. cbn [snd]. now rewrite Hec.
  - exact Hok.
Qed.

Lemma reachable_expressionCacheOk host s :
  reachable host s -> expressionCacheOk host s.
Proof.
  induction 1 as [|s c Hreach IH]; [intros k f []|].
  now apply perform_expressionCacheOk.
Qed.



(** ** Evaluating a reference to an identifier *)

Lemma callCompiled_reference host tick fn ctx x :
  identifierReference (safeExpression fn) = Some x ->
  callCompiled host tick fn ctx = Normal (referenceResult host ctx x).
Proof.
  intros H. unfold callCompiled, referenceResult. rewrite H.
  destruct (resolveIdentifier host ctx x) as [result|error]; [|reflexivity].
  destruct (ToNumber result); reflexivity.
Qed.

Lemma newFunction_reference host source x :
  identifierReference source = Some x ->
  newFunction host source = Normal {| safeExpression := source |}.
Proof. intros H. unfold newFunction. now rewrite H. Qed.

Lemma compiledFrom_reference host x fn :
  plainIdentifier x -> compiledFrom host x fn ->
  identifierReference (safeExpression fn) = Some x.
Proof.
  intros Hx (e & Hkey & _ & Hnew).
  destruct (plainIdentifier_text x e Hx Hkey) as [Hrewrite Href].
  rewrite Hrewrite, (newFunction_reference host e x Href) in Hnew.
  injection Hnew as <-. exact Href.
Qed.

(** A text that is, white space aside, a plain identifier evaluates to
    what the reference yields if the text is valid, and to 0 if not. *)
Lemma evaluate_reference host s e ctx x :
  reachable host s -> plainIdentifier x -> createCacheKey e = x ->
  fst (evaluate host e ctx s) =
  Normal (if isValid (computeValidation e)
          then finiteOrZero (referenceResult host ctx x) else zero).
Proof.
  intros Hreach Hx Hkey.
  pose proof (reachable_validatedAs host s e Hreach) as Hv.
  pose proof (reachable_expressionCacheOk host s Hreach) as Hok.
  destruct (plainIdentifier_text x e Hx Hkey) as [Hrewrite Href].
  pose proof (newFunction_reference host e x Href) as Hnew.
  rewrite <- Hrewrite in Hnew at 1.
  destruct (evaluate_outcome_ex host e ctx s) as (r & s' & -> & Hout & _).
  cbn [fst].
  destruct Hout as
    [s' Hrej _ _ _
    |s' error Hvalid _ Hfail _ _ _
    |s' cached error Hvalid Hget Hcall _ _ _
    |s' fn error Hvalid _ Hfn Hcall _ _ _
    |s' cached result Hvalid Hget Hcall _ _ _
    |s' fn result Hvalid _ Hfn Hcall _ _ _].
  - unfold rejectedByValidation in Hrej. rewrite Hv in Hrej. now rewrite Hrej.
  - congruence.
  - apply get_In, Hok in Hget. rewrite Hkey in Hget.
    rewrite (callCompiled_reference host _ cached ctx x
               (compiledFrom_reference host x cached Hx Hget)) in Hcall.
    discriminate.
  - rewrite Hnew in Hfn. injection Hfn as <-.
    rewrite (callCompiled_reference host _ {| safeExpression := e |} ctx x
               Href) in Hcall.
    discriminate.
  - apply get_In, Hok in Hget. rewrite Hkey in Hget.
    rewrite (callCompiled_reference host _ cached ctx x
               (compiledFrom_reference host x cached Hx Hget)) in Hcall.
    injection Hcall as <-. rewrite Hv in Hvalid. now rewrite Hvalid.
  - rewrite Hnew in Hfn. injection Hfn as <-.
    rewrite (callCompiled_reference host _ {| safeExpression := e |} ctx x
               Href) in Hcall.
    injection Hcall as <-. rewrite Hv in Hvalid. now rewrite Hvalid.
Qed.

Ltac plain_identifier :=
  split; [split; [discriminate|reflexivity]|];
  split; [reflexivity|];
  split; [vm_compute; reflexivity|];
  let H := fresh "H" in
  intros H; cbn in H;
  repeat (destruct H as [H|H]; [discriminate H|]); exact H.

Lemma finiteOrZero_number (o : option number) :
  finiteOrZero
    (if isFiniteNumber (orZero o) then VNumber (orZero o) else VNumber zero) =
  match o with
  | Some v => if isFiniteNumber v then v else zero
  | None => zero
  end.
Proof.
  destruct o as [v|]; [|reflexivity]. cbn [orZero].
  destruct (isFiniteNumber v) eqn:E; cbn [finiteOrZero]; [now rewrite E|].
  reflexivity.
Qed.

Lemma referenceResult_variable host ctx x :
  x = lit "t" \/ x = lit "time" ->
  finiteOrZero (referenceResult host ctx x) = variableValue x ctx.
Proof.
  intros [-> | ->]; unfold referenceResult, variableValue, resolveIdentifier;
    cbn [eqb lit map list_ascii_of_string N_of_ascii N.eqb Pos.eqb andb
         N_of_digits N.add N.mul];
    cbn [ToNumber]; apply finiteOrZero_number.
Qed.

(** X21. In every reachable state, whether the compiled function is in the
    cache or not, the text [t] evaluates to the entry [t] of the context
    when that is a finite number, and to 0 when the entry is missing or not
    finite; likewise [time]. *)
Theorem variables_are_read_from_the_context
    (host : Host) (s : State) (x : jsstring) (ctx : EvaluationContext) :
  reachable host s ->
  x = lit "t" \/ x = lit "time" ->
  fst (evaluate host x ctx s) = Normal (variableValue x ctx).
Proof.
  intros Hreach Hx.
  rewrite <- (referenceResult_variable host ctx x Hx).
  assert (Hplain : plainIdentifier x)
    by (destruct Hx as [-> | ->]; plain_identifier).
  assert (Hkey : createCacheKey x = x)
    by (destruct Hx as [-> | ->]; reflexivity).
  assert (Hvalid : isValid (computeValidation x) = true)
    by (destruct Hx as [-> | ->]; vm_compute; reflexivity).
  rewrite (evaluate_reference host s x ctx x Hreach Hplain Hkey).
  now rewrite Hvalid.
Qed.

Lemma variables_are_read_witness :
  fst (evaluate sampleHost (lit "time")
         [(lit "t", Finite 1); (lit "time", Finite 2)]
         (performAll sampleHost [CallEvaluate (lit " time") plainContext]
            initialState))
  = Normal (variableValue (lit "time")
              [(lit "t", Finite 1); (lit "time", Finite 2)]).
Proof.
  apply (variables_are_read_from_the_context sampleHost).
  - apply reachable_performAll. apply reachable_initial.
  - right. reflexivity.
Defined.

Lemma referenceResult_unbound host ctx c :
  In c constantsWithoutRewrite -> globalBinding host c = None ->
  referenceResult host ctx c = VNumber zero.
Proof.
  intros Hin Hglobal. unfold referenceResult, resolveIdentifier.
  cbn in Hin.
  repeat (destruct Hin as [Hin|Hin];
          [subst c;
           cbn [eqb lit map list_ascii_of_string N_of_ascii N.eqb Pos.eqb andb
                N_of_digits N.add N.mul];
           now rewrite Hglobal|]).
  destruct Hin.
Qed.

(** X22. The constants LN2, LN10, LOG2E, LOG10E, SQRT1_2 and SQRT2 are on
    the allow-list, so the validator accepts each as a text and lists no
    unknown variable for it; but [compileExpression] has no rewrite for
    them, and unless the global environment happens to bind the name, such a
    text, with white space around it or not, evaluates to 0. *)
Theorem constants_without_rewrite_evaluate_to_0
    (host : Host) (s : State) (c e : jsstring) (ctx : EvaluationContext) :
  reachable host s ->
  In c constantsWithoutRewrite ->
  globalBinding host c = None ->
  createCacheKey e = c ->
  (exists o s',
     validateExpression c s = (Normal o, s') /\
     isValid (contents o) = true /\ variablesUsed (contents o) = []) /\
  fst (evaluate host e ctx s) = Normal zero.
Proof.
  intros Hreach Hin Hglobal Hkey. split.
  - destruct (validateExpression_reachable host s c Hreach)
      as (o & s' & Heq & Ho).
    exists o, s'. split; [exact Heq|]. rewrite Ho.
    cbn in Hin.
    repeat (destruct Hin as [Hin|Hin];
            [subst c; vm_compute; split; reflexivity|]).
    destruct Hin.
  - assert (Hplain : plainIdentifier c).
    { cbn in Hin.
      repeat (destruct Hin as [Hin|Hin]; [subst c; plain_identifier|]).
      destruct Hin. }
    rewrite (evaluate_reference host s e ctx c Hreach Hplain Hkey).
    rewrite (referenceResult_unbound host ctx c Hin Hglobal).
    now destruct (isValid (computeValidation e)).
Qed.

Lemma constants_without_rewrite_witness :
  (exists o s',
     validateExpression (lit "SQRT2") initialState = (Normal o, s') /\
     isValid (contents o) = true /\ variablesUsed (contents o) = []) /\
  fst (evaluate sampleHost (lit " SQRT2 ") plainContext initialState)
  = Normal zero.
Proof.
  apply (constants_without_rewrite_evaluate_to_0 sampleHost initialState
           (lit "SQRT2") (lit " SQRT2 ") plainContext).
  - apply reachable_initial.
  - cbn. tauto.
  - reflexivity.
  - reflexivity.
Defined.

(** ** What evaluate writes to the console *)







(** The three messages, as they appear on the console. *)
Example message_of_a_rejection :
  console (snd (evaluate sampleHost (lit "foo(1") plainContext initialState))
  = errorEntries
      (lit "Invalid expression: Unbalanced parentheses, Unknown or forbidden function: foo")
      1.
Proof. vm_compute. reflexivity. Qed.

Example message_of_a_compile_failure :
  console (snd (evaluate refusingHost (lit "1 +") plainContext initialState))
  = errorEntries
      (lit "Evaluation failed: Error: Failed to compile expression: Unexpected token")
      1.
Proof. vm_compute. reflexivity. Qed.

Example message_of_a_runtime_fault :
  console (snd (evaluate faultyHost (lit "1 + t") plainContext initialState))
  = errorEntries
      (lit "Evaluation failed: Error: Function execution failed: fault")
      2.
Proof. vm_compute. reflexivity. Qed.



(** ** The first call of a text *)

Lemma rep_greedy (R : Type) p w : forall next prev caps (k : kont R) x,
  forallb p w = true ->
  match next with [] => True | c :: _ => p c = false end ->
  k (lastOr prev w) next caps = Some x ->
  rep p 0 prev (w ++ next) caps k = Some x.
Proof.
  induction w as [|a w IH]; intros next prev caps k x Hw Hnext Hk.
  - cbn [app lastOr] in *. destruct next as [|c next]; cbn [rep];
      [exact Hk|]. now rewrite Hnext.
  - cbn [forallb] in Hw. apply andb_true_iff in Hw as [Ha Hw].
    cbn [app rep]. rewrite Ha. cbn [pred].
    rewrite lastOr_cons in Hk.
    now rewrite (IH next (Some a) caps k x Hw Hnext Hk).
Qed.

Lemma identPart_not_whiteSpace c :
  isIdentPart c = true -> isWhiteSpace c = false.
Proof.
  unfold isIdentPart. intros H.
  apply orb_true_iff in H as [H|H].
  - apply wordChar_not_whiteSpace. unfold isWordChar.
    apply orb_true_iff in H as [H|H]; [|now rewrite H, orb_true_r].
    apply orb_true_iff in H as [H|H]; rewrite H; [reflexivity|].
    now rewrite orb_true_r.
  - apply N.eqb_eq in H. now subst c.
Qed.

Lemma whiteSpace_not_identPart c :
  isWhiteSpace c = true -> isIdentPart c = false.
Proof.
  intros H. destruct (isIdentPart c) eqn:E; [|reflexivity].
  apply identPart_not_whiteSpace in E. congruence.
Qed.

Lemma identPart_not_paren c : isIdentPart c = true -> N.eqb c 40 = false.
Proof.
  intros H. destruct (N.eqb c 40) eqn:E; [|reflexivity].
  apply N.eqb_eq in E. subst c. discriminate H.
Qed.

Lemma wordChar_identPart c : isWordChar c = true -> isIdentPart c = true.
Proof.
  unfold isWordChar, isIdentPart. intros H.
  apply orb_true_iff in H as [H|H]; [|now rewrite H, orb_true_r].
  now rewrite H.
Qed.

Lemma functionName_parts f :
  isFunctionName f -> f <> [] /\ forallb isIdentPart f = true.
Proof.
  intros (c & f' & -> & Hc & Hf'). split; [discriminate|].
  cbn [forallb]. rewrite Hf', andb_true_r.
  unfold isIdentPart, isLetter in *.
  apply orb_true_iff in Hc as [Hc|Hc]; rewrite Hc; [reflexivity|].
  now rewrite !orb_true_r.
Qed.

Lemma firstn_length_app {A} (l1 l2 : list A) :
  firstn (length l1) (l1 ++ l2) = l1.
Proof.
  rewrite <- (Nat.add_0_r (length l1)), firstn_app_2. cbn [firstn].
  apply app_nil_r.
Qed.

(** The pattern of a call finds the name with its parenthesis where the
    name begins. *)
Lemma matchHere_call prev f ws rest :
  isWordOpt prev = false -> isFunctionName f ->
  forallb isWhiteSpace ws = true ->
  matchHere callPattern prev (f ++ ws ++ lit "(" ++ rest) =
  Some {| matched := f ++ ws ++ lit "("; groups := [] |}.
Proof.
  intros Hprev (c & f' & -> & Hc & Hf') Hws.
  unfold matchHere, callPattern. cbn [run app].
  assert (Hword : isWordChar c = true).
  { unfold isWordChar, isLetter in *.
    apply orb_true_iff in Hc as [Hc|Hc]; rewrite Hc; [reflexivity|].
    now rewrite orb_true_r. }
  assert (Hstart : isIdentStart c = true).
  { unfold isIdentStart, isLetter in *.
    apply orb_true_iff in Hc as [Hc|Hc]; rewrite Hc; [reflexivity|].
    now rewrite orb_true_r. }
  cbn [hd_error isWordOpt]. rewrite Hprev, Hword. cbn [xorb]. rewrite Hstart.
  set (s := c :: f' ++ ws ++ lit "(" ++ rest).
  assert (Hlen : firstn (length s - length rest) s = c :: f' ++ ws ++ lit "(").
  { subst s.
    replace (c :: f' ++ ws ++ lit "(" ++ rest)
      with ((c :: f' ++ ws ++ lit "(") ++ rest)
      by (cbn [app]; now rewrite <- !app_assoc).
    rewrite length_app, Nat.add_sub. apply firstn_length_app. }
  apply rep_greedy.
  - exact Hf'.
  - destruct ws as [|w ws]; cbn [app lit map list_ascii_of_string].
    + reflexivity.
    + cbn [forallb] in Hws. apply andb_true_iff in Hws as [Hw _].
      now apply whiteSpace_not_identPart.
  - apply rep_greedy.
    + exact Hws.
    + reflexivity.
    + unfold str.
      cbn [app lit map list_ascii_of_string seqOf run].
      match goal with
      | |- context [N.eqb ?a ?b] => change (N.eqb a b) with true
      end.
      cbn iota. fold s. now rewrite Hlen.
Qed.

Lemma first_occurrence {A} (c : A) U : forall V r r',
  U ++ c :: r = V ++ c :: r' -> ~ In c U -> ~ In c V -> U = V.
Proof.
  induction U as [|a U IH]; intros V r r' H HU HV.
  - destruct V as [|b V]; [reflexivity|].
    injection H as <- _. exfalso. apply HV. now left.
  - destruct V as [|b V].
    + injection H as -> _. exfalso. apply HU. now left.
    + injection H as <- H. f_equal. apply (IH V r r' H).
      * intros Hin. apply HU. now right.
      * intros Hin. apply HV. now right.
Qed.

Lemma trimStart_whiteSpace ws s :
  forallb isWhiteSpace ws = true -> trimStart (ws ++ s) = trimStart s.
Proof.
  induction ws as [|c ws IH]; intros H; [reflexivity|].
  cbn [forallb] in H. apply andb_true_iff in H as [Hc Hws].
  cbn [app trimStart]. rewrite Hc. now apply IH.
Qed.

Lemma trimStart_id s :
  match s with [] => True | c :: _ => isWhiteSpace c = false end ->
  trimStart s = s.
Proof. destruct s as [|c s]; [reflexivity|]. cbn. now intros ->. Qed.

(** A text that ends with a character that is not white space, followed
    by white space: the two parts are determined. *)
Lemma text_before_whiteSpace X Y ws sp :
  X ++ ws = Y ++ sp ->
  forallb isWhiteSpace ws = true -> forallb isWhiteSpace sp = true ->
  match rev X with [] => True | c :: _ => isWhiteSpace c = false end ->
  match rev Y with [] => True | c :: _ => isWhiteSpace c = false end ->
  X = Y.
Proof.
  intros H Hws Hsp HX HY.
  apply (f_equal (@rev char)) in H. rewrite !rev_app_distr in H.
  apply (f_equal trimStart) in H.
  rewrite !trimStart_whiteSpace in H by now rewrite forallb_rev.
  rewrite (trimStart_id _ HX), (trimStart_id _ HY) in H.
  apply (f_equal (@rev char)) in H. now rewrite !rev_involutive in H.
Qed.

Lemma rev_last_identPart X :
  X <> [] -> forallb isIdentPart X = true ->
  match rev X with [] => True | c :: _ => isWhiteSpace c = false end.
Proof.
  intros Hne H. destruct (rev X) as [|c l] eqn:E; [exact I|].
  apply identPart_not_whiteSpace.
  rewrite <- forallb_rev, E in H. cbn [forallb] in H.
  now apply andb_true_iff in H as [Hc _].
Qed.

Lemma forallb_app_l {A} (p : A -> bool) l1 l2 :
  forallb p (l1 ++ l2) = true -> forallb p l1 = true.
Proof. rewrite forallb_app. intros H. now apply andb_true_iff in H. Qed.

(** What a match of the call pattern consists of. *)
Lemma Lang_call prev w next :
  Lang callPattern prev w next ->
  exists name sp,
    w = name ++ sp ++ [40%N] /\ name <> [] /\
    forallb isIdentPart name = true /\ forallb isWhiteSpace sp = true.
Proof.
  intros L. unfold callPattern in L.
  apply Lang_Seq_inv in L as (w1 & w2 & -> & L1 & L).
  inversion L1; subst. clear L1.
  apply Lang_Seq_inv in L as (w3 & w4 & -> & L3 & L).
  inversion L3 as [|p prev' c next' Hc| | | | | | | |]; subst. clear L3.
  apply Lang_Seq_inv in L as (w5 & w6 & -> & L5 & L).
  inversion L5 as [| | | | |min p prev' w' next' _ Hparts| | | |]; subst.
  clear L5.
  apply Lang_Seq_inv in L as (w7 & w8 & -> & L7 & L).
  inversion L7 as [| | | | |min p prev' w' next' _ Hsp| | | |]; subst.
  clear L7.
  apply Lang_paren in L. subst w8.
  exists (c :: w5), w7. cbn [app]. split; [reflexivity|].
  split; [discriminate|]. split; [|exact Hsp].
  cbn [forallb]. rewrite Hparts, andb_true_r.
  unfold isIdentStart, isIdentPart in *.
  apply orb_true_iff in Hc as [Hc|Hc]; [|now rewrite Hc, orb_true_r].
  apply orb_true_iff in Hc as [Hc|Hc]; rewrite Hc; [reflexivity|].
  now rewrite !orb_true_r.
Qed.

(** No call begins in [before]. *)
Lemma matchHere_before_call prev b1 c b2 f ws rest :
  countChars isOpenParen (b1 ++ c :: b2) = 0 ->
  isIdentPart (last (c :: b2) 0%N) = false ->
  isFunctionName f -> forallb isWhiteSpace ws = true ->
  matchHere callPattern prev ((c :: b2) ++ f ++ ws ++ lit "(" ++ rest) = None.
Proof.
  intros Hparen Hlast Hf Hws.
  destruct (matchHere callPattern prev _) as [m|] eqn:E; [|reflexivity].
  exfalso. unfold matchHere in E.
  apply run_sound in E as (w & next & _ & Hs & L & _).
  apply Lang_call in L as (name & sp & -> & Hne & Hname & Hsp).
  destruct (functionName_parts f Hf) as [Hfne Hfparts].
  assert (HU : ~ In 40%N ((c :: b2) ++ f ++ ws)).
  { intros Hin. apply in_app_or in Hin as [Hin|Hin];
      [|apply in_app_or in Hin as [Hin|Hin]].
    - assert (Hin' : In 40%N (b1 ++ c :: b2))
        by (apply in_or_app; now right).
      pose proof (countChars_0 _ _ _ Hparen Hin') as H. discriminate H.
    - rewrite forallb_forall in Hfparts.
      pose proof (identPart_not_paren _ (Hfparts _ Hin)) as H. discriminate H.
    - rewrite forallb_forall in Hws.
      pose proof (whiteSpace_not_paren _ (Hws _ Hin)) as H. discriminate H. }
  assert (HV : ~ In 40%N (name ++ sp)).
  { intros Hin. apply in_app_or in Hin as [Hin|Hin].
    - rewrite forallb_forall in Hname.
      pose proof (identPart_not_paren _ (Hname _ Hin)) as H. discriminate H.
    - rewrite forallb_forall in Hsp.
      pose proof (whiteSpace_not_paren _ (Hsp _ Hin)) as H. discriminate H. }
  assert (Heq : ((c :: b2) ++ f ++ ws) ++ 40%N :: rest
                = (name ++ sp) ++ 40%N :: next).
  { rewrite <- !app_assoc. cbn [app] in *. rewrite <- !app_assoc in Hs.
    cbn [app] in Hs. exact Hs. }
  apply first_occurrence in Heq; [|exact HU|exact HV].
  rewrite app_assoc in Heq.
  apply text_before_whiteSpace in Heq; [|exact Hws|exact Hsp| |].
  - rewrite <- Heq in Hname. apply forallb_app_l in Hname.
    rewrite forallb_forall in Hname.
    assert (Hin : In (last (c :: b2) 0%N) (c :: b2)).
    { destruct (exists_last (l := c :: b2) ltac:(discriminate))
        as (l & a & El).
      rewrite El, last_last. apply in_or_app. right. now left. }
    rewrite (Hname _ Hin) in Hlast. discriminate.
  - rewrite rev_app_distr.
    pose proof (rev_last_identPart f Hfne Hfparts) as H.
    destruct (rev f) as [|a l] eqn:Ef; [|exact H].
    apply (f_equal (@rev char)) in Ef. rewrite rev_involutive in Ef.
    cbn in Ef. congruence.
  - exact (rev_last_identPart name Hne Hname).
Qed.

Lemma matchAllFrom_first_call before : forall prev b0 f ws rest,
  countChars isOpenParen (b0 ++ before) = 0 ->
  match lastOr prev before with
  | Some c => isIdentPart c = false
  | None => True
  end ->
  isFunctionName f -> forallb isWhiteSpace ws = true ->
  In (f ++ ws ++ lit "(")
     (map matched
        (matchAllFrom callPattern prev
           (before ++ f ++ ws ++ lit "(" ++ rest) 0)).
Proof.
  induction before as [|c before IH];
    intros prev b0 f ws rest Hparen Hlast Hf Hws.
  - cbn [app lastOr] in *.
    assert (Hprev : isWordOpt prev = false).
    { destruct prev as [c|]; [|reflexivity]. cbn.
      destruct (isWordChar c) eqn:E; [|reflexivity].
      apply wordChar_identPart in E. congruence. }
    destruct Hf as (c & f' & Hfeq & Hf). subst f.
    assert (Hf0 : isFunctionName (c :: f')) by (exists c, f'; auto).
    pose proof (matchHere_call prev (c :: f') ws rest Hprev Hf0 Hws) as Hm.
    cbn [app] in Hm |- *. cbn [matchAllFrom]. rewrite Hm.
    cbn [map matched]. now left.
  - assert (Hnone : matchHere callPattern prev
                      ((c :: before) ++ f ++ ws ++ lit "(" ++ rest) = None).
    { apply (matchHere_before_call prev b0 c before f ws rest Hparen);
        [|exact Hf|exact Hws].
      cbn [lastOr] in Hlast. exact Hlast. }
    cbn [app] in Hnone |- *. cbn [matchAllFrom]. rewrite Hnone.
    apply (IH (Some c) (b0 ++ [c]) f ws rest).
    + now rewrite <- app_assoc.
    + rewrite <- lastOr_cons with (prev := prev). exact Hlast.
    + exact Hf.
    + exact Hws.
Qed.

(** [call.replace(/\s*\($/, "")] gives the name back. *)
Lemma stripCall_call f ws :
  forallb isIdentPart f = true -> forallb isWhiteSpace ws = true ->
  stripCall (f ++ ws ++ lit "(") = f.
Proof.
  intros Hf Hws. unfold stripCall, replaceFirst.
  generalize (@None char) as prev.
  induction f as [|c f IH]; intros prev.
  - cbn [app]. 
    assert (Hm : matchHere (Seq spaces (Seq (str "(") Eol)) prev
                   (ws ++ lit "(") =
                 Some {| matched := ws ++ lit "("; groups := [] |}).
    { unfold matchHere, spaces. cbn [run].
      apply rep_greedy; [exact Hws|reflexivity|].
      cbn. now rewrite Nat.sub_0_r, firstn_all. }
    destruct (ws ++ lit "(") as [|a l] eqn:E.
    + destruct ws; discriminate E.
    + cbn [replaceFirstFrom]. rewrite Hm. cbn [matched app].
      now rewrite skipn_all.
  - cbn [forallb] in Hf. apply andb_true_iff in Hf as [Hc Hf].
    cbn [app replaceFirstFrom].
    assert (Hm : matchHere (Seq spaces (Seq (str "(") Eol)) prev
                   (c :: f ++ ws ++ lit "(") = None).
    { unfold matchHere, spaces. cbn [run rep].
      rewrite (identPart_not_whiteSpace c Hc).
      cbn. now rewrite (identPart_not_paren c Hc). }
    rewrite Hm. f_equal. exact (IH Hf (Some c)).
Qed.

Lemma first_call_is_called e before f ws rest :
  firstCall e before f ws rest -> In f (calledNames e).
Proof.
  intros (-> & Hparen & Hends & Hf & Hws).
  unfold calledNames, matchAll. unfold whiteSpaceOnly in Hws.
  rewrite <- (stripCall_call f ws (proj2 (functionName_parts f Hf)) Hws)
    at 1.
  rewrite map_map. 
  change (fun x => stripCall (matched x))
    with (fun x => stripCall ((fun m => matched m) x)).
  rewrite <- (map_map matched stripCall).
  apply in_map.
  exact (matchAllFrom_first_call before None [] f ws rest Hparen Hends Hf Hws).
Qed.

Lemma computeValidation_unknown_function e f :
  In f (calledNames e) -> inSafeMathFunctions f = false ->
  isValid (computeValidation e) = false /\
  In (unknownFunctionMessage f) (errors (computeValidation e)).
Proof.
  intros Hcalled Hunknown.
  assert (Hin : In (unknownFunctionMessage f) (unknownFunctionErrors e)).
  { unfold unknownFunctionErrors. apply in_map. apply filter_In.
    split; [exact Hcalled|]. now rewrite Hunknown. }
  destruct (isBlank e) eqn:Hb.
  - rewrite (computeValidation_blank e Hb). split; [reflexivity|].
    exfalso. unfold calledNames in Hcalled.
    rewrite matchAll_no_match in Hcalled; [destruct Hcalled|].
    destruct (test callPattern e) eqn:E; [|reflexivity].
    apply test_occursIn in E as (before & part & after & -> & L).
    apply Lang_call in L as (name & sp & -> & _ & _ & _).
    rewrite isBlank_whiteSpaceOnly in Hb. unfold whiteSpaceOnly in Hb.
    rewrite forallb_forall in Hb.
    assert (H40 : In 40%N (before ++ (name ++ sp ++ [40%N]) ++ after)).
    { rewrite !in_app_iff. cbn [In]. tauto. }
    specialize (Hb _ H40). discriminate Hb.
  - destruct (computeValidation_errors e Hb) as [He Hv]. cbn zeta in He, Hv.
    assert (Hall : In (unknownFunctionMessage f)
                     (lengthErrors e ++ syntaxErrors e ++ forbiddenErrors e
                      ++ unknownFunctionErrors e)).
    { rewrite !in_app_iff. tauto. }
    split; [rewrite Hv; exact (In_isNil _ _ Hall)|now rewrite He].
Qed.

(** X25. Let a text hold a name, after a character that is not part of a
    name or at its very start, then white space or none, and then the first
    opening parenthesis of the text. If the name is not a key of the
    allow-list, the validator rejects the text, in every reachable state,
    with the error "Unknown or forbidden function: " and the name, and the
    text evaluates to 0 in every context. *)
Theorem unknown_function_is_rejected
    (host : Host) (s : State) (e before f ws rest : jsstring) :
  reachable host s ->
  firstCall e before f ws rest ->
  inSafeMathFunctions f = false ->
  (exists o s',
     validateExpression e s = (Normal o, s') /\
     isValid (contents o) = false /\
     In (lit "Unknown or forbidden function: " ++ f) (errors (contents o)))
  /\
  forall ctx, fst (evaluate host e ctx s) = Normal zero.
Proof.
  intros Hreach Hcall Hunknown.
  destruct (computeValidation_unknown_function e f
              (first_call_is_called e before f ws rest Hcall) Hunknown)
    as [Hv He].
  split.
  - destruct (validateExpression_reachable host s e Hreach)
      as (o & s' & Heq & Ho).
    exists o, s'. rewrite Ho. auto.
  - intros ctx. exact (evaluate_invalid host s e ctx Hreach Hv).
Qed.

Lemma unknown_function_witness :
  (exists o s',
     validateExpression (lit "2 * alert (1) + sin(t)") initialState
     = (Normal o, s') /\
     isValid (contents o) = false /\
     In (lit "Unknown or forbidden function: " ++ lit "alert")
        (errors (contents o)))
  /\
  forall ctx,
    fst (evaluate sampleHost (lit "2 * alert (1) + sin(t)") ctx initialState)
    = Normal zero.
Proof.
  apply (unknown_function_is_rejected sampleHost initialState
           (lit "2 * alert (1) + sin(t)")
           (lit "2 * ") (lit "alert") (lit " ") (lit "1) + sin(t)")).
  - apply reachable_initial.
  - repeat split. exists 97%N, (lit "lert"). repeat split.
  - reflexivity.
Defined.
